(** * bladeRF transmit sink (lib/bladerf/bladerf_sink_c.cc)

    A shallow embedding of the sink block of gr-osmosdr that feeds a
    bladeRF: the stream configuration read by the constructor, the sample
    converter, the buffer pool shared by [work] and [get_next_buffer], the
    destructor, and the tuner and gain calls.

    Conventions.  The target is LP64: [size_t] has 64 bits, [unsigned int]
    and [uint32_t] 32 bits, [int16_t] 16 bits; a value of such a type is a
    [Z] and every narrowing is written out.  [float] is IEEE binary32 and
    [double] binary64, both as [spec_float].  A pointer is the address it
    holds, [NULL] is 0.  A C++ exception is the [Throw] outcome. *)

From Stdlib Require Import ZArith Lia Bool String List QArith Qround.
From Corelib Require Import SpecFloat.
From stdpp Require Import base option list gmap strings pretty.

(** ** Outcomes of code that may throw *)

Inductive result (A : Type) : Type :=
| Ok (a : A)
| Throw (what : string).
Arguments Ok {A} a.
Arguments Throw {A} what.

#[export] Instance result_ret : MRet result := @Ok.
#[export] Instance result_bind : MBind result := fun A B f m =>
  match m with
  | Ok a => f a
  | Throw w => Throw w
  end.
#[export] Instance result_fmap : FMap result := fun A B f m =>
  match m with
  | Ok a => Ok (f a)
  | Throw w => Throw w
  end.

(** ** Fixed-width integers *)

Module Width.
Local Open Scope Z_scope.

Definition to_size_t (z : Z) : Z := z mod 2 ^ 64.
Definition to_uint (z : Z) : Z := z mod 2 ^ 32.

(** Two's-complement reading of the low [w] bits of [z]. *)
Definition to_signed (w : Z) (z : Z) : Z :=
  let m := z mod 2 ^ w in
  if m <? 2 ^ (w - 1) then m else m - 2 ^ w.

Definition to_int16 : Z -> Z := to_signed 16.
Definition to_int : Z -> Z := to_signed 32.

Definition sizeof_int16_t : Z := 2.

End Width.

(** ** The constructor's stream configuration (lines 162-199) *)

Module Config.
Import Width.
Local Open Scope Z_scope.

Definition NUM_BUFFERS : Z := 32.
Definition NUM_SAMPLES_PER_BUFFER : Z := 4096.

(** [dict_t]: the device arguments, a map from key to value, both strings. *)
Abbreviation dict_t := (gmap string string).

Record stream_config := {
  num_buffers : Z;
  samples_per_buffer : Z;
  transfers : Z
}.

(** A reader of decimal numerals: digits only, [None] on anything else or
    on a value that does not fit 64 bits. *)
Definition digit_of (c : Ascii.ascii) : option Z :=
  let n := Z.of_N (Ascii.N_of_ascii c) in
  if (48 <=? n) && (n <=? 57) then Some (n - 48) else None.

Fixpoint decimal_from (acc : Z) (s : string) : option Z :=
  match s with
  | EmptyString => Some acc
  | String c rest =>
      match digit_of c with
      | Some dgt =>
          let acc' := 10 * acc + dgt in
          if acc' <? 2 ^ 64 then decimal_from acc' rest else None
      | None => None
      end
  end.

Definition decimal (s : string) : option Z :=
  match s with
  | EmptyString => None
  | _ => decimal_from 0 s
  end.

Section Constructor.

(** [boost::lexical_cast<size_t>] is not part of this repository: it is a
    parameter, [None] standing for [bad_lexical_cast]. *)
Variable lexical_cast : string -> option Z.

(** [if (dict.count(key)) var = boost::lexical_cast<size_t>(dict[key]);]
    with [var] holding [init] before. *)
Definition read_key (key : string) (init : Z) (dict : dict_t) : result Z :=
  match dict !! key with
  | None => Ok init
  | Some value =>
      match lexical_cast value with
      | Some z => Ok (to_size_t z)
      | None => Throw "bad lexical cast"
      end
  end.

Definition choose_num_buffers (n : Z) : Z :=
  if n <=? 1 then NUM_BUFFERS else n.

Definition choose_samples_per_buffer (buflen : Z) : Z :=
  if 0 =? buflen then NUM_SAMPLES_PER_BUFFER
  else
    let q := buflen / (2 * sizeof_int16_t) in
    if (q <? 1024) || negb (q mod 1024 =? 0) then NUM_SAMPLES_PER_BUFFER
    else q.

(** [transfers] is an [unsigned int]: [t] is its value, already narrowed. *)
Definition choose_transfers (t n : Z) : Z :=
  if (t =? 0) || (t >? n / 2) then to_uint (n / 2) else t.

(** The constructor [bladerf_sink_c::bladerf_sink_c] from line 162 to line
    199: the values it passes to [bladerf_init_stream]. *)
Definition configure (dict : dict_t) : result stream_config :=
  nb ← read_key "buffers" 0 dict;
  len ← read_key "buflen" 0 dict;
  t ← to_uint <$> read_key "transfers" 0 dict;
  let nb' := choose_num_buffers nb in
  Ok {| num_buffers := nb';
        samples_per_buffer := choose_samples_per_buffer len;
        transfers := choose_transfers t nb' |}.

End Constructor.

(** A device string with [buffers=32,transfers=4294967297]. *)
Definition args_wide_transfers : dict_t :=
  <["buffers" := "32"]> (<["transfers" := "4294967297"]> ∅).

(** A device string with [buffers=3]. *)
Definition args_three_buffers : dict_t := <["buffers" := "3"]> ∅.

(** A device string with [buffers=8,buflen=8192,transfers=7]. *)
Definition args_small : dict_t :=
  <["buffers" := "8"]> (<["buflen" := "8192"]> (<["transfers" := "7"]> ∅)).

(** A device string with [buffers=2,buflen=4096]: two buffers of 1024
    samples each, one transfer. *)
Definition args_two_buffers : dict_t :=
  <["buffers" := "2"]> (<["buflen" := "4096"]> ∅).

Definition two_buffers : stream_config :=
  {| num_buffers := 2; samples_per_buffer := 1024; transfers := 1 |}.

End Config.

(** ** Floating point *)

Module Float.
Import Width.
Local Open Scope Z_scope.

(** [float]: IEEE binary32, products rounded to nearest even. *)
Definition float_mul : spec_float -> spec_float -> spec_float := SFmul 24 128.
Definition float_of_int (z : Z) : spec_float := binary_normalize 24 128 z 0 false.

(** [double]: IEEE binary64. *)
Definition double_of_int (z : Z) : spec_float := binary_normalize 53 1024 z 0 false.
Definition double_ltb : spec_float -> spec_float -> bool := SFltb.

(** The integer part of a finite value, fraction discarded (toward zero);
    NaN and the infinities have none. *)
Definition truncate (x : spec_float) : option Z :=
  match x with
  | S754_zero _ => Some 0
  | S754_finite sign m e =>
      let a := match e with
               | Z0 => Zpos m
               | Zpos k => Zpos m * 2 ^ Zpos k
               | Zneg k => Zpos m / 2 ^ Zpos k
               end in
      Some (if sign then - a else a)
  | S754_infinity _ | S754_nan => None
  end.

(** The casts [(int16_t)x], [(int)x] and [(uint32_t)x] of a floating value:
    the fraction is discarded and the integer part is reduced to the width
    of the destination.  The language defines the cast only when the
    integer part fits; beyond that, and for NaN and the infinities (taken
    as 0 here), the value is the one the usual targets leave. *)
Definition int16_of_float (x : spec_float) : Z := to_int16 (default 0 (truncate x)).
Definition int_of_float (x : spec_float) : Z := to_int (default 0 (truncate x)).
Definition uint32_of_float (x : spec_float) : Z := to_uint (default 0 (truncate x)).

Record gr_complex := { real : spec_float; imag : spec_float }.

Definition is_finite (x : spec_float) : bool :=
  match x with
  | S754_zero _ | S754_finite _ _ _ => true
  | S754_infinity _ | S754_nan => false
  end.

(** The number a finite floating value stands for: [m * 2^e], signed. *)
Definition Q_of_float (x : spec_float) : Q :=
  match x with
  | S754_finite sign m e =>
      let v := match e with
               | Z0 => Zpos m # 1
               | Zpos k => (Zpos m * 2 ^ Zpos k) # 1
               | Zneg k => Zpos m # (2 ^ k)%positive
               end in
      if sign then Qopp v else v
  | _ => 0%Q
  end.

(** Rounding of a number to an integer, toward zero. *)
Definition round_toward_zero (q : Q) : Z :=
  if (Qnum q <? 0)%Z then Qceiling q else Qfloor q.

(** The binary32 values of the literals [0.1f] and [-0.2f], and of 20. *)
Definition tenth : spec_float := SFdiv 24 128 (float_of_int 1) (float_of_int 10).
Definition minus_two_tenths : spec_float :=
  SFdiv 24 128 (float_of_int (-2)) (float_of_int 10).
Definition twenty : spec_float := float_of_int 20.

End Float.

(** ** The buffer pool, [work], [get_next_buffer] and the destructor *)

Module Pipeline.
Import Width Float.

Inductive cond := samp_avail | buffer_emptied.

(** What a thread does to the shared state and to the other threads, in
    program order. *)
Inductive event :=
| EvLock                              (* _buf_status_lock taken *)
| EvUnlock                            (* _buf_status_lock released *)
| EvWait (c : cond)                   (* c.wait(lock): releases the lock *)
| EvNotifyOne (c : cond)
| EvNotifyAll (c : cond)
| EvSetFilled (i : nat) (b : bool)    (* _filled[i] = b *)
| EvStore (addr : Z) (v : Z)          (* *_next_value = v *)
| EvSubmit (p : Z)                    (* get_next_buffer returns p *)
| EvWorkReturn (v : Z)                (* work returns v *)
| EvSetRunning (b : bool)             (* set_running(b) *)
| EvJoin                              (* _thread.join() returns *)
| EvRelease.                          (* stream, device and _filled released *)

#[export] Instance cond_eq_dec : EqDecision cond.
Proof. solve_decision. Defined.
#[export] Instance event_eq_dec : EqDecision event.
Proof. solve_decision. Defined.

(** The members of [bladerf_sink_c] that the streaming code uses, the
    running flag of its base class, and the memory of the transfer
    buffers ([mem], from the address of an [int16_t] to its value). *)
Record sink := {
  _buffers : list Z;
  _num_buffers : nat;
  _samples_per_buffer : nat;
  _filled : list bool;
  _buf_index : nat;
  _next_to_tx : nat;
  _next_value : Z;
  _samples_left : nat;
  _running : bool;
  mem : gmap Z Z
}.

Definition with_filled (v : list bool) (s : sink) : sink :=
  {| _buffers := _buffers s; _num_buffers := _num_buffers s;
     _samples_per_buffer := _samples_per_buffer s; _filled := v;
     _buf_index := _buf_index s; _next_to_tx := _next_to_tx s;
     _next_value := _next_value s; _samples_left := _samples_left s;
     _running := _running s; mem := mem s |}.

Definition with_buf_index (v : nat) (s : sink) : sink :=
  {| _buffers := _buffers s; _num_buffers := _num_buffers s;
     _samples_per_buffer := _samples_per_buffer s; _filled := _filled s;
     _buf_index := v; _next_to_tx := _next_to_tx s;
     _next_value := _next_value s; _samples_left := _samples_left s;
     _running := _running s; mem := mem s |}.

Definition with_next_to_tx (v : nat) (s : sink) : sink :=
  {| _buffers := _buffers s; _num_buffers := _num_buffers s;
     _samples_per_buffer := _samples_per_buffer s; _filled := _filled s;
     _buf_index := _buf_index s; _next_to_tx := v;
     _next_value := _next_value s; _samples_left := _samples_left s;
     _running := _running s; mem := mem s |}.

Definition with_next_value (v : Z) (s : sink) : sink :=
  {| _buffers := _buffers s; _num_buffers := _num_buffers s;
     _samples_per_buffer := _samples_per_buffer s; _filled := _filled s;
     _buf_index := _buf_index s; _next_to_tx := _next_to_tx s;
     _next_value := v; _samples_left := _samples_left s;
     _running := _running s; mem := mem s |}.

Definition with_samples_left (v : nat) (s : sink) : sink :=
  {| _buffers := _buffers s; _num_buffers := _num_buffers s;
     _samples_per_buffer := _samples_per_buffer s; _filled := _filled s;
     _buf_index := _buf_index s; _next_to_tx := _next_to_tx s;
     _next_value := _next_value s; _samples_left := v;
     _running := _running s; mem := mem s |}.

(** [set_running(v)], see [is_running] below. *)
Definition set_running (v : bool) (s : sink) : sink :=
  {| _buffers := _buffers s; _num_buffers := _num_buffers s;
     _samples_per_buffer := _samples_per_buffer s; _filled := _filled s;
     _buf_index := _buf_index s; _next_to_tx := _next_to_tx s;
     _next_value := _next_value s; _samples_left := _samples_left s;
     _running := v; mem := mem s |}.

Definition with_mem (v : gmap Z Z) (s : sink) : sink :=
  {| _buffers := _buffers s; _num_buffers := _num_buffers s;
     _samples_per_buffer := _samples_per_buffer s; _filled := _filled s;
     _buf_index := _buf_index s; _next_to_tx := _next_to_tx s;
     _next_value := _next_value s; _samples_left := _samples_left s;
     _running := _running s; mem := v |}.

(** Modelled from the spec: [is_running] and [set_running] of the base
    class [bladerf_common], whose source is not under src/.  They read and
    write the running flag, under a lock of their own that no other code
    takes, so each is one step. *)
Definition is_running (s : sink) : bool := _running s.

(** *** The sample converter (lines 345-355) *)

Definition SCALE : Z := 2000.

Definition scale (x : spec_float) : Z :=
  int16_of_float (float_mul x (float_of_int SCALE)).

(** [*_next_value = v; _next_value++;] *)
Definition put (v : Z) (s : sink) : sink :=
  with_next_value (_next_value s + sizeof_int16_t)
    (with_mem (<[_next_value s := v]> (mem s)) s).

Definition copy_sample (x : gr_complex) (s : sink) : sink :=
  let s1 := put (scale (real x)) s in
  let s2 := put (scale (imag x)) s1 in
  with_samples_left (pred (_samples_left s2)) s2.

(** *** [work] (lines 329-382) *)

(** Where the caller's thread is inside [work]. *)
Inductive work_pc :=
| PIdle      (* not inside work *)
| PLoop      (* at the test of the outer loop, line 341 *)
| PInner     (* at the test of the copy loop, line 343 *)
| PCheck     (* at line 359 *)
| PWait      (* inside _buffer_emptied.wait, line 374 *)
| PWoken.    (* notified, about to leave the wait *)

(** The locals of one call. *)
Record work_frame := {
  pc : work_pc;
  input : list gr_complex;      (* what [in] still points to *)
  noutput_items : Z;
  num_samples : Z;
  running : bool;
  returned : option Z            (* the value of the last return *)
}.

Definition idle_frame : work_frame :=
  {| pc := PIdle; input := []; noutput_items := 0; num_samples := 0;
     running := false; returned := None |}.

Definition at_pc (p : work_pc) (f : work_frame) : work_frame :=
  {| pc := p; input := input f; noutput_items := noutput_items f;
     num_samples := num_samples f; running := running f;
     returned := returned f |}.

Definition with_running (r : bool) (f : work_frame) : work_frame :=
  {| pc := pc f; input := input f; noutput_items := noutput_items f;
     num_samples := num_samples f; running := r; returned := returned f |}.

(** Lines 333-338. *)
Definition work_enter (n : Z) (items : list gr_complex) (s : sink) : work_frame :=
  {| pc := PLoop; input := items; noutput_items := n; num_samples := n;
     running := is_running s; returned := None |}.

(** Line 381. *)
Definition work_return (f : work_frame) : work_frame :=
  {| pc := PIdle; input := input f; noutput_items := noutput_items f;
     num_samples := num_samples f; running := running f;
     returned := Some (if running f then noutput_items f else 0%Z) |}.

(** Lines 353-354. *)
Definition next_sample (rest : list gr_complex) (f : work_frame) : work_frame :=
  {| pc := pc f; input := rest; noutput_items := noutput_items f;
     num_samples := (num_samples f - 1)%Z; running := running f;
     returned := returned f |}.

(** Lines 363-366.  An index outside [_filled] or [_buffers] has no
    meaning in the source; the step is then undefined. *)
Definition rotate (s : sink) : option sink :=
  let i := _buf_index s in
  let i' := S i mod _num_buffers s in
  _ ← _filled s !! i;
  p ← _buffers s !! i';
  Some (with_samples_left (_samples_per_buffer s)
         (with_next_value p
           (with_buf_index i'
             (with_filled (<[i := true]> (_filled s)) s)))).

(** The test of the wait loop, line 373, and what follows it. *)
Definition wait_or_go (s : sink) (f : work_frame) : option (work_frame * list event) :=
  full ← _filled s !! _buf_index s;
  if full && running f
  then Some (at_pc PWait f, [EvWait buffer_emptied])
  else Some (at_pc PLoop f, [EvUnlock]).

(** One step of the thread that called [work]; [None] when it cannot move
    (outside [work], or blocked in the wait). *)
Definition work_step (s : sink) (f : work_frame)
  : option (sink * work_frame * list event) :=
  match pc f with
  | PIdle | PWait => None
  | PLoop =>
      if running f && (0 <? num_samples f)%Z
      then Some (s, at_pc PInner f, [])
      else let f' := work_return f in
           Some (s, f', [EvWorkReturn (default 0%Z (returned f'))])
  | PInner =>
      if negb (_samples_left s =? 0)%nat && negb (num_samples f =? 0)%Z
      then match input f with
           | x :: rest =>
               Some (copy_sample x s, next_sample rest f,
                     [EvStore (_next_value s) (scale (real x));
                      EvStore (_next_value s + sizeof_int16_t) (scale (imag x))])
           | [] => None
           end
      else Some (s, at_pc PCheck f, [])
  | PCheck =>
      if (_samples_left s =? 0)%nat
      then s' ← rotate s;
           '(f', evs) ← wait_or_go s' f;
           Some (s', f', [EvLock; EvSetFilled (_buf_index s) true;
                          EvNotifyOne samp_avail] ++ evs)
      else Some (s, at_pc PLoop f, [])
  | PWoken =>
      let f1 := with_running (is_running s) f in
      '(f', evs) ← wait_or_go s f1;
      Some (s, f', EvLock :: evs)
  end.

(** *** [buffer2index] and [get_next_buffer] (lines 272-314) *)

Fixpoint buffer2index_from (buffers : list Z) (current : Z) (i n : nat) : result nat :=
  match n with
  | O => Throw "buffer2index Has hit unexpected condition"
  | S n' =>
      if bool_decide (buffers !! i = Some current) then Ok i
      else buffer2index_from buffers current (S i) n'
  end.

Definition buffer2index (buffers : list Z) (current : Z) (num_buffers : nat) : result nat :=
  buffer2index_from buffers current 0 num_buffers.

Definition NULL : Z := 0.

(** How a call of [get_next_buffer] stands: blocked in the wait of line
    302, or returned. *)
Inductive callback_state :=
| Blocked (s : sink)
| Returned (ret : Z) (s : sink).

(** Lines 293-298. *)
Definition mark_emptied (samples : Z) (s : sink) : result (sink * list event) :=
  if (samples =? NULL)%Z then Ok (s, [])
  else
    idx ← buffer2index (_buffers s) samples (_num_buffers s);
    Ok (with_filled (<[idx := false]> (_filled s)) s,
        [EvSetFilled idx false; EvNotifyOne buffer_emptied]).

(** Lines 301-310: the test of the wait loop and, past it, the choice of
    the return value. *)
Definition next_or_wait (s : sink) : option (callback_state * list event) :=
  let running := is_running s in
  if running then
    full ← _filled s !! _next_to_tx s;
    if negb full then Some (Blocked s, [EvWait samp_avail])
    else
      ret ← _buffers s !! _next_to_tx s;
      Some (Returned ret (with_next_to_tx (S (_next_to_tx s) mod _num_buffers s) s),
            [EvUnlock; EvSubmit ret])
  else Some (Returned NULL s, [EvUnlock; EvSubmit NULL]).

(** The object as a call of [get_next_buffer] leaves it. *)
Definition sink_of (o : callback_state) : sink :=
  match o with Blocked s | Returned _ s => s end.

(** The call up to its first wait or its return.  [None]: an index out of
    the arrays. *)
Definition get_next_buffer (samples : Z) (s : sink)
  : result (option (callback_state * list event)) :=
  '(s1, evs1) ← mark_emptied samples s;
  Ok ('(o, evs2) ← next_or_wait s1; Some (o, EvLock :: evs1 ++ evs2)).

(** The call after a wake-up: the lock is taken again and the loop test
    repeated. *)
Definition get_next_buffer_resume (s : sink) : option (callback_state * list event) :=
  '(o, evs) ← next_or_wait s; Some (o, EvLock :: evs).

(** *** The three threads together

    The caller's thread runs [work]; the thread started by the constructor
    runs [write_task], that is the transfer loop of the device library,
    which calls [get_next_buffer]; the destructor runs on a third.  Code
    between taking [_buf_status_lock] and the next wait or release is one
    step: no other holder of the lock can run in between.  The copy loop of
    [work] and the accesses to the running flag are outside the lock and are
    steps of their own. *)

Inductive callback_pc :=
| CIdle       (* in the transfer loop, outside the callback *)
| CWait       (* inside _samp_avail.wait, line 302 *)
| CWoken      (* notified, about to leave the wait *)
| CStopped    (* bladerf_stream has returned, line 321 *)
| CExited     (* write_task has returned *)
| CThrown.    (* buffer2index has thrown *)

Inductive dtor_pc :=
| DNotStarted
| DFlagCleared   (* after line 238 *)
| DBroadcast     (* after line 244 *)
| DJoined        (* after line 246 *)
| DReleased.     (* after line 258 *)

Record system := {
  obj : sink;
  frame : work_frame;            (* the caller's thread *)
  engine : callback_pc;          (* the streaming thread *)
  in_flight : list Z;            (* buffers the device holds, oldest first *)
  num_transfers : nat;           (* the [transfers] given to bladerf_init_stream *)
  dtor : dtor_pc
}.

Definition with_obj (v : sink) (st : system) : system :=
  {| obj := v; frame := frame st; engine := engine st;
     in_flight := in_flight st; num_transfers := num_transfers st;
     dtor := dtor st |}.

Definition with_frame (v : work_frame) (st : system) : system :=
  {| obj := obj st; frame := v; engine := engine st;
     in_flight := in_flight st; num_transfers := num_transfers st;
     dtor := dtor st |}.

Definition with_engine (v : callback_pc) (st : system) : system :=
  {| obj := obj st; frame := frame st; engine := v;
     in_flight := in_flight st; num_transfers := num_transfers st;
     dtor := dtor st |}.

Definition with_in_flight (v : list Z) (st : system) : system :=
  {| obj := obj st; frame := frame st; engine := engine st;
     in_flight := v; num_transfers := num_transfers st;
     dtor := dtor st |}.

Definition with_dtor (v : dtor_pc) (st : system) : system :=
  {| obj := obj st; frame := frame st; engine := engine st;
     in_flight := in_flight st; num_transfers := num_transfers st;
     dtor := v |}.

(** A notification moves the thread waiting on that condition, if there is
    one, out of its wait. *)
Definition wake (c : cond) (st : system) : system :=
  match c with
  | buffer_emptied =>
      match pc (frame st) with
      | PWait => with_frame (at_pc PWoken (frame st)) st
      | _ => st
      end
  | samp_avail =>
      match engine st with
      | CWait => with_engine CWoken st
      | _ => st
      end
  end.

Fixpoint deliver (evs : list event) (st : system) : system :=
  match evs with
  | [] => st
  | EvNotifyOne c :: rest | EvNotifyAll c :: rest => deliver rest (wake c st)
  | _ :: rest => deliver rest st
  end.

(** The state the constructor leaves (lines 209-228), for the buffers
    [bufs] that bladerf_init_stream allocated. *)
Definition initial (c : Config.stream_config) (bufs : list Z) : option system :=
  p0 ← bufs !! 0;
  Some {| obj := {| _buffers := bufs;
                    _num_buffers := Z.to_nat (Config.num_buffers c);
                    _samples_per_buffer := Z.to_nat (Config.samples_per_buffer c);
                    _filled := replicate (Z.to_nat (Config.num_buffers c)) false;
                    _buf_index := 0;
                    _next_to_tx := 0;
                    _next_value := p0;
                    _samples_left := Z.to_nat (Config.samples_per_buffer c);
                    _running := true;
                    mem := ∅ |};
          frame := idle_frame;
          engine := CIdle;
          in_flight := [];
          num_transfers := Z.to_nat (Config.transfers c);
          dtor := DNotStarted |}.

Inductive action :=
| ACallWork (n : Z) (items : list gr_complex)  (* the scheduler calls work *)
| AWork                 (* the caller's thread takes its next step *)
| ACallbackFirst        (* the device asks for a buffer, returning none *)
| ACallbackNext         (* the device returns its oldest buffer and asks for one *)
| ACallbackResume       (* the callback leaves its wait *)
| AStreamError          (* bladerf_stream returns on a device error *)
| AWriteTaskEnd         (* line 326 *)
| ASpuriousWake (c : cond)
| ADestructor.          (* the destructor takes its next step *)

(** Modelled from the spec: the transfer loop [bladerf_stream] of the device
    library, whose source is not under src/.  It calls the callback with no
    buffer while fewer than [num_transfers] buffers are in flight
    ([ACallbackFirst]) and otherwise with the buffer it has held longest
    ([ACallbackNext]); it keeps what the callback returns, and leaves the
    loop when the callback returns [NULL] or on a device error
    ([AStreamError]). *)
Definition after_callback (o : callback_state) (rest : list Z) (st : system) : system :=
  match o with
  | Blocked s => with_in_flight rest (with_engine CWait (with_obj s st))
  | Returned ret s =>
      if (ret =? NULL)%Z
      then with_in_flight rest (with_engine CStopped (with_obj s st))
      else with_in_flight (rest ++ [ret]) (with_engine CIdle (with_obj s st))
  end.

Definition callback (samples : Z) (rest : list Z) (st : system)
  : option (system * list event) :=
  match get_next_buffer samples (obj st) with
  | Throw _ =>
      Some (with_in_flight rest (with_engine CThrown st), [EvLock; EvUnlock])
  | Ok r => '(o, evs) ← r; Some (deliver evs (after_callback o rest st), evs)
  end.

(** The destructor, lines 238-258, one step per call. *)
Definition destructor_step (st : system) : option (system * list event) :=
  match dtor st with
  | DNotStarted =>
      Some (with_dtor DFlagCleared (with_obj (set_running false (obj st)) st),
            [EvSetRunning false])
  | DFlagCleared =>
      let evs := [EvLock; EvNotifyAll samp_avail; EvNotifyAll buffer_emptied;
                  EvUnlock] in
      Some (deliver evs (with_dtor DBroadcast st), evs)
  | DBroadcast =>
      match engine st with
      | CExited => Some (with_dtor DJoined st, [EvJoin])
      | _ => None
      end
  | DJoined => Some (with_dtor DReleased st, [EvRelease])
  | DReleased => None
  end.

Definition exec (a : action) (st : system) : option (system * list event) :=
  match a with
  | ACallWork n items =>
      match pc (frame st) with
      | PIdle => Some (with_frame (work_enter n items (obj st)) st, [])
      | _ => None
      end
  | AWork =>
      '(s', f', evs) ← work_step (obj st) (frame st);
      Some (deliver evs (with_frame f' (with_obj s' st)), evs)
  | ACallbackFirst =>
      match engine st with
      | CIdle =>
          if (length (in_flight st) <? num_transfers st)%nat
          then callback NULL (in_flight st) st
          else None
      | _ => None
      end
  | ACallbackNext =>
      match engine st, in_flight st with
      | CIdle, samples :: rest => callback samples rest st
      | _, _ => None
      end
  | ACallbackResume =>
      match engine st with
      | CWoken =>
          '(o, evs) ← get_next_buffer_resume (obj st);
          Some (deliver evs (after_callback o (in_flight st) st), evs)
      | _ => None
      end
  | AStreamError =>
      match engine st with
      | CIdle => Some (with_engine CStopped st, [])
      | _ => None
      end
  | AWriteTaskEnd =>
      match engine st with
      | CStopped =>
          Some (with_engine CExited (with_obj (set_running false (obj st)) st),
                [EvSetRunning false])
      | _ => None
      end
  | ASpuriousWake c => Some (wake c st, [])
  | ADestructor => destructor_step st
  end.

(** A schedule run from a state, with the events it produced. *)
Fixpoint run (sched : list action) (st : system) : option (system * list event) :=
  match sched with
  | [] => Some (st, [])
  | a :: rest =>
      '(st1, evs1) ← exec a st;
      '(st2, evs2) ← run rest st1;
      Some (st2, evs1 ++ evs2)
  end.

(** The states some schedule reaches from [st0], with the events so far. *)
Inductive reachable (st0 : system) : system -> list event -> Prop :=
| reach_init : reachable st0 st0 []
| reach_step st tr a st' evs :
    reachable st0 st tr ->
    exec a st = Some (st', evs) ->
    reachable st0 st' (tr ++ evs).





(** The events that only the destructor produces. *)
Definition shutdown_event (e : event) : bool :=
  match e with
  | EvNotifyAll _ | EvJoin | EvRelease => true
  | _ => false
  end.

(** The values assigned to [_filled[i]], in order. *)
Fixpoint assignments (i : nat) (tr : list event) : list bool :=
  match tr with
  | [] => []
  | EvSetFilled j b :: rest =>
      if decide (j = i) then b :: assignments i rest else assignments i rest
  | _ :: rest => assignments i rest
  end.

(** [l] is [b], [negb b], [b], ... *)
Fixpoint alternates (b : bool) (l : list bool) : Prop :=
  match l with
  | [] => True
  | x :: rest => x = b /\ alternates (negb b) rest
  end.

(** The transfer buffers as the device library allocates them: one per
    slot, none at [NULL], of [4 * samples_per_buffer] bytes each, pairwise
    apart. *)
Definition well_allocated (n spb : nat) (bufs : list Z) : Prop :=
  length bufs = n /\
  (forall i p, bufs !! i = Some p -> p <> NULL) /\
  (forall i j p q, bufs !! i = Some p -> bufs !! j = Some q -> i <> j ->
     (p + 4 * Z.of_nat spb <= q \/ q + 4 * Z.of_nat spb <= p)%Z).

(** The slot whose buffer holds the address [a]. *)
Definition in_slot (s : sink) (i : nat) (a : Z) : Prop :=
  exists p, _buffers s !! i = Some p /\
    (p <= a < p + 4 * Z.of_nat (_samples_per_buffer s))%Z.

(** The value of a flag that starts at [b] and is assigned the values
    [l] in turn, provided each assignment changes it. *)
Fixpoint flips (b : bool) (l : list bool) : option bool :=
  match l with
  | [] => Some b
  | x :: rest => if bool_decide (x = negb b) then flips x rest else None
  end.

(** *** The invariant of the pool

    [P] buffers have been filled by [work] since the start, [C] handed to
    the device and [R] given back by it; the [j]-th of them is slot
    [j mod n].  The counters are not in the program: the invariant says
    that such counters exist. *)

Definition buffer_at (bufs : list Z) (n j : nat) : Z :=
  default NULL (bufs !! (j mod n)).

Definition work_inv (n P R : nat) (s : sink) (f : work_frame) : Prop :=
  match pc f with
  | PIdle => _running s = true -> P < R + n
  | PLoop => (running f = true -> P < R + n) /\
             (running f = false -> _running s = false)
  | PInner | PCheck => P < R + n /\ running f = true
  | PWait | PWoken => True
  end.

Record pool_inv (n spb : nat) (bufs : list Z) (P C R : nat) (st : system) : Prop := {
  inv_num : _num_buffers (obj st) = n;
  inv_spb : _samples_per_buffer (obj st) = spb;
  inv_bufs : _buffers (obj st) = bufs;
  inv_n : 1 <= n;
  inv_spb_pos : 1 <= spb;
  inv_alloc : well_allocated n spb bufs;
  inv_len : length (_filled (obj st)) = n;
  inv_transfers : num_transfers st <= n;
  inv_order : R <= C /\ C <= P /\ P <= R + n;
  inv_buf_index : _buf_index (obj st) = P mod n;
  inv_next_to_tx : _next_to_tx (obj st) = C mod n;
  inv_in_flight : in_flight st = map (buffer_at bufs n) (seq R (C - R));
  inv_window : C - R <= num_transfers st;
  inv_window_wait :
    engine st = CWait \/ engine st = CWoken -> C - R < num_transfers st;
  inv_filled :
    forall i b, _filled (obj st) !! i = Some b ->
      (b = true <-> exists j, R <= j < P /\ j mod n = i);
  inv_left : _samples_left (obj st) <= spb;
  inv_cursor :
    _next_value (obj st)
    = (buffer_at bufs n P + 4 * Z.of_nat (spb - _samples_left (obj st)))%Z;
  inv_work : work_inv n P R (obj st) (frame st)
}.

(** What the events of a step did to [_filled]: every assignment changed
    the flag it assigned. *)
Definition filled_follows (evs : list event) (before after : list bool) : Prop :=
  forall i b', after !! i = Some b' ->
    exists b, before !! i = Some b /\ flips b (assignments i evs) = Some b'.

(** The members that [get_next_buffer] does not write. *)
Definition same_pool (s s' : sink) : Prop :=
  _buffers s' = _buffers s /\ _num_buffers s' = _num_buffers s /\
  _samples_per_buffer s' = _samples_per_buffer s /\
  _buf_index s' = _buf_index s /\ _next_value s' = _next_value s /\
  _samples_left s' = _samples_left s /\ _running s' = _running s /\
  mem s' = mem s.

(** How a call of [get_next_buffer] that found the object as [s], apart
    from the flags, leaves the loop test of line 301: in the wait when the
    running flag is up and the slot at [_next_to_tx] is not filled;
    otherwise returned, with the buffer at [_next_to_tx] and the cursor
    one further modulo the pool size when the flag is up, and with [NULL]
    and the cursor where it was when the flag is down. *)
Definition leaves_loop (s : sink) (o : callback_state) (evs : list event) : Prop :=
  same_pool s (sink_of o) /\
  match o with
  | Blocked s' =>
      _running s = true /\
      _filled s' !! _next_to_tx s = Some false /\
      _next_to_tx s' = _next_to_tx s /\
      evs = [EvWait samp_avail]
  | Returned ret s' =>
      evs = [EvUnlock; EvSubmit ret] /\
      (_running s = true ->
         _filled s' !! _next_to_tx s = Some true /\
         _buffers s !! _next_to_tx s = Some ret /\
         _next_to_tx s' = S (_next_to_tx s) mod _num_buffers s) /\
      (_running s = false -> ret = NULL /\ _next_to_tx s' = _next_to_tx s)
  end.

(** The input samples a call of [work] has taken so far. *)
Definition consumed (f : work_frame) : Z := (noutput_items f - num_samples f)%Z.

(** *** Examples: two buffers of 1024 samples *)

Definition two_buffers_at : list Z := [65536; 131072]%Z.

Definition block (k : nat) : list gr_complex :=
  repeat {| real := tenth; imag := minus_two_tenths |} k.

(** An object for examples: both buffers are filled, the first is with the
    device and the second is the next to go. *)
Definition draining_sink : sink :=
  {| _buffers := two_buffers_at; _num_buffers := 2; _samples_per_buffer := 1024;
     _filled := [true; true]; _buf_index := 0; _next_to_tx := 1;
     _next_value := 65536; _samples_left := 1024; _running := true; mem := ∅ |}.



(** [work] fills the first buffer; the device takes it, gives it back and
    waits for the second; [work] fills the second; the device takes it;
    [work] starts on the first buffer again. *)
Definition fill_and_drain : list action :=
  ACallWork 1024 (block 1024) :: repeat AWork 1028
    ++ [ACallbackFirst; ACallbackNext; ACallWork 1024 (block 1024)]
    ++ repeat AWork 1028
    ++ [ACallbackResume; ACallWork 1 (block 1); AWork; AWork].


(** A list of events that holds none of the destructor's own. *)
Definition quiet (evs : list event) : Prop :=
  forall e, In e evs -> shutdown_event e = false.




(** Where a schedule leads from the state the constructor leaves. *)
Definition outcome (sched : list action) (c : Config.stream_config) (bufs : list Z)
  : option (system * list event) :=
  st0 ← initial c bufs; run sched st0.

End Pipeline.

(** ** Tuning and gain (lines 443-596) *)

Module Tuner.
Import Width Float.
Local Open Scope Z_scope.

(** The calls into the device library, as it sees them. *)
Inductive call :=
| Call_set_frequency (freq : Z)
| Call_get_frequency
| Call_set_txvga1 (gain : Z)
| Call_set_txvga2 (gain : Z)
| Call_get_txvga1
| Call_get_txvga2.

(** The device library, which is not part of this repository: a setter
    gives its status and the device after it, a getter its status and the
    value read; a status other than 0 is a failure. *)
Class BladeRF (dev : Type) := {
  bladerf_set_frequency : dev -> Z -> Z * dev;
  bladerf_get_frequency : dev -> Z * Z;
  bladerf_set_txvga1 : dev -> Z -> Z * dev;
  bladerf_set_txvga2 : dev -> Z -> Z * dev;
  bladerf_get_txvga1 : dev -> Z * Z;
  bladerf_get_txvga2 : dev -> Z * Z
}.

Record range_t := { start : spec_float; stop : spec_float }.

Record gain_range_t := { gain_start : Z; gain_stop : Z; gain_step : Z }.

(** Lines 157 and 160. *)
Definition _vga1_range : gain_range_t :=
  {| gain_start := -35; gain_stop := -4; gain_step := 1 |}.
Definition _vga2_range : gain_range_t :=
  {| gain_start := 0; gain_stop := 25; gain_step := 1 |}.

Section Calls.

Context {dev : Type} `{BladeRF dev}.

(** What a call can touch: the device behind [_dev], the library calls
    made so far, and what was written to [std::cerr]. *)
Record world := {
  device : dev;
  calls : list call;
  cerr : list string
}.

(** A member function: from the world before to its outcome and the world
    after; a thrown exception keeps the world it was thrown in. *)
Definition tuner (A : Type) : Type := world -> result A * world.

Definition pure {A} (a : A) : tuner A := fun w => (Ok a, w).

Definition throw {A} (what : string) : tuner A := fun w => (Throw what, w).

Definition and_then {A B} (m : tuner A) (k : A -> tuner B) : tuner B :=
  fun w =>
    match m w with
    | (Ok a, w') => k a w'
    | (Throw what, w') => (Throw what, w')
    end.

Definition log (line : string) : tuner unit :=
  fun w => (Ok tt, {| device := device w; calls := calls w;
                      cerr := cerr w ++ [line] |}).

(** A setter of the library: the call is recorded, the device replaced. *)
Definition device_set (c : call) (f : dev -> Z * dev) : tuner Z :=
  fun w =>
    let '(status, d) := f (device w) in
    (Ok status, {| device := d; calls := calls w ++ [c]; cerr := cerr w |}).

(** A getter of the library. *)
Definition device_get (c : call) (f : dev -> Z * Z) : tuner (Z * Z) :=
  fun w =>
    (Ok (f (device w)),
     {| device := device w; calls := calls w ++ [c]; cerr := cerr w |}).

Notation "x <- m ;; k" := (and_then m (fun x => k))
  (at level 100, m at next level, right associativity).

(** [freq_range()] of the base class, which is not in this repository. *)
Variable freq_range : range_t.

Definition get_freq_range (chan : nat) : range_t := freq_range.

(** Lines 470-483. *)
Definition get_center_freq (chan : nat) : tuner spec_float :=
  r <- device_get Call_get_frequency bladerf_get_frequency ;;
  if negb (fst r =? 0)
  then throw "get_center_freq failed to get center frequency"
  else pure (double_of_int (snd r)).

(** Lines 448-468. *)
Definition set_center_freq (freq : spec_float) (chan : nat) : tuner spec_float :=
  _ <- (if double_ltb freq (start (get_freq_range chan))
           || double_ltb (stop (get_freq_range chan)) freq
        then log "Failed to set out of bound frequency"
        else
          ret <- device_set (Call_set_frequency (uint32_of_float freq))
                   (fun d => bladerf_set_frequency d (uint32_of_float freq)) ;;
          if negb (ret =? 0)
          then throw "set_center_freq failed to set center frequency"
          else pure tt) ;;
  get_center_freq chan.

(** Lines 513-527. *)
Definition get_gain_range (name : string) (chan : nat) : tuner gain_range_t :=
  if (name =? "VGA1")%string then pure _vga1_range
  else if (name =? "VGA2")%string then pure _vga2_range
  else throw ("get_gain_range requested an invalid gain element " ++ name).

(** Lines 573-596. *)
Definition get_gain (name : string) (chan : nat) : tuner spec_float :=
  r <- (if (name =? "VGA1")%string
        then device_get Call_get_txvga1 bladerf_get_txvga1
        else if (name =? "VGA2")%string
        then device_get Call_get_txvga2 bladerf_get_txvga2
        else throw ("get_gain requested to get the gain of an unknown gain element "
                    ++ name)) ;;
  if negb (fst r =? 0)
  then throw ("get_gain could not get " ++ name ++ " gain")
  else pure (double_of_int (snd r)).

(** Lines 544-566. *)
Definition set_gain (gain : spec_float) (name : string) (chan : nat) : tuner spec_float :=
  ret <- (if (name =? "VGA1")%string
          then device_set (Call_set_txvga1 (int_of_float gain))
                 (fun d => bladerf_set_txvga1 d (int_of_float gain))
          else if (name =? "VGA2")%string
          then device_set (Call_set_txvga2 (int_of_float gain))
                 (fun d => bladerf_set_txvga2 d (int_of_float gain))
          else throw ("set_gain requested to set the gain of an unknown gain element "
                      ++ name)) ;;
  if negb (ret =? 0)
  then throw ("set_gain could not set " ++ name ++ " gain")
  else get_gain name chan.

(** Whether running [m] in [w] makes a call to the device library. *)
Definition reaches_device {A} (m : tuner A) (w : world) : Prop :=
  calls (snd (m w)) <> calls w.

Definition throws {A} (m : tuner A) (w : world) : Prop :=
  exists what, fst (m w) = Throw what.

End Calls.

Arguments world dev : clear implicits.

(** A device for examples: its frequency and gain registers, and the
    status its calls give. *)
Record bench := {
  reg_frequency : Z;
  reg_txvga1 : Z;
  reg_txvga2 : Z;
  status : Z
}.

#[export] Instance bench_device : BladeRF bench := {
  bladerf_set_frequency d f :=
    (status d, {| reg_frequency := f; reg_txvga1 := reg_txvga1 d;
                  reg_txvga2 := reg_txvga2 d; status := status d |});
  bladerf_get_frequency d := (status d, reg_frequency d);
  bladerf_set_txvga1 d g :=
    (status d, {| reg_frequency := reg_frequency d; reg_txvga1 := g;
                  reg_txvga2 := reg_txvga2 d; status := status d |});
  bladerf_set_txvga2 d g :=
    (status d, {| reg_frequency := reg_frequency d; reg_txvga1 := reg_txvga1 d;
                  reg_txvga2 := g; status := status d |});
  bladerf_get_txvga1 d := (status d, reg_txvga1 d);
  bladerf_get_txvga2 d := (status d, reg_txvga2 d)
}.

Definition bench_world (d : bench) : world bench :=
  {| device := d; calls := []; cerr := [] |}.

(** 300 MHz to 3.8 GHz. *)
Definition bench_range : range_t :=
  {| start := double_of_int 300000000; stop := double_of_int 3800000000 |}.

End Tuner.

(** ** The other gain calls (lines 497-607) *)

Module Gain.
Import Width Float Tuner.
Local Open Scope Z_scope.

Section Calls.

Context {dev : Type} `{BladeRF dev}.

Abbreviation tuner := (@Tuner.tuner dev).

Notation "x <- m ;; k" := (and_then m (fun x => k))
  (at level 100, m at next level, right associativity).

(** Lines 497-504. *)
Definition get_gain_names (chan : nat) : list string := ["VGA1"; "VGA2"]%string.

(** The overloads that take no name, lines 506-511, 539-542 and 568-571. *)
Definition get_gain_range_chan (chan : nat) : tuner gain_range_t :=
  get_gain_range "VGA2" chan.

Definition set_gain_chan (gain : spec_float) (chan : nat) : tuner spec_float :=
  set_gain gain "VGA2" chan.

Definition get_gain_chan (chan : nat) : tuner spec_float :=
  get_gain "VGA2" chan.

(** [gain_range_t::clip] is not part of the source at hand: it is a
    parameter. *)
Variable clip : gain_range_t -> spec_float -> bool -> spec_float.

(** Lines 598-607. *)
Definition set_bb_gain (gain : spec_float) (chan : nat) : tuner spec_float :=
  bb_gains <- get_gain_range "VGA1" chan ;;
  let clip_gain := clip bb_gains gain true in
  set_gain clip_gain "VGA1" chan.

End Calls.

End Gain.

(** ** Sample rate and bandwidth (lines 400-441 and 629-657) *)

Module Rates.
Import Width Float.
Local Open Scope Z_scope.

Inductive call :=
| Call_set_sample_rate (rate : Z)
| Call_get_sample_rate
| Call_set_bandwidth (bandwidth : Z)
| Call_get_bandwidth.

(** The device library: a setter gives its status, the value it reports
    through [actual] and the device after it; a getter its status and the
    value read. *)
Class BladeRF (dev : Type) := {
  bladerf_set_sample_rate : dev -> Z -> Z * Z * dev;
  bladerf_get_sample_rate : dev -> Z * Z;
  bladerf_set_bandwidth : dev -> Z -> Z * Z * dev;
  bladerf_get_bandwidth : dev -> Z * Z
}.

(** [round] of the C library on a finite value: to the nearest integer,
    halves away from zero. *)
Definition round_away (x : spec_float) : option Z :=
  match x with
  | S754_zero _ => Some 0
  | S754_finite sign m e =>
      let a := match e with
               | Z0 => Zpos m
               | Zpos k => Zpos m * 2 ^ Zpos k
               | Zneg k =>
                   let d := 2 ^ Zpos k in
                   Zpos m / d + (if d <=? 2 * (Zpos m mod d) then 1 else 0)
               end in
      Some (if sign then - a else a)
  | S754_infinity _ | S754_nan => None
  end.

(** [(uint32_t)round(x)]. *)
Definition uint32_of_round (x : spec_float) : Z := to_uint (default 0 (round_away x)).

Section Calls.

Context {dev : Type} `{BladeRF dev}.

Record world := {
  device : dev;
  calls : list call
}.

Definition rates (A : Type) : Type := world -> result A * world.

Definition pure {A} (a : A) : rates A := fun w => (Ok a, w).

Definition throw {A} (what : string) : rates A := fun w => (Throw what, w).

Definition and_then {A B} (m : rates A) (k : A -> rates B) : rates B :=
  fun w =>
    match m w with
    | (Ok a, w') => k a w'
    | (Throw what, w') => (Throw what, w')
    end.

Definition device_set (c : call) (f : dev -> Z * Z * dev) : rates (Z * Z) :=
  fun w =>
    let '(status, actual, d) := f (device w) in
    (Ok (status, actual), {| device := d; calls := calls w ++ [c] |}).

Definition device_get (c : call) (f : dev -> Z * Z) : rates (Z * Z) :=
  fun w => (Ok (f (device w)), {| device := device w; calls := calls w ++ [c] |}).

Notation "x <- m ;; k" := (and_then m (fun x => k))
  (at level 100, m at next level, right associativity).

(** Lines 428-441. *)
Definition get_sample_rate : rates spec_float :=
  r <- device_get Call_get_sample_rate bladerf_get_sample_rate ;;
  if negb (fst r =? 0)
  then throw ("get_sample_rate has failed to get sample rate, error " ++ pretty (fst r))
  else pure (double_of_int (snd r)).

(** Lines 400-426. *)
Definition set_sample_rate (rate : spec_float) : rates spec_float :=
  _ <- (if uint32_of_round rate =? uint32_of_float rate
        then
          r <- device_set (Call_set_sample_rate (uint32_of_float rate))
                 (fun d => bladerf_set_sample_rate d (uint32_of_float rate)) ;;
          if negb (fst r =? 0)
          then throw ("set_sample_rate has failed to set integer rate, error "
                      ++ pretty (fst r))
          else pure tt
        else
          r <- device_set (Call_set_sample_rate (uint32_of_float rate))
                 (fun d => bladerf_set_sample_rate d (uint32_of_float rate)) ;;
          if negb (fst r =? 0)
          then throw ("set_sample_rate has failed to set fractional rate, error "
                      ++ pretty (fst r))
          else pure tt) ;;
  get_sample_rate.

(** Lines 644-657. *)
Definition get_bandwidth (chan : nat) : rates spec_float :=
  r <- device_get Call_get_bandwidth bladerf_get_bandwidth ;;
  if negb (fst r =? 0)
  then throw ("get_bandwidth could not get bandwidth, error " ++ pretty (fst r))
  else pure (double_of_int (snd r)).

(** Lines 629-642. *)
Definition set_bandwidth (bandwidth : spec_float) (chan : nat) : rates spec_float :=
  r <- device_set (Call_set_bandwidth (uint32_of_float bandwidth))
         (fun d => bladerf_set_bandwidth d (uint32_of_float bandwidth)) ;;
  if negb (fst r =? 0)
  then throw ("set_bandwidth could not set bandwidth, error " ++ pretty (fst r))
  else get_bandwidth 0.

End Calls.

Arguments world dev : clear implicits.

End Rates.

(** ** The constructor as a whole (lines 73-229) *)

Module Setup.
Import Width Config.
Local Open Scope Z_scope.

Inductive call :=
| Call_open (device_name : string)
| Call_flash_firmware (file : string)
| Call_load_fpga (file : string)
| Call_get_serial
| Call_get_fw_version
| Call_get_fpga_version
| Call_is_fpga_configured
| Call_init_stream (num_buffers samples_per_buffer transfers : Z)
| Call_enable_module (enable : bool).

(** What the device library answers: a status for each call (0 is
    success), with the value it gives back where it gives one;
    [bladerf_init_stream] gives the buffers it allocated. *)
Record library := {
  bladerf_open : string -> Z;
  bladerf_flash_firmware : string -> Z;
  bladerf_load_fpga : string -> Z;
  bladerf_get_serial : Z * string;
  bladerf_get_fw_version : Z * (Z * Z);
  bladerf_get_fpga_version : Z * (Z * Z);
  bladerf_is_fpga_configured : Z;
  bladerf_init_stream : Z -> Z -> Z -> Z * list Z;
  bladerf_enable_module : bool -> Z
}.

(** The library calls made so far and the lines written to [std::cerr]. *)
Record world := {
  calls : list call;
  cerr : list string
}.

Definition setup (A : Type) : Type := world -> result A * world.

Definition pure {A} (a : A) : setup A := fun w => (Ok a, w).

Definition throw {A} (what : string) : setup A := fun w => (Throw what, w).

Definition and_then {A B} (m : setup A) (k : A -> setup B) : setup B :=
  fun w =>
    match m w with
    | (Ok a, w') => k a w'
    | (Throw what, w') => (Throw what, w')
    end.

Definition log (line : string) : setup unit :=
  fun w => (Ok tt, {| calls := calls w; cerr := cerr w ++ [line] |}).

Definition library_call {A} (c : call) (answer : A) : setup A :=
  fun w => (Ok answer, {| calls := calls w ++ [c]; cerr := cerr w |}).

(** An exception thrown by code that makes no call and writes nothing. *)
Definition lift {A} (r : result A) : setup A := fun w => (r, w).

Definition empty_world : world := {| calls := []; cerr := [] |}.

(** What [new bool[n]] does: it gives the array, or throws
    [std::bad_alloc], or, built not to throw, gives a null pointer. *)
Inductive allocation := Allocated | Bad_alloc | Null_pointer.

Section Constructor.

(** [boost::lexical_cast<unsigned int>] and [boost::lexical_cast<size_t>];
    [None] stands for [bad_lexical_cast]. *)
Variable lexical_cast_uint : string -> option Z.
Variable lexical_cast : string -> option Z.
Variable lib : library.

(** The allocator behind [new bool[n]]. *)
Variable new_bool : Z -> allocation.

Notation "x <- m ;; k" := (and_then m (fun x => k))
  (at level 100, m at next level, right associativity).

(** Lines 79-96. *)
Definition device_number (dict : dict_t) : setup Z :=
  match dict !! "bladerf" with
  | Some value =>
      if (String.length value =? 0)%nat then pure 0
      else match lexical_cast_uint value with
           | Some n => pure (to_uint n)
           | None =>
               throw ("Failed to use '" ++ value
                      ++ "' as device number: bad lexical cast: source type value could not be interpreted as target")
           end
  | None => pure 0
  end.

(** Line 98. *)
Definition device_name (n : Z) : string := "libusb:instance=" ++ pretty n.

(** Lines 107-118. *)
Definition flash_firmware (dict : dict_t) : setup unit :=
  match dict !! "fw" with
  | Some fw =>
      _ <- log ("Flashing firmware image " ++ fw ++ "..., DO NOT INTERRUPT!") ;;
      ret <- library_call (Call_flash_firmware fw) (bladerf_flash_firmware lib fw) ;;
      if negb (ret =? 0)
      then log ("bladerf_flash_firmware has failed with " ++ pretty ret)
      else log "The firmware has been successfully flashed."
  | None => pure tt
  end.

(** Lines 120-130. *)
Definition load_fpga (dict : dict_t) : setup unit :=
  match dict !! "fpga" with
  | Some fpga =>
      _ <- log ("Loading FPGA bitstream " ++ fpga ++ "...") ;;
      ret <- library_call (Call_load_fpga fpga) (bladerf_load_fpga lib fpga) ;;
      if negb (ret =? 0) && negb (ret =? 1)
      then log ("bladerf_load_fpga has failed with " ++ pretty ret)
      else log "The FPGA bitstream has been successfully loaded."
  | None => pure tt
  end.

(** Lines 132-145. *)
Definition report_device (n : Z) : setup unit :=
  serial <- library_call Call_get_serial (bladerf_get_serial lib) ;;
  fw <- library_call Call_get_fw_version (bladerf_get_fw_version lib) ;;
  fpga <- library_call Call_get_fpga_version (bladerf_get_fpga_version lib) ;;
  log ("Using nuand LLC bladeRF #" ++ pretty n
       ++ (if fst serial =? 0 then " SN " ++ snd serial else "")
       ++ (if fst fw =? 0
           then " FW v" ++ pretty (fst (snd fw)) ++ "." ++ pretty (snd (snd fw))
           else "")
       ++ (if fst fpga =? 0
           then " FPGA v" ++ pretty (fst (snd fpga)) ++ "." ++ pretty (snd (snd fpga))
           else "")).

(** Lines 213-217: [_filled = new bool[_num_buffers]] and the test of
    what it gave. *)
Definition allocate_filled (c : stream_config) : setup unit :=
  match new_bool (num_buffers c) with
  | Allocated => pure tt
  | Bad_alloc => throw "std::bad_alloc"
  | Null_pointer => throw "bladerf_sink_c: Failed to allocate _filled[]"
  end.

(** Lines 201-228: the stream, the buffer management, the module and the
    thread.  The outcome is the state the streaming code starts from;
    [None] when [_buffers[0]] does not exist. *)
Definition start_stream (c : stream_config) : setup (option Pipeline.system) :=
  r <- library_call
         (Call_init_stream (num_buffers c) (samples_per_buffer c) (transfers c))
         (bladerf_init_stream lib (num_buffers c) (samples_per_buffer c)
            (transfers c)) ;;
  _ <- (if negb (fst r =? 0)
        then log ("bladerf_init_stream has failed with " ++ pretty (fst r))
        else pure tt) ;;
  _ <- allocate_filled c ;;
  let st := Pipeline.initial c (snd r) in
  ret <- library_call (Call_enable_module true) (bladerf_enable_module lib true) ;;
  _ <- (if negb (ret =? 0)
        then log ("bladerf_enable_module has failed with " ++ pretty ret)
        else pure tt) ;;
  pure st.

(** The constructor, lines 73-229, from the dictionary that
    [params_to_dict] gives. *)
Definition bladerf_sink_c (dict : dict_t) : setup (option Pipeline.system) :=
  n <- device_number dict ;;
  ret <- library_call (Call_open (device_name n)) (bladerf_open lib (device_name n)) ;;
  if negb (ret =? 0)
  then throw ("bladerf_sink_c failed to open bladeRF device " ++ device_name n)
  else
    _ <- flash_firmware dict ;;
    _ <- load_fpga dict ;;
    _ <- report_device n ;;
    configured <- library_call Call_is_fpga_configured
                    (bladerf_is_fpga_configured lib) ;;
    if negb (configured =? 1)
    then throw "The FPGA is not configured! Provide device argument fpga=/path/to/the/bitstream.rbf to load it."
    else
      c <- lift (configure lexical_cast dict) ;;
      start_stream c.

(** The library calls that an accepted dictionary leads to, in order. *)
Definition expected_calls (dict : dict_t) (n : Z) (c : stream_config) : list call :=
  [Call_open (device_name n)]
  ++ match dict !! "fw" with Some fw => [Call_flash_firmware fw] | None => [] end
  ++ match dict !! "fpga" with Some fpga => [Call_load_fpga fpga] | None => [] end
  ++ [Call_get_serial; Call_get_fw_version; Call_get_fpga_version;
      Call_is_fpga_configured;
      Call_init_stream (num_buffers c) (samples_per_buffer c) (transfers c);
      Call_enable_module true].

End Constructor.


(** A device string with [bladerf=1,fw=fx3.img,buffers=2,buflen=4096]. *)
Definition args_flash : dict_t :=
  <["bladerf" := "1"]> (<["fw" := "fx3.img"]>
    (<["buffers" := "2"]> (<["buflen" := "4096"]> ∅))).



(** Allocators for examples: one that always gives the array and one that
    always throws. *)
Definition plenty : Z -> allocation := fun _ => Allocated.

(** A library for examples whose device opens and is configured and whose
    every other call fails with -5. *)
Definition flaky_library : library :=
  {| bladerf_open := fun _ => 0;
     bladerf_flash_firmware := fun _ => -5;
     bladerf_load_fpga := fun _ => -5;
     bladerf_get_serial := (-5, ""%string);
     bladerf_get_fw_version := (-5, (0, 0));
     bladerf_get_fpga_version := (-5, (0, 0));
     bladerf_is_fpga_configured := 1;
     bladerf_init_stream := fun _ _ _ => (-5, Pipeline.two_buffers_at);
     bladerf_enable_module := fun _ => -5 |}.

End Setup.

(** ** Runs of [work] and orders of events *)

Module Streaming.
Import Width Float Pipeline.

(** [k] steps of the thread inside [work], nothing else running. *)
Fixpoint work_steps (k : nat) (s : sink) (f : work_frame) : option (sink * work_frame) :=
  match k with
  | O => Some (s, f)
  | S k' =>
      match work_step s f with
      | Some (s', f', _) => work_steps k' s' f'
      | None => None
      end
  end.

(** The buffers that [get_next_buffer] returned, in order, and the slots
    that [work] marked filled, in order. *)
Fixpoint submitted (tr : list event) : list Z :=
  match tr with
  | [] => []
  | EvSubmit p :: rest =>
      if (p =? NULL)%Z then submitted rest else p :: submitted rest
  | _ :: rest => submitted rest
  end.

Fixpoint filled_order (tr : list event) : list nat :=
  match tr with
  | [] => []
  | EvSetFilled i true :: rest => i :: filled_order rest
  | _ :: rest => filled_order rest
  end.

(** The streaming thread is past [bladerf_stream]: no callback will come. *)
Definition stream_ended (st : system) : Prop :=
  engine st = CStopped \/ engine st = CExited \/ engine st = CThrown.

(** A call of [work] whose count is not negative has taken between none
    and all of it. *)
Definition frame_ok (f : work_frame) : Prop :=
  (noutput_items f < 0)%Z \/ (0 <= num_samples f <= noutput_items f)%Z.

(** [work] is inside its copy loop when the stream ends on a device error;
    it goes on, fills both buffers and waits. *)
Definition error_then_block : list action :=
  [ACallWork 3000 (block 3000); AWork; AStreamError; AWriteTaskEnd]
  ++ repeat AWork 2053.

(** What one step does to the two cursors of the pool and to the flag. *)
Definition moves (s s' : sink) (evs : list event) : Prop :=
  _buffers s' = _buffers s /\ _num_buffers s' = _num_buffers s /\
  ((filled_order evs = [] /\ _buf_index s' = _buf_index s) \/
   (filled_order evs = [_buf_index s] /\
    _buf_index s' = S (_buf_index s) mod _num_buffers s)) /\
  (((forall p, In (EvSubmit p) evs -> p = NULL) /\ _next_to_tx s' = _next_to_tx s) \/
   (exists p, _running s = true /\ _buffers s !! _next_to_tx s = Some p /\
              submitted evs = (if (p =? NULL)%Z then [] else [p]) /\
              _next_to_tx s' = S (_next_to_tx s) mod _num_buffers s)) /\
  (_running s = false -> _running s' = false).

(** An object for examples: two buffers of 1024 samples, nothing filled. *)
Definition bench_sink : sink :=
  {| _buffers := two_buffers_at; _num_buffers := 2; _samples_per_buffer := 1024;
     _filled := [false; false]; _buf_index := 0; _next_to_tx := 0;
     _next_value := 65536; _samples_left := 1024; _running := true; mem := ∅ |}.

(** [work] is given one sample and copies it; its next step returns. *)
Definition one_sample : list action := ACallWork 1 (block 1) :: repeat AWork 4.

End Streaming.

(* ================================================================== *)
(** * Properties *)
(* ================================================================== *)

Section ConfigFacts.
Import Width Config.
Local Open Scope Z_scope.

Variable lexical_cast : string -> option Z.

Lemma to_size_t_range z : 0 <= to_size_t z < 2 ^ 64.
Proof. unfold to_size_t. apply Z.mod_pos_bound. lia. Qed.

Lemma to_uint_range z : 0 <= to_uint z < 2 ^ 32.
Proof. unfold to_uint. apply Z.mod_pos_bound. lia. Qed.

Lemma to_uint_le z : 0 <= z -> to_uint z <= z.
Proof. intros H. unfold to_uint. apply Z.mod_le; lia. Qed.

Lemma read_key_range key init dict v :
  0 <= init < 2 ^ 64 ->
  read_key lexical_cast key init dict = Ok v -> 0 <= v < 2 ^ 64.
Proof.
  intros Hi. unfold read_key.
  destruct (dict !! key) as [value|]; [destruct (lexical_cast value)|];
    intros [= <-]; auto using to_size_t_range.
Qed.

(** What [configure] returns, in terms of the three values read. *)
Lemma configure_inv dict c :
  configure lexical_cast dict = Ok c ->
  exists nb len t,
    read_key lexical_cast "buffers" 0 dict = Ok nb /\
    read_key lexical_cast "buflen" 0 dict = Ok len /\
    read_key lexical_cast "transfers" 0 dict = Ok t /\
    c = {| num_buffers := choose_num_buffers nb;
           samples_per_buffer := choose_samples_per_buffer len;
           transfers := choose_transfers (to_uint t) (choose_num_buffers nb) |}.
Proof.
  unfold configure. intros H.
  destruct (read_key lexical_cast "buffers" 0 dict) as [nb|] eqn:E1; [|discriminate].
  destruct (read_key lexical_cast "buflen" 0 dict) as [len|] eqn:E2; [|discriminate].
  destruct (read_key lexical_cast "transfers" 0 dict) as [t|] eqn:E3; [|discriminate].
  cbn in H. injection H as <-. eauto 10.
Qed.

Lemma choose_num_buffers_ge n : 2 <= choose_num_buffers n.
Proof.
  unfold choose_num_buffers, NUM_BUFFERS. destruct (Z.leb_spec n 1); lia.
Qed.

Lemma choose_transfers_le t n : 0 <= n -> choose_transfers t n <= n / 2.
Proof.
  intros Hn. unfold choose_transfers.
  destruct (Z.eqb_spec t 0); cbn.
  - apply to_uint_le. apply Z.div_pos; lia.
  - destruct (Z.gtb_spec t (n / 2)).
    + apply to_uint_le. apply Z.div_pos; lia.
    + lia.
Qed.

End ConfigFacts.

Section ConfigClaims.
Import Width Config.
Local Open Scope Z_scope.

(** C2, as stated, fails: with [buffers=32] a transfers value of
    4294967297 is greater than [buffer_count / 2 = 16], yet the transfer
    count after configuration is 1, not 16: the value read is narrowed to
    the 32 bits of [unsigned int] before the comparison. *)
Lemma transfers_not_always_replaced :
  exists c,
    configure decimal args_wide_transfers = Ok c /\
    read_key decimal "transfers" 0 args_wide_transfers = Ok 4294967297 /\
    4294967297 > num_buffers c / 2 /\
    transfers c = 1 /\
    transfers c <> num_buffers c / 2.
Proof.
  eexists. split; [vm_compute; reflexivity|].
  repeat split; vm_compute; congruence.
Qed.

(** C2, amended: for every device string that the constructor accepts, the
    transfer count is at most [buffer_count / 2]; and a transfers value
    that fits [unsigned int] and is unset (0) or greater than
    [buffer_count / 2] is replaced by [buffer_count / 2], for a buffer
    count below 2^33. *)
Theorem transfers_clamped :
  forall (lexical_cast : string -> option Z) (dict : dict_t) (c : stream_config),
    configure lexical_cast dict = Ok c ->
    transfers c <= num_buffers c / 2 /\
    (forall t,
        read_key lexical_cast "transfers" 0 dict = Ok t ->
        t < 2 ^ 32 -> num_buffers c < 2 ^ 33 ->
        t = 0 \/ t > num_buffers c / 2 ->
        transfers c = num_buffers c / 2).
Proof.
  intros lc dict c Hc.
  destruct (configure_inv lc dict c Hc) as (nb & len & t & Hnb & Hlen & Ht & ->).
  cbn [transfers num_buffers].
  pose proof (choose_num_buffers_ge nb) as Hge.
  split.
  - apply choose_transfers_le. lia.
  - intros t' Ht' Hsmall Hn Hcase.
    rewrite Ht in Ht'. injection Ht' as <-.
    assert (0 <= t < 2 ^ 64) as Hr
      by (apply (read_key_range lc "transfers" 0 dict t); [lia|exact Ht]).
    assert (to_uint t = t) as -> by (unfold to_uint; apply Z.mod_small; lia).
    assert (0 <= choose_num_buffers nb / 2 < 2 ^ 32) as Hhalf.
    { split; [apply Z.div_pos; lia|]. apply Z.div_lt_upper_bound; lia. }
    unfold choose_transfers.
    assert ((t =? 0) || (t >? choose_num_buffers nb / 2) = true) as ->.
    { destruct Hcase as [-> | Hgt]; [reflexivity|].
      apply orb_true_iff. right. apply Z.gtb_lt. lia. }
    unfold to_uint. apply Z.mod_small. lia.
Qed.

Lemma transfers_clamped_witness :
  configure decimal args_small
  = Ok {| num_buffers := 8; samples_per_buffer := 2048; transfers := 4 |} /\
  4 <= 8 / 2 /\ 4 = 8 / 2.
Proof.
  assert (configure decimal args_small
          = Ok {| num_buffers := 8; samples_per_buffer := 2048; transfers := 4 |})
    as Hc by (vm_compute; reflexivity).
  split; [exact Hc|].
  destruct (transfers_clamped decimal args_small _ Hc) as [Hle Hrep].
  split; [exact Hle|].
  apply (Hrep 7); [vm_compute; reflexivity | reflexivity | reflexivity | right; reflexivity].
Defined.

(** C5, as stated, fails: [buffers=3] is accepted as it is, and 3 is odd. *)
Lemma num_buffers_may_be_odd :
  exists c,
    configure decimal args_three_buffers = Ok c /\
    num_buffers c = 3 /\ Z.even (num_buffers c) = false.
Proof. eexists. split; [vm_compute; reflexivity|]. split; reflexivity. Qed.

(** C5, amended: the pool size in effect after construction is at least 2;
    a value of the buffers key that is unset or at most 1 is replaced by
    the default 32, and a value of 2 or more is kept as it is, even or
    odd. *)
Theorem num_buffers_at_least_two :
  forall (lexical_cast : string -> option Z) (dict : dict_t) (c : stream_config)
         (nb : Z),
    configure lexical_cast dict = Ok c ->
    read_key lexical_cast "buffers" 0 dict = Ok nb ->
    2 <= num_buffers c /\
    (nb <= 1 -> num_buffers c = 32) /\
    (2 <= nb -> num_buffers c = nb).
Proof.
  intros lc dict c nb Hc Hnb.
  destruct (configure_inv lc dict c Hc) as (nb' & len & t & Hnb' & _ & _ & ->).
  rewrite Hnb in Hnb'. injection Hnb' as <-.
  cbn [num_buffers]. split; [apply choose_num_buffers_ge|].
  unfold choose_num_buffers, NUM_BUFFERS.
  destruct (Z.leb_spec nb 1); lia.
Qed.

Lemma num_buffers_at_least_two_witness :
  configure decimal args_three_buffers
  = Ok {| num_buffers := 3; samples_per_buffer := 4096; transfers := 1 |} /\
  2 <= 3 /\ 3 = 3.
Proof.
  assert (configure decimal args_three_buffers
          = Ok {| num_buffers := 3; samples_per_buffer := 4096; transfers := 1 |})
    as Hc by (vm_compute; reflexivity).
  split; [exact Hc|].
  destruct (num_buffers_at_least_two decimal args_three_buffers _ 3 Hc)
    as (Hge & _ & Hkeep); [vm_compute; reflexivity|].
  split; [exact Hge | apply Hkeep; lia].
Defined.

(** C8: the samples per buffer in effect is the buflen value divided by
    [2 * sizeof(int16_t)] when that quotient is at least 1024 and a
    multiple of 1024, and the default 4096 in every other case, buflen
    unset or 0 included. *)
Theorem samples_per_buffer_chosen :
  forall (lexical_cast : string -> option Z) (dict : dict_t) (c : stream_config)
         (buflen : Z),
    configure lexical_cast dict = Ok c ->
    read_key lexical_cast "buflen" 0 dict = Ok buflen ->
    let q := buflen / (2 * sizeof_int16_t) in
    (1024 <= q /\ q mod 1024 = 0 -> samples_per_buffer c = q) /\
    (~ (1024 <= q /\ q mod 1024 = 0) -> samples_per_buffer c = 4096).
Proof.
  intros lc dict c buflen Hc Hlen.
  destruct (configure_inv lc dict c Hc) as (nb & len & t & _ & Hlen' & _ & ->).
  rewrite Hlen in Hlen'. injection Hlen' as <-.
  cbn [samples_per_buffer]. unfold choose_samples_per_buffer, NUM_SAMPLES_PER_BUFFER.
  change (2 * sizeof_int16_t) with 4. cbv zeta.
  destruct (Z.eqb_spec 0 buflen) as [<- | Hnz].
  - change (0 / 4) with 0. split; [lia|reflexivity].
  - destruct (Z.ltb_spec (buflen / 4) 1024); cbn [orb].
    + split; [lia|reflexivity].
    + destruct (Z.eqb_spec ((buflen / 4) mod 1024) 0); cbn [negb]; split;
        intros; try reflexivity; tauto.
Qed.

Lemma samples_per_buffer_chosen_witness :
  configure decimal args_small
  = Ok {| num_buffers := 8; samples_per_buffer := 2048; transfers := 4 |} /\
  2048 = 8192 / (2 * sizeof_int16_t).
Proof.
  assert (configure decimal args_small
          = Ok {| num_buffers := 8; samples_per_buffer := 2048; transfers := 4 |})
    as Hc by (vm_compute; reflexivity).
  split; [exact Hc|].
  destruct (samples_per_buffer_chosen decimal args_small _ 8192 Hc)
    as [Hq _]; [vm_compute; reflexivity|].
  apply Hq. split; [vm_compute; discriminate | reflexivity].
Defined.

End ConfigClaims.

Section TunerClaims.
Import Width Float Tuner.
Local Open Scope Z_scope.

Lemma app_cons_neq {A} (l r : list A) (x : A) : l ++ x :: r <> l.
Proof.
  intros Heq. apply (f_equal length) in Heq.
  rewrite length_app in Heq. cbn in Heq. lia.
Qed.

(** C9, as stated, fails: a request of 100 Hz is below the range, and on a
    device whose register read fails the call raises a hard failure
    instead of returning the retained frequency. *)
Lemma out_of_range_request_may_throw :
  let d := {| reg_frequency := 915000000; reg_txvga1 := -14; reg_txvga2 := 0;
              status := -1 |} in
  let freq := double_of_int 100 in
  double_ltb freq (start bench_range) = true /\
  exists w',
    set_center_freq bench_range freq 0 (bench_world d)
    = (Throw "get_center_freq failed to get center frequency", w').
Proof. cbv zeta. split; [reflexivity|]. eexists. vm_compute. reflexivity. Qed.

(** C9, amended: for every requested center frequency outside the valid
    range, [set_center_freq] makes no write to the device: the request is
    logged and ignored, the device is left as it was, and the call then
    reads the current center frequency back; it returns that retained
    value when the read succeeds and raises a hard failure only when the
    read itself fails. *)
Theorem out_of_range_frequency_ignored :
  forall (dev : Type) (api : BladeRF dev) (range : range_t)
         (freq : spec_float) (chan : nat) (w : world dev),
    double_ltb freq (start range) || double_ltb (stop range) freq = true ->
    let out := set_center_freq range freq chan w in
    device (snd out) = device w /\
    calls (snd out) = calls w ++ [Call_get_frequency] /\
    cerr (snd out) = cerr w ++ ["Failed to set out of bound frequency"%string] /\
    fst out =
      (if fst (bladerf_get_frequency (device w)) =? 0
       then Ok (double_of_int (snd (bladerf_get_frequency (device w))))
       else Throw "get_center_freq failed to get center frequency").
Proof.
  intros dev api range freq chan w Hout. cbv zeta.
  unfold set_center_freq, get_freq_range. rewrite Hout.
  unfold and_then, log, get_center_freq, and_then, device_get. cbn.
  destruct (fst (bladerf_get_frequency (device w)) =? 0); cbn; auto.
Qed.

Lemma out_of_range_frequency_ignored_witness :
  let d := {| reg_frequency := 915000000; reg_txvga1 := -14; reg_txvga2 := 0;
              status := 0 |} in
  let out := set_center_freq bench_range (double_of_int 100) 0 (bench_world d) in
  device (snd out) = d /\
  calls (snd out) = [Call_get_frequency] /\
  cerr (snd out) = ["Failed to set out of bound frequency"%string] /\
  fst out = Ok (double_of_int 915000000).
Proof.
  cbv zeta.
  apply (out_of_range_frequency_ignored bench bench_device bench_range
           (double_of_int 100) 0
           (bench_world {| reg_frequency := 915000000; reg_txvga1 := -14;
                           reg_txvga2 := 0; status := 0 |})).
  reflexivity.
Defined.

(** C10, as stated, fails: [get_gain_range] with the name ["VGA1"] makes no
    call to the device, although the name is one of the two. *)
Lemma get_gain_range_makes_no_call :
  let w := bench_world {| reg_frequency := 915000000; reg_txvga1 := -14;
                          reg_txvga2 := 0; status := 0 |} in
  ~ (reaches_device (get_gain_range "VGA1" 0) w
     <-> ("VGA1" = "VGA1" \/ "VGA1" = "VGA2")%string).
Proof.
  cbv zeta. intros [_ Hreach].
  apply Hreach; [left; reflexivity | reflexivity].
Qed.

Lemma name_cases (name : string) :
  (name = "VGA1" /\ (name =? "VGA1")%string = true) \/
  (name = "VGA2" /\ (name =? "VGA1")%string = false
                 /\ (name =? "VGA2")%string = true) \/
  (name <> "VGA1" /\ name <> "VGA2" /\ (name =? "VGA1")%string = false
                  /\ (name =? "VGA2")%string = false).
Proof.
  destruct (String.eqb_spec name "VGA1") as [-> | H1]; [left; auto|].
  destruct (String.eqb_spec name "VGA2") as [-> | H2]; [right; left; auto|].
  right; right; auto.
Qed.

Lemma get_gain_calls {dev : Type} {api : BladeRF dev} (name : string)
    (chan : nat) (w : world dev) :
  (name = "VGA1" \/ name = "VGA2")%string ->
  calls (snd (get_gain name chan w))
  = calls w ++ [if (name =? "VGA1")%string then Call_get_txvga1 else Call_get_txvga2].
Proof.
  intros Hk. unfold get_gain, and_then, device_get, throw, pure.
  destruct Hk as [-> | ->]; cbn [String.eqb Ascii.eqb Bool.eqb];
    destruct (negb _); reflexivity.
Qed.

Lemma set_gain_calls {dev : Type} {api : BladeRF dev} (gain : spec_float)
    (name : string) (chan : nat) (w : world dev) :
  (name = "VGA1" \/ name = "VGA2")%string ->
  exists rest,
    calls (snd (set_gain gain name chan w))
    = calls w ++ (if (name =? "VGA1")%string
                  then Call_set_txvga1 (int_of_float gain)
                  else Call_set_txvga2 (int_of_float gain)) :: rest.
Proof.
  intros Hk. unfold set_gain. unfold and_then at 1. unfold device_set.
  destruct Hk as [-> | ->]; cbn [String.eqb Ascii.eqb Bool.eqb].
  - destruct (bladerf_set_txvga1 (device w) (int_of_float gain)) as [st d].
    destruct (negb (st =? 0)).
    + exists []. reflexivity.
    + rewrite get_gain_calls by auto. cbn. rewrite <- app_assoc. eexists. reflexivity.
  - destruct (bladerf_set_txvga2 (device w) (int_of_float gain)) as [st d].
    destruct (negb (st =? 0)).
    + exists []. reflexivity.
    + rewrite get_gain_calls by auto. cbn. rewrite <- app_assoc. eexists. reflexivity.
Qed.

Lemma unknown_gain_element {dev : Type} {api : BladeRF dev} (gain : spec_float)
    (name : string) (chan : nat) (w : world dev) :
  name <> "VGA1"%string -> name <> "VGA2"%string ->
  (exists what, set_gain gain name chan w = (Throw what, w)) /\
  (exists what, get_gain name chan w = (Throw what, w)) /\
  (exists what, get_gain_range name chan w = (Throw what, w)).
Proof.
  intros N1 N2.
  apply String.eqb_neq in N1. apply String.eqb_neq in N2.
  unfold set_gain, get_gain, get_gain_range, and_then, throw.
  rewrite N1, N2. repeat split; eexists; reflexivity.
Qed.

Lemma get_gain_range_known {dev : Type} {api : BladeRF dev} (name : string)
    (chan : nat) (w : world dev) :
  (name = "VGA1" \/ name = "VGA2")%string ->
  get_gain_range name chan w
  = (Ok (if (name =? "VGA1")%string then _vga1_range else _vga2_range), w).
Proof. intros [-> | ->]; reflexivity. Qed.

(** C10, amended: for every gain-element name other than ["VGA1"] and
    ["VGA2"], each of [set_gain], [get_gain] and [get_gain_range] raises an
    error and leaves the device and the record of device calls untouched.
    [set_gain] and [get_gain] make a call to the device exactly when the
    name is one of the two, and that call is the set, respectively the get,
    of the named element.  [get_gain_range] makes no call to the device for
    any name: for the two names it returns the stored range. *)
Theorem gain_element_names :
  forall (dev : Type) (api : BladeRF dev) (gain : spec_float) (name : string)
         (chan : nat) (w : world dev),
    let known := (name = "VGA1" \/ name = "VGA2")%string in
    (~ known ->
       (throws (set_gain gain name chan) w /\ snd (set_gain gain name chan w) = w) /\
       (throws (get_gain name chan) w /\ snd (get_gain name chan w) = w) /\
       (throws (get_gain_range name chan) w /\ snd (get_gain_range name chan w) = w)) /\
    (reaches_device (set_gain gain name chan) w <-> known) /\
    (reaches_device (get_gain name chan) w <-> known) /\
    (known ->
       exists c rest,
         calls (snd (set_gain gain name chan w)) = calls w ++ c :: rest /\
         c = (if (name =? "VGA1")%string then Call_set_txvga1 (int_of_float gain)
              else Call_set_txvga2 (int_of_float gain))) /\
    (known ->
       calls (snd (get_gain name chan w))
       = calls w ++ [if (name =? "VGA1")%string then Call_get_txvga1
                     else Call_get_txvga2]) /\
    ~ reaches_device (get_gain_range name chan) w /\
    (known ->
       get_gain_range name chan w
       = (Ok (if (name =? "VGA1")%string then _vga1_range else _vga2_range), w)).
Proof.
  intros dev api gain name chan w. cbv zeta.
  assert (Hdec : (name = "VGA1" \/ name = "VGA2")%string \/
                 (name <> "VGA1" /\ name <> "VGA2")%string).
  { destruct (name_cases name) as [[? _] | [(? & _) | (? & ? & _)]]; auto. }
  destruct Hdec as [Hk | [N1 N2]].
  - destruct (set_gain_calls gain name chan w Hk) as [rest Hs].
    pose proof (get_gain_calls name chan w Hk) as Hg.
    pose proof (get_gain_range_known name chan w Hk) as Hr.
    unfold reaches_device. rewrite Hs, Hg, Hr. cbn [snd].
    split; [tauto|].
    split; [split; [auto | intros _; apply app_cons_neq]|].
    split; [split; [auto | intros _; apply app_cons_neq]|].
    split; [intros _; eauto|].
    split; [reflexivity|].
    split; [tauto | reflexivity].
  - destruct (unknown_gain_element gain name chan w N1 N2)
      as ([w1 H1] & [w2 H2] & [w3 H3]).
    unfold reaches_device, throws. rewrite H1, H2, H3. cbn [fst snd].
    split; [intros _; eauto 10|].
    split; [split; [tauto | intros [|]; contradiction]|].
    split; [split; [tauto | intros [|]; contradiction]|].
    split; [intros [|]; contradiction|].
    split; [intros [|]; contradiction|].
    split; [tauto | intros [|]; contradiction].
Qed.

End TunerClaims.

Section ConverterClaims.
Import Width Float Pipeline.
Local Open Scope Z_scope.

Lemma to_signed_range w z : 0 < w -> - 2 ^ (w - 1) <= to_signed w z < 2 ^ (w - 1).
Proof.
  intros Hw. unfold to_signed.
  assert (2 ^ w = 2 * 2 ^ (w - 1)) as Hp.
  { replace w with (1 + (w - 1)) at 1 by lia. rewrite Z.pow_add_r by lia. reflexivity. }
  assert (0 < 2 ^ (w - 1)) by (apply Z.pow_pos_nonneg; lia).
  pose proof (Z.mod_pos_bound z (2 ^ w) ltac:(lia)).
  destruct (Z.ltb_spec (z mod 2 ^ w) (2 ^ (w - 1))); lia.
Qed.

Lemma to_signed_small w z :
  0 < w -> - 2 ^ (w - 1) <= z < 2 ^ (w - 1) -> to_signed w z = z.
Proof.
  intros Hw Hz. unfold to_signed.
  assert (2 ^ w = 2 * 2 ^ (w - 1)) as Hp.
  { replace w with (1 + (w - 1)) at 1 by lia. rewrite Z.pow_add_r by lia. reflexivity. }
  assert (0 < 2 ^ (w - 1)) by (apply Z.pow_pos_nonneg; lia).
  destruct (Z.le_gt_cases 0 z).
  - rewrite Z.mod_small by lia.
    destruct (Z.ltb_spec z (2 ^ (w - 1))); lia.
  - assert (z mod 2 ^ w = z + 2 ^ w) as ->.
    { symmetry. apply (Z.mod_unique_pos _ _ (-1)); lia. }
    destruct (Z.ltb_spec (z + 2 ^ w) (2 ^ (w - 1))); lia.
Qed.

(** [truncate] rounds the number the value stands for toward zero. *)
Lemma truncate_toward_zero (x : spec_float) :
  is_finite x = true -> truncate x = Some (round_toward_zero (Q_of_float x)).
Proof.
  destruct x as [sg | sg | | sg m e]; try discriminate; intros _.
  - reflexivity.
  - cbn [truncate Q_of_float]. f_equal. unfold round_toward_zero, Qceiling.
    assert (Hm : forall k, 0 < Z.pos m * 2 ^ Z.pos k)
      by (intros k; apply Z.mul_pos_pos; lia).
    destruct e as [| k | k], sg; cbn [Qopp Qnum Qden Qfloor];
      rewrite ?Z.opp_involutive, ?Z.div_1_r, ?Pos2Z.inj_pow;
      try (specialize (Hm k));
      repeat match goal with
             | |- context [(?a <? 0)%Z] => destruct (Z.ltb_spec a 0)
             end;
      try lia; cbn [Qopp Qnum Qden Qfloor];
      rewrite ?Z.opp_involutive, ?Z.div_1_r, ?Pos2Z.inj_pow; reflexivity.
Qed.

Lemma copy_sample_mem (x : gr_complex) (s : sink) :
  mem (copy_sample x s) !! _next_value s = Some (scale (real x)) /\
  mem (copy_sample x s) !! (_next_value s + sizeof_int16_t) = Some (scale (imag x)) /\
  (forall a, a <> _next_value s -> a <> _next_value s + sizeof_int16_t ->
             mem (copy_sample x s) !! a = mem s !! a) /\
  _next_value (copy_sample x s) = _next_value s + 2 * sizeof_int16_t /\
  _samples_left (copy_sample x s) = pred (_samples_left s).
Proof.
  unfold copy_sample, put.
  cbn [mem _next_value _samples_left with_samples_left with_next_value with_mem].
  split; [|split; [|split; [|split]]].
  - rewrite lookup_insert_ne by (unfold sizeof_int16_t; lia).
    apply lookup_insert_eq.
  - apply lookup_insert_eq.
  - intros a H1 H2. rewrite !lookup_insert_ne by congruence. reflexivity.
  - unfold sizeof_int16_t. lia.
  - reflexivity.
Qed.

Lemma scale_examples :
  scale tenth = 200 /\ scale minus_two_tenths = -400 /\ scale twenty = 40000 - 2 ^ 16.
Proof. repeat split; vm_compute; reflexivity. Qed.

(** C7: for every input sample the converter writes exactly two signed
    16-bit integers, I at the write cursor and Q after it, and moves the
    cursor past them; I is the product of the real part and 2000, and Q
    that of the imaginary part and 2000, each rounded toward zero and
    reduced to 16 bits without clamping, so that a product within the
    16-bit range is kept exactly and one outside it wraps (20 * 2000
    gives 40000 - 65536); the sample (0.1, -0.2) gives I = 200 and
    Q = -400. *)
Theorem converter_writes_I_then_Q :
  forall (x : gr_complex) (s : sink),
    let I := scale (real x) in
    let Q := scale (imag x) in
    let s' := copy_sample x s in
    (mem s' !! _next_value s = Some I /\
     mem s' !! (_next_value s + sizeof_int16_t) = Some Q /\
     (forall a, a <> _next_value s -> a <> _next_value s + sizeof_int16_t ->
                mem s' !! a = mem s !! a) /\
     _next_value s' = _next_value s + 2 * sizeof_int16_t) /\
    (- 2 ^ 15 <= I < 2 ^ 15 /\ - 2 ^ 15 <= Q < 2 ^ 15) /\
    (forall c, c = real x \/ c = imag x ->
       let product := float_mul c (float_of_int SCALE) in
       is_finite product = true ->
       let t := round_toward_zero (Q_of_float product) in
       scale c = to_int16 t /\
       (- 2 ^ 15 <= t < 2 ^ 15 -> scale c = t)) /\
    (let s1 := copy_sample {| real := tenth; imag := minus_two_tenths |} s in
     mem s1 !! _next_value s = Some 200 /\
     mem s1 !! (_next_value s + sizeof_int16_t) = Some (-400)) /\
    scale twenty = 40000 - 2 ^ 16.
Proof.
  intros x s. cbv zeta.
  destruct (copy_sample_mem x s) as (HI & HQ & Hrest & Hnext & _).
  destruct (copy_sample_mem {| real := tenth; imag := minus_two_tenths |} s)
    as (HI1 & HQ1 & _).
  destruct scale_examples as (E1 & E2 & E3).
  cbn [real imag] in HI1, HQ1. rewrite E1 in HI1. rewrite E2 in HQ1.
  split; [auto|].
  split; [split; apply (to_signed_range 16); lia|].
  split; [|auto].
  intros c _ Hfin. unfold scale, int16_of_float.
  rewrite truncate_toward_zero by assumption. cbn [default].
  split; [reflexivity|].
  intros Hr. apply (to_signed_small 16); [lia | exact Hr].
Qed.

End ConverterClaims.

Section PoolArithmetic.

Lemma mod_window_inj (n a b : nat) :
  0 < n -> a <= b -> b < a + n -> a mod n = b mod n -> a = b.
Proof.
  intros Hn Hab Hb Hmod.
  pose proof (Nat.div_mod_eq a n) as Ha.
  pose proof (Nat.div_mod_eq b n) as Hb'.
  rewrite <- Hmod in Hb'.
  assert (a / n = b / n) as Hq by nia.
  rewrite Hq in Ha. lia.
Qed.

Lemma succ_mod (n a : nat) : S (a mod n) mod n = S a mod n.
Proof.
  replace (S (a mod n)) with (a mod n + 1) by lia.
  replace (S a) with (a + 1) by lia.
  apply Nat.Div0.add_mod_idemp_l.
Qed.

Lemma mod_add_self (n a : nat) : (a + n) mod n = a mod n.
Proof.
  replace (a + n) with (a + 1 * n) by lia. apply Nat.Div0.mod_add.
Qed.

End PoolArithmetic.

(** ** The pool invariant is kept by every step *)

Import Width Float Pipeline.

Ltac fields H :=
  destruct H as [Hnum Hspb Hbufs Hn Hspbpos Halloc Hlen Htr Hord Hbi Hntx
                 Hfl Hwin Hwinw Hfilled Hleft Hcur Hwork].

Section PoolSafety.

Lemma buffer2index_from_found (bufs : list Z) (p : Z) (k : nat) :
  forall n i,
    i <= k -> k < i + n -> bufs !! k = Some p ->
    (forall k', i <= k' -> k' < k -> bufs !! k' <> Some p) ->
    buffer2index_from bufs p i n = Ok k.
Proof.
  induction n as [|n IH]; intros i Hik Hk Hp Hfirst; [lia|].
  cbn [buffer2index_from]. case_bool_decide as Hi.
  - destruct (decide (i = k)) as [->|Hne]; [reflexivity|].
    exfalso. apply (Hfirst i); [lia | lia | exact Hi].
  - destruct (decide (i = k)) as [->|Hne]; [congruence|].
    apply IH; [lia | lia | exact Hp |].
    intros k' H1 H2. apply Hfirst; lia.
Qed.

Lemma buffer2index_from_sound (bufs : list Z) (p : Z) :
  forall n i k,
    buffer2index_from bufs p i n = Ok k ->
    bufs !! k = Some p /\ i <= k < i + n.
Proof.
  induction n as [|n IH]; intros i k H; [discriminate|].
  cbn [buffer2index_from] in H. case_bool_decide as Hi.
  - injection H as <-. split; [exact Hi | lia].
  - apply IH in H as [H1 H2]. split; [exact H1 | lia].
Qed.

Lemma well_allocated_inj (n spb : nat) (bufs : list Z) (i j : nat) (p : Z) :
  well_allocated n spb bufs -> 1 <= spb ->
  bufs !! i = Some p -> bufs !! j = Some p -> i = j.
Proof.
  intros (_ & _ & Hapart) Hspb Hi Hj.
  destruct (decide (i = j)) as [|Hne]; [assumption|].
  destruct (Hapart i j p p Hi Hj Hne); lia.
Qed.

Lemma buffer2index_slot (n spb : nat) (bufs : list Z) (k : nat) (p : Z) :
  well_allocated n spb bufs -> 1 <= spb ->
  bufs !! k = Some p -> buffer2index bufs p n = Ok k.
Proof.
  intros Hal Hspb Hk. unfold buffer2index.
  apply buffer2index_from_found; [lia | | exact Hk |].
  - apply lookup_lt_Some in Hk. destruct Hal as [<- _]. lia.
  - intros k' _ Hlt Hk'.
    pose proof (well_allocated_inj n spb bufs k' k p Hal Hspb Hk' Hk). lia.
Qed.

Lemma buffer_at_lookup (n spb : nat) (bufs : list Z) (j : nat) :
  well_allocated n spb bufs -> 1 <= n ->
  bufs !! (j mod n) = Some (buffer_at bufs n j) /\ buffer_at bufs n j <> NULL.
Proof.
  intros Hal Hn. unfold buffer_at.
  destruct (bufs !! (j mod n)) as [p|] eqn:E.
  - split; [reflexivity|]. destruct Hal as (_ & Hnn & _). exact (Hnn _ _ E).
  - apply lookup_ge_None in E. destruct Hal as [Hlen _].
    pose proof (Nat.mod_upper_bound j n). lia.
Qed.

Lemma obj_deliver (evs : list event) (st : system) : obj (deliver evs st) = obj st.
Proof.
  revert st. induction evs as [|e evs IH]; intros st; [reflexivity|].
  destruct e; cbn [deliver]; rewrite ?IH; try reflexivity;
    destruct c; cbn [wake]; try (destruct (pc (frame st))); try (destruct (engine st));
    reflexivity.
Qed.

Lemma pool_inv_wake n spb bufs P C R (c : cond) (st : system) :
  pool_inv n spb bufs P C R st -> pool_inv n spb bufs P C R (wake c st).
Proof.
  intros H. destruct c; cbn [wake].
  - destruct (engine st) eqn:E; try exact H.
    destruct H. constructor; cbn; auto.
  - destruct (pc (frame st)) eqn:E; try exact H.
    destruct H. constructor; cbn; auto; exact I.
Qed.

Lemma pool_inv_deliver n spb bufs P C R (evs : list event) (st : system) :
  pool_inv n spb bufs P C R st -> pool_inv n spb bufs P C R (deliver evs st).
Proof.
  revert st. induction evs as [|e evs IH]; intros st H; [exact H|].
  destruct e; cbn [deliver]; auto using pool_inv_wake.
Qed.

End PoolSafety.

(** Facts about [_filled] that follow from the counters. *)
Section Window.

Variables (n P R : nat) (filled : list bool).
Hypothesis Hn : 1 <= n.
Hypothesis Hlen : length filled = n.
Hypothesis Hord : R <= P /\ P <= R + n.
Hypothesis Hfilled :
  forall i b, filled !! i = Some b ->
    (b = true <-> exists j, R <= j < P /\ j mod n = i).

Lemma slot_defined (j : nat) : exists b, filled !! (j mod n) = Some b.
Proof.
  apply lookup_lt_is_Some. rewrite Hlen. apply Nat.mod_upper_bound. lia.
Qed.

Lemma fill_cursor_unfilled : P < R + n -> filled !! (P mod n) = Some false.
Proof.
  intros HP. destruct (slot_defined P) as [b Hb]. rewrite Hb. f_equal.
  destruct b; [|reflexivity]. exfalso.
  destruct (proj1 (Hfilled _ _ Hb) eq_refl) as (j & Hj & Hmod).
  assert (j = P) by (apply (mod_window_inj n); lia). lia.
Qed.

Lemma fill_cursor_free : filled !! (P mod n) = Some false -> P < R + n.
Proof.
  intros Hb. destruct (decide (P < R + n)) as [|Hge]; [assumption|].
  exfalso. assert (P = R + n) as HP by lia.
  assert (false = true) as Habs; [|discriminate].
  apply (Hfilled _ _ Hb). exists R. split; [lia|].
  rewrite HP. symmetry. apply mod_add_self.
Qed.

Lemma oldest_filled : R < P -> filled !! (R mod n) = Some true.
Proof.
  intros HR. destruct (slot_defined R) as [b Hb]. rewrite Hb. f_equal.
  apply (Hfilled _ _ Hb). exists R. split; [lia | reflexivity].
Qed.

Lemma drain_cursor_behind (C : nat) :
  R <= C -> C <= P -> C < R + n ->
  filled !! (C mod n) = Some true -> C < P.
Proof.
  intros H1 H2 H3 Hb.
  destruct (proj1 (Hfilled _ _ Hb) eq_refl) as (j & Hj & Hmod).
  destruct (decide (C < P)) as [|Hge]; [assumption|]. exfalso.
  assert (j = C) by (apply (mod_window_inj n); lia). lia.
Qed.

Lemma filled_after_fill :
  P < R + n ->
  forall i b, <[P mod n := true]> filled !! i = Some b ->
    (b = true <-> exists j, R <= j < S P /\ j mod n = i).
Proof.
  intros HP i b Hb.
  destruct (decide (P mod n = i)) as [<-|Hne].
  - rewrite list_lookup_insert_eq in Hb
      by (rewrite Hlen; apply Nat.mod_upper_bound; lia).
    injection Hb as <-. split; [|reflexivity].
    intros _. exists P. split; [lia | reflexivity].
  - rewrite list_lookup_insert_ne in Hb by assumption.
    rewrite (Hfilled _ _ Hb). split; intros (j & Hj & Hmod); exists j.
    + split; [lia | assumption].
    + split; [|assumption]. destruct (decide (j = P)) as [->|]; [contradiction | lia].
Qed.

Lemma filled_after_return :
  R < P ->
  forall i b, <[R mod n := false]> filled !! i = Some b ->
    (b = true <-> exists j, S R <= j < P /\ j mod n = i).
Proof.
  intros HR i b Hb.
  destruct (decide (R mod n = i)) as [<-|Hne].
  - rewrite list_lookup_insert_eq in Hb
      by (rewrite Hlen; apply Nat.mod_upper_bound; lia).
    injection Hb as <-. split; [discriminate|].
    intros (j & Hj & Hmod). exfalso.
    assert (R = j) by (apply (mod_window_inj n); lia). lia.
  - rewrite list_lookup_insert_ne in Hb by assumption.
    rewrite (Hfilled _ _ Hb). split; intros (j & Hj & Hmod); exists j.
    + split; [|assumption]. destruct (decide (j = R)) as [->|]; [contradiction | lia].
    + split; [lia | assumption].
Qed.

End Window.

Section FilledFollows.

Lemma flips_app (b : bool) (l1 l2 : list bool) :
  flips b (l1 ++ l2) = flips b l1 ≫= fun b' => flips b' l2.
Proof.
  revert b. induction l1 as [|x l1 IH]; intros b; [reflexivity|].
  cbn [flips app]. case_bool_decide; [apply IH | reflexivity].
Qed.

Lemma assignments_app (i : nat) (tr1 tr2 : list event) :
  assignments i (tr1 ++ tr2) = assignments i tr1 ++ assignments i tr2.
Proof.
  induction tr1 as [|e tr1 IH]; [reflexivity|].
  destruct e; cbn [assignments app]; try exact IH.
  destruct (decide (i0 = i)); [cbn; f_equal; exact IH | exact IH].
Qed.

Lemma filled_follows_same (evs : list event) (l : list bool) :
  (forall i, assignments i evs = []) -> filled_follows evs l l.
Proof.
  intros Hnone i b Hb. exists b. rewrite Hnone. split; [assumption | reflexivity].
Qed.

Lemma filled_follows_insert (evs : list event) (l : list bool) (k : nat) (b : bool) :
  l !! k = Some (negb b) ->
  (forall i, assignments i evs = if decide (k = i) then [b] else []) ->
  filled_follows evs l (<[k := b]> l).
Proof.
  intros Hk Hone i b' Hb'. rewrite Hone.
  destruct (decide (k = i)) as [<-|Hne].
  - rewrite list_lookup_insert_eq in Hb' by (eapply lookup_lt_Some; eassumption).
    injection Hb' as <-. exists (negb b). split; [assumption|].
    cbn [flips]. rewrite negb_involutive. rewrite bool_decide_eq_true_2; reflexivity.
  - rewrite list_lookup_insert_ne in Hb' by assumption.
    exists b'. split; [assumption | reflexivity].
Qed.

Lemma filled_follows_trans (evs1 evs2 : list event) (l1 l2 l3 : list bool) :
  filled_follows evs1 l1 l2 -> filled_follows evs2 l2 l3 ->
  filled_follows (evs1 ++ evs2) l1 l3.
Proof.
  intros H12 H23 i b3 Hb3.
  destruct (H23 i b3 Hb3) as (b2 & Hb2 & F2).
  destruct (H12 i b2 Hb2) as (b1 & Hb1 & F1).
  exists b1. split; [assumption|].
  rewrite assignments_app, flips_app, F1. exact F2.
Qed.

End FilledFollows.

Ltac quiet :=
  split; [apply filled_follows_same; reflexivity|];
  split; [intros ? ? Hev; cbn in Hev; intuition discriminate|];
  split; [intros ? Hev; cbn in Hev; intuition discriminate | reflexivity].

Section WorkSteps.

Variables (n spb : nat) (bufs : list Z).

Lemma work_step_safe (P C R : nat) (st : system) (s' : sink) (f' : work_frame)
    (evs : list event) :
  pool_inv n spb bufs P C R st ->
  work_step (obj st) (frame st) = Some (s', f', evs) ->
  (exists P', pool_inv n spb bufs P' C R (with_frame f' (with_obj s' st))) /\
  filled_follows evs (_filled (obj st)) (_filled s') /\
  (forall a v, In (EvStore a v) evs ->
     in_slot (obj st) (P mod n) a /\ _filled (obj st) !! (P mod n) = Some false) /\
  (forall p, ~ In (EvSubmit p) evs) /\
  _running s' = _running (obj st).
Proof.
  intros Hinv Hstep. fields Hinv.
  unfold work_step in Hstep. unfold work_inv in Hwork.
  destruct (pc (frame st)) eqn:Hpc; try discriminate.
  - (* the test of the outer loop *)
    destruct Hwork as [H1 H2].
    destruct (running (frame st) && (0 <? num_samples (frame st))%Z) eqn:Hgo;
      injection Hstep as <- <- <-.
    + apply andb_true_iff in Hgo as [Hrun _].
      split; [|quiet].
      exists P; constructor; cbn; auto.
    + split; [|quiet].
      exists P; constructor; cbn; auto.
      intros Hflag.
      destruct (running (frame st)); [auto|]. rewrite H2 in Hflag; [discriminate | reflexivity].
  - (* the copy loop *)
    destruct Hwork as [HP Hrun].
    destruct (negb (_samples_left (obj st) =? 0) && negb (num_samples (frame st) =? 0)%Z)
      eqn:Hgo.
    + destruct (input (frame st)) as [|x rest] eqn:Hin; [discriminate|].
      injection Hstep as <- <- <-.
      apply andb_true_iff in Hgo as [Hleft0 _].
      apply negb_true_iff, Nat.eqb_neq in Hleft0.
      destruct (buffer_at_lookup n spb bufs P Halloc Hn) as [Hat Hnn].
      split.
      { exists P; constructor; cbn; auto.
        all: try lia.
        all: try (rewrite Hcur; unfold sizeof_int16_t; lia).
        unfold work_inv. cbn. rewrite Hpc. auto. }
      split; [apply filled_follows_same; reflexivity|].
      split; [|split; [intros p Hev; cbn in Hev; intuition discriminate | reflexivity]].
      intros a v Hev.
      split; [|apply (fill_cursor_unfilled n P R); auto; lia].
      exists (buffer_at bufs n P). rewrite Hbufs, Hspb. split; [assumption|].
      destruct Hev as [Hev|[Hev|[]]]; injection Hev as <- _;
        rewrite Hcur; unfold sizeof_int16_t; lia.
    + injection Hstep as <- <- <-.
      split; [|quiet].
      exists P; constructor; cbn; auto.
  - (* the buffer is full, or not *)
    destruct Hwork as [HP Hrun].
    destruct (_samples_left (obj st) =? 0) eqn:Hleft0.
    + unfold rotate in Hstep.
      destruct (_filled (obj st) !! _buf_index (obj st)) as [b0|] eqn:Hb0;
        [|discriminate]. cbn [mbind option_bind] in Hstep.
      destruct (_buffers (obj st) !! (S (_buf_index (obj st)) mod _num_buffers (obj st)))
        as [p|] eqn:Hp; [|discriminate]. cbn [mbind option_bind] in Hstep.
      unfold wait_or_go in Hstep.
      cbn [_filled _buf_index with_samples_left with_next_value with_buf_index
           with_filled] in Hstep.
      rewrite Hbi, Hnum, succ_mod in Hstep, Hp.
      rewrite Hbi in Hb0. rewrite Hbufs in Hp.
      assert (Hfilled' : forall i b,
                 <[P mod n := true]> (_filled (obj st)) !! i = Some b ->
                 (b = true <-> exists j, R <= j < S P /\ j mod n = i))
        by (apply filled_after_fill; auto; lia).
      assert (Hbefore : _filled (obj st) !! (P mod n) = Some false)
        by (apply (fill_cursor_unfilled n P R); auto; lia).
      destruct (<[P mod n:=true]> (_filled (obj st)) !! (S P mod n)) as [full|] eqn:Hfull;
        [|discriminate]. cbn [mbind option_bind] in Hstep.
      assert (Hat : buffer_at bufs n (S P) = p) by (unfold buffer_at; rewrite Hp; reflexivity).
      assert (Hfollow : forall tail, (forall i, assignments i tail = []) ->
                 filled_follows
                   ([EvLock; EvSetFilled (P mod n) true; EvNotifyOne samp_avail] ++ tail)
                   (_filled (obj st)) (<[P mod n:=true]> (_filled (obj st)))).
      { intros tail Htail. apply filled_follows_insert; [exact Hbefore|].
        intros i. cbn [assignments app]. rewrite Htail.
        destruct (decide (P mod n = i)); reflexivity. }
      destruct (full && running (frame st)) eqn:Hwait; injection Hstep as <- <- <-.
      * split.
        { exists (S P); constructor; cbn; auto.
          all: try (rewrite length_insert; assumption).
          all: try (rewrite succ_mod; reflexivity).
          all: try (rewrite Hat; lia).
          all: try lia.
          all: try exact I. }
        split; [apply Hfollow; reflexivity|].
        split; [intros a v Hev; cbn in Hev; intuition discriminate|].
        split; [intros q Hev; cbn in Hev; intuition discriminate | reflexivity].
      * split.
        { exists (S P); constructor; cbn; auto.
          all: try (rewrite length_insert; assumption).
          all: try (rewrite succ_mod; reflexivity).
          all: try (rewrite Hat; lia).
          all: try lia.
          rewrite Hrun in Hwait. rewrite andb_true_r in Hwait. subst full.
            split; [|congruence]. intros _.
            apply (fill_cursor_free n (S P) R (<[P mod n:=true]> (_filled (obj st))));
              auto; try lia. rewrite length_insert. assumption. }
        split; [apply Hfollow; reflexivity|].
        split; [intros a v Hev; cbn in Hev; intuition discriminate|].
        split; [intros q Hev; cbn in Hev; intuition discriminate | reflexivity].
    + injection Hstep as <- <- <-.
      split; [|quiet].
      exists P; constructor; cbn; auto.
      split; [auto | congruence].
  - (* leaving the wait *)
    unfold wait_or_go in Hstep. rewrite Hbi in Hstep.
    destruct (_filled (obj st) !! (P mod n)) as [full|] eqn:Hfull; [|discriminate].
    cbn [mbind option_bind running with_running] in Hstep. unfold is_running in Hstep.
    destruct (full && _running (obj st)) eqn:Hwait; injection Hstep as <- <- <-.
    + split; [|quiet].
      exists P; constructor; cbn; auto; exact I.
    + split; [|quiet].
      exists P; constructor; cbn; auto.
      unfold is_running. split; [|auto]. intros Hflag.
      rewrite Hflag, andb_true_r in Hwait. subst full.
      apply (fill_cursor_free n P R (_filled (obj st))); auto; lia.
Qed.

End WorkSteps.

Section CallbackSteps.

Variables (n spb : nat) (bufs : list Z).

Lemma work_inv_returned (P R : nat) (s s' : sink) (f : work_frame) :
  work_inv n P R s f -> _running s' = _running s -> work_inv n P (S R) s' f.
Proof.
  unfold work_inv. intros H ->. destruct (pc f); intuition lia.
Qed.

Lemma next_or_wait_safe (P C R : nat) (st : system) (o : callback_state)
    (evs : list event) :
  pool_inv n spb bufs P C R st ->
  C - R < num_transfers st ->
  next_or_wait (obj st) = Some (o, evs) ->
  (exists C', pool_inv n spb bufs P C' R (after_callback o (in_flight st) st)) /\
  (forall i, assignments i evs = []) /\
  (forall a v, ~ In (EvStore a v) evs) /\
  (forall p, In (EvSubmit p) evs -> p <> NULL ->
     exists i, bufs !! i = Some p /\ _filled (obj st) !! i = Some true) /\
  _filled (sink_of o) = _filled (obj st) /\
  _running (sink_of o) = _running (obj st).
Proof.
  intros Hinv Hroom Hstep. fields Hinv.
  unfold next_or_wait, is_running in Hstep.
  destruct (_running (obj st)) eqn:Hflag.
  - rewrite Hntx in Hstep.
    destruct (_filled (obj st) !! (C mod n)) as [full|] eqn:Hfull; [|discriminate].
    cbn [mbind option_bind] in Hstep. destruct full; cbn [negb] in Hstep.
    + rewrite Hbufs in Hstep.
      destruct (buffer_at_lookup n spb bufs C Halloc Hn) as [Hat Hnn].
      rewrite Hat in Hstep. cbn [mbind option_bind] in Hstep.
      injection Hstep as <- <-.
      assert (C < P) as HCP
        by (apply (drain_cursor_behind n P R (_filled (obj st))); auto; lia).
      cbn [after_callback]. apply Z.eqb_neq in Hnn. rewrite Hnn.
      split.
      { exists (S C); constructor; cbn; auto.
        all: try lia.
        all: try (rewrite Hnum; apply succ_mod).
        - rewrite Hfl. replace (S C - R) with (S (C - R)) by lia.
          rewrite seq_S, map_app. cbn [map]. repeat f_equal. lia.
        - intros [|]; discriminate. }
      split; [reflexivity|].
      split; [intros a v Hev; cbn in Hev; intuition discriminate|].
      split; [|split; [reflexivity | cbn; congruence]].
      intros p [Hev|[Hev|[]]] _; [discriminate|]. injection Hev as <-.
      exists (C mod n). auto.
    + injection Hstep as <- <-. cbn [after_callback].
      split; [exists C; constructor; cbn; auto|].
      split; [reflexivity|].
      split; [intros a v Hev; cbn in Hev; intuition discriminate|].
      split; [|split; [reflexivity | cbn; congruence]].
      intros p [Hev|[]]. discriminate.
  - injection Hstep as <- <-. cbn [after_callback]. rewrite Z.eqb_refl.
    split; [exists C; constructor; cbn; auto; intros [|]; discriminate|].
    split; [reflexivity|].
    split; [intros a v Hev; cbn in Hev; intuition discriminate|].
    split; [|split; [reflexivity | cbn; congruence]].
    intros p [Hev|[Hev|[]]] Hp; [discriminate|]. injection Hev as <-. contradiction.
Qed.

Lemma mark_emptied_safe (P C R : nat) (st : system) (samples : Z) (rest : list Z) :
  pool_inv n spb bufs P C R st ->
  engine st = CIdle ->
  (samples = NULL /\ rest = in_flight st /\ length (in_flight st) < num_transfers st) \/
  in_flight st = samples :: rest ->
  exists s1 evs1 R1,
    mark_emptied samples (obj st) = Ok (s1, evs1) /\
    pool_inv n spb bufs P C R1 (with_in_flight rest (with_engine CWoken (with_obj s1 st))) /\
    C - R1 < num_transfers st /\
    filled_follows evs1 (_filled (obj st)) (_filled s1) /\
    (forall a v, ~ In (EvStore a v) evs1) /\
    (forall p, ~ In (EvSubmit p) evs1) /\
    _running s1 = _running (obj st).
Proof.
  intros Hinv Hidle Hhw. fields Hinv. unfold mark_emptied.
  destruct Hhw as [(-> & -> & Hroom) | Hhead].
  - rewrite Z.eqb_refl. exists (obj st), [], R.
    rewrite Hfl, length_map, length_seq in Hroom.
    split; [reflexivity|].
    split; [constructor; cbn; auto|].
    split; [assumption|].
    split; [apply filled_follows_same; reflexivity|].
    split; [intros a v []|]. split; [intros p []|reflexivity].
  - rewrite Hfl in Hhead.
    destruct (C - R) as [|m] eqn:Hm; [discriminate|].
    cbn [seq map] in Hhead. injection Hhead as Hs Hrest.
    destruct (buffer_at_lookup n spb bufs R Halloc Hn) as [Hat Hnn].
    rewrite Hs in Hat, Hnn.
    apply Z.eqb_neq in Hnn. rewrite Hnn.
    rewrite Hbufs, Hnum, (buffer2index_slot n spb bufs (R mod n) samples Halloc Hspbpos Hat).
    cbn [mbind result_bind].
    assert (Htrue : _filled (obj st) !! (R mod n) = Some true)
      by (apply (oldest_filled n P R); auto; lia).
    exists (with_filled (<[R mod n := false]> (_filled (obj st))) (obj st)),
           [EvSetFilled (R mod n) false; EvNotifyOne buffer_emptied], (S R).
    split; [reflexivity|].
    split.
    { constructor; cbn; auto.
      all: try (rewrite length_insert; assumption).
      all: try lia.
      - rewrite <- Hrest. f_equal. f_equal. lia.
      - apply filled_after_return; auto; lia.
      - apply (work_inv_returned P R (obj st)); [assumption | reflexivity]. }
    split; [lia|].
    split.
    { apply filled_follows_insert; [exact Htrue|].
      intros i. cbn [assignments]. destruct (decide (R mod n = i)); reflexivity. }
    split; [intros a v Hev; cbn in Hev; intuition discriminate|].
    split; [intros p Hev; cbn in Hev; intuition discriminate | reflexivity].
Qed.

Lemma after_callback_frame (o : callback_state) (rest rest' : list Z)
    (e : callback_pc) (s1 : sink) (st : system) :
  after_callback o rest (with_in_flight rest' (with_engine e (with_obj s1 st)))
  = after_callback o rest st.
Proof. destruct o; cbn; [reflexivity|]. destruct (ret =? NULL)%Z; reflexivity. Qed.

Lemma obj_after_callback (o : callback_state) (rest : list Z) (st : system) :
  obj (after_callback o rest st) = sink_of o.
Proof. destruct o; cbn; [reflexivity|]. destruct (ret =? NULL)%Z; reflexivity. Qed.

Lemma callback_safe (P C R : nat) (st st' : system) (samples : Z) (rest : list Z)
    (evs : list event) :
  pool_inv n spb bufs P C R st ->
  engine st = CIdle ->
  (samples = NULL /\ rest = in_flight st /\ length (in_flight st) < num_transfers st) \/
  in_flight st = samples :: rest ->
  callback samples rest st = Some (st', evs) ->
  (exists C' R', pool_inv n spb bufs P C' R' st') /\
  filled_follows evs (_filled (obj st)) (_filled (obj st')) /\
  (forall a v, ~ In (EvStore a v) evs) /\
  (forall p, In (EvSubmit p) evs -> p <> NULL ->
     exists i, bufs !! i = Some p /\ _filled (obj st') !! i = Some true) /\
  _running (obj st') = _running (obj st).
Proof.
  intros Hinv Hidle Hhw Hcb.
  destruct (mark_emptied_safe P C R st samples rest Hinv Hidle Hhw)
    as (s1 & evs1 & R1 & Hmark & Hinv1 & Hroom & Hfol1 & Hst1 & Hsub1 & Hrun1).
  unfold callback, get_next_buffer in Hcb. rewrite Hmark in Hcb.
  cbn [mbind result_bind] in Hcb.
  destruct (next_or_wait s1) as [[o evs2]|] eqn:Hnext; [|discriminate].
  cbn [mbind option_bind] in Hcb. injection Hcb as <- <-.
  destruct (next_or_wait_safe P C R1 _ o evs2 Hinv1 Hroom Hnext)
    as ([C' Hinv2] & Hnone & Hst2 & Hsub2 & Hsame & Hrun2).
  cbn [obj in_flight with_in_flight with_engine with_obj] in *.
  rewrite after_callback_frame in Hinv2.
  rewrite obj_deliver, obj_after_callback.
  split; [exists C', R1; apply pool_inv_deliver; exact Hinv2|].
  split.
  { rewrite Hsame. change (EvLock :: evs1 ++ evs2) with ([EvLock] ++ evs1 ++ evs2).
    apply (filled_follows_trans _ _ _ (_filled (obj st)));
      [apply filled_follows_same; reflexivity|].
    apply (filled_follows_trans _ _ _ (_filled s1)); [exact Hfol1|].
    apply filled_follows_same. exact Hnone. }
  split.
  { intros a v [Hev|Hev]; [discriminate|].
    apply in_app_or in Hev as [Hev|Hev]; [exact (Hst1 _ _ Hev) | exact (Hst2 _ _ Hev)]. }
  split; [|congruence].
  intros p [Hev|Hev] Hp; [discriminate|].
  apply in_app_or in Hev as [Hev|Hev]; [destruct (Hsub1 _ Hev)|].
  rewrite Hsame. exact (Hsub2 p Hev Hp).
Qed.

Lemma resume_safe (P C R : nat) (st st' : system) (o : callback_state)
    (evs : list event) :
  pool_inv n spb bufs P C R st ->
  engine st = CWoken ->
  get_next_buffer_resume (obj st) = Some (o, evs) ->
  (exists C', pool_inv n spb bufs P C' R (deliver evs (after_callback o (in_flight st) st))) /\
  filled_follows evs (_filled (obj st)) (_filled (sink_of o)) /\
  (forall a v, ~ In (EvStore a v) evs) /\
  (forall p, In (EvSubmit p) evs -> p <> NULL ->
     exists i, bufs !! i = Some p /\ _filled (sink_of o) !! i = Some true) /\
  _running (sink_of o) = _running (obj st).
Proof.
  intros Hinv Hwoken Hres.
  assert (Hroom : C - R < num_transfers st)
    by (apply (inv_window_wait _ _ _ _ _ _ _ Hinv); auto).
  unfold get_next_buffer_resume in Hres.
  destruct (next_or_wait (obj st)) as [[o' evs2]|] eqn:Hnext; [|discriminate].
  cbn [mbind option_bind] in Hres. injection Hres as <- <-.
  destruct (next_or_wait_safe P C R st o' evs2 Hinv Hroom Hnext)
    as ([C' Hinv2] & Hnone & Hst2 & Hsub2 & Hsame & Hrun2).
  split; [exists C'; apply pool_inv_deliver; exact Hinv2|].
  split; [rewrite Hsame; apply filled_follows_same; intros i; apply Hnone|].
  split; [intros a v [Hev|Hev]; [discriminate | exact (Hst2 _ _ Hev)]|].
  split; [|exact Hrun2].
  intros p [Hev|Hev] Hp; [discriminate|]. rewrite Hsame. exact (Hsub2 p Hev Hp).
Qed.

End CallbackSteps.

Section Interleavings.

Variables (n spb : nat) (bufs : list Z).

Lemma work_inv_flag_cleared (P R : nat) (s : sink) (f : work_frame) :
  work_inv n P R s f -> work_inv n P R (set_running false s) f.
Proof.
  unfold work_inv. cbn. destruct (pc f); intuition discriminate.
Qed.

Lemma pool_inv_flag_cleared (P C R : nat) (st : system) :
  pool_inv n spb bufs P C R st ->
  pool_inv n spb bufs P C R (with_obj (set_running false (obj st)) st).
Proof.
  intros H. fields H. constructor; cbn; auto using work_inv_flag_cleared.
Qed.

Lemma pool_inv_with_dtor (P C R : nat) (st : system) (d : dtor_pc) :
  pool_inv n spb bufs P C R st -> pool_inv n spb bufs P C R (with_dtor d st).
Proof. intros H. fields H. constructor; cbn; auto. Qed.

Lemma pool_inv_with_engine (P C R : nat) (st : system) (e : callback_pc) :
  e <> CWait -> e <> CWoken ->
  pool_inv n spb bufs P C R st -> pool_inv n spb bufs P C R (with_engine e st).
Proof.
  intros H1 H2 H. fields H. constructor; cbn; auto. intros [|]; contradiction.
Qed.

Lemma in_slot_unique (s : sink) (i j : nat) (a : Z) :
  well_allocated (_num_buffers s) (_samples_per_buffer s) (_buffers s) ->
  in_slot s i a -> in_slot s j a -> i = j.
Proof.
  intros (_ & _ & Hapart) (p & Hp & Hpa) (q & Hq & Hqa).
  destruct (decide (i = j)) as [|Hne]; [assumption|].
  destruct (Hapart i j p q Hp Hq Hne); lia.
Qed.

(** What one step of any thread keeps and guarantees. *)
Lemma exec_safe (P C R : nat) (st st' : system) (a : action) (evs : list event) :
  pool_inv n spb bufs P C R st ->
  exec a st = Some (st', evs) ->
  (exists P' C' R', pool_inv n spb bufs P' C' R' st') /\
  filled_follows evs (_filled (obj st)) (_filled (obj st')) /\
  (forall addr v, In (EvStore addr v) evs ->
     (exists i, in_slot (obj st) i addr) /\
     (forall i, in_slot (obj st) i addr -> _filled (obj st) !! i = Some false)) /\
  (forall p, In (EvSubmit p) evs -> p <> NULL ->
     exists i, bufs !! i = Some p /\ _filled (obj st') !! i = Some true) /\
  (_running (obj st) = false -> _running (obj st') = false).
Proof.
  intros Hinv Hexec.
  assert (Hquiet : forall st1, st' = st1 -> pool_inv n spb bufs P C R st1 ->
             _filled (obj st1) = _filled (obj st) ->
             (_running (obj st) = false -> _running (obj st1) = false) ->
             (forall i, assignments i evs = []) ->
             (forall addr v, ~ In (EvStore addr v) evs) ->
             (forall p, ~ In (EvSubmit p) evs) ->
             (exists P' C' R', pool_inv n spb bufs P' C' R' st') /\
             filled_follows evs (_filled (obj st)) (_filled (obj st')) /\
             (forall addr v, In (EvStore addr v) evs ->
                (exists i, in_slot (obj st) i addr) /\
                (forall i, in_slot (obj st) i addr -> _filled (obj st) !! i = Some false)) /\
             (forall p, In (EvSubmit p) evs -> p <> NULL ->
                exists i, bufs !! i = Some p /\ _filled (obj st') !! i = Some true) /\
             (_running (obj st) = false -> _running (obj st') = false)).
  { intros st1 -> H1 Hf Hr Hnone Hst Hsub.
    split; [eauto|]. split; [rewrite Hf; apply filled_follows_same; exact Hnone|].
    split; [intros addr v Hev; destruct (Hst _ _ Hev)|].
    split; [intros p Hev; destruct (Hsub _ Hev) | exact Hr]. }
  destruct a; cbn [exec] in Hexec.
  - (* work is called *)
    destruct (pc (frame st)) eqn:Hpc; try discriminate.
    injection Hexec as <- <-.
    eapply Hquiet; [reflexivity|..]; try reflexivity; auto; try (intros ? ? []); try (intros ? []).
    fields Hinv. constructor; cbn; auto.
    unfold work_inv in *. rewrite Hpc in Hwork. cbn. unfold is_running. auto.
  - (* a step of work *)
    destruct (work_step (obj st) (frame st)) as [[[s' f'] evs']|] eqn:Hstep;
      [|discriminate].
    cbn [mbind option_bind] in Hexec. injection Hexec as <- <-.
    destruct (work_step_safe n spb bufs P C R st s' f' evs' Hinv Hstep)
      as ([P' Hinv'] & Hfol & Hst & Hsub & Hrun).
    rewrite obj_deliver. cbn [obj with_frame with_obj].
    split; [exists P', C, R; apply pool_inv_deliver; exact Hinv'|].
    split; [exact Hfol|].
    split.
    { intros addr v Hev. destruct (Hst addr v Hev) as [Hin Hfalse].
      split; [eauto|]. intros i Hi.
      assert (i = P mod n) as ->; [|exact Hfalse].
      apply (in_slot_unique (obj st) _ _ addr); [|assumption..].
      fields Hinv. rewrite Hnum, Hspb, Hbufs. exact Halloc. }
    split; [intros p Hev; destruct (Hsub _ Hev) | congruence].
  - (* the first callbacks *)
    destruct (engine st) eqn:Hidle; try discriminate.
    destruct (length (in_flight st) <? num_transfers st) eqn:Hroom; [|discriminate].
    apply Nat.ltb_lt in Hroom.
    destruct (callback_safe n spb bufs P C R st st' NULL (in_flight st) evs Hinv Hidle
                ltac:(left; auto) Hexec)
      as ((C' & R' & Hinv') & Hfol & Hst & Hsub & Hrun).
    split; [eauto|]. split; [exact Hfol|].
    split; [intros addr v Hev; destruct (Hst _ _ Hev)|].
    split; [exact Hsub | congruence].
  - (* a callback that returns a buffer *)
    destruct (engine st) eqn:Hidle; try discriminate.
    destruct (in_flight st) as [|samples rest] eqn:Hq; [discriminate|].
    destruct (callback_safe n spb bufs P C R st st' samples rest evs Hinv Hidle
                ltac:(right; auto) Hexec)
      as ((C' & R' & Hinv') & Hfol & Hst & Hsub & Hrun).
    split; [eauto|]. split; [exact Hfol|].
    split; [intros addr v Hev; destruct (Hst _ _ Hev)|].
    split; [exact Hsub | congruence].
  - (* the callback leaves its wait *)
    destruct (engine st) eqn:Hwoken; try discriminate.
    destruct (get_next_buffer_resume (obj st)) as [[o evs']|] eqn:Hres; [|discriminate].
    cbn [mbind option_bind] in Hexec. injection Hexec as <- <-.
    destruct (resume_safe n spb bufs P C R st st o evs' Hinv Hwoken Hres)
      as ([C' Hinv'] & Hfol & Hst & Hsub & Hrun).
    rewrite obj_deliver, obj_after_callback.
    split; [eauto|]. split; [exact Hfol|].
    split; [intros addr v Hev; destruct (Hst _ _ Hev)|].
    split; [exact Hsub | congruence].
  - (* the stream ends on an error *)
    destruct (engine st) eqn:Hidle; try discriminate.
    injection Hexec as <- <-.
    eapply Hquiet; [reflexivity|..]; try reflexivity; auto; try (intros ? ? []); try (intros ? []).
    apply pool_inv_with_engine; [discriminate..|assumption].
  - (* write_task returns *)
    destruct (engine st) eqn:Hstopped; try discriminate.
    injection Hexec as <- <-.
    eapply Hquiet; [reflexivity|..]; try reflexivity; auto.
    + apply pool_inv_with_engine; [discriminate..|].
      apply pool_inv_flag_cleared. assumption.
    + intros addr v [H|[]]; discriminate.
    + intros p [H|[]]; discriminate.
  - (* a spurious wake-up *)
    injection Hexec as <- <-.
    eapply Hquiet; [reflexivity|..]; try reflexivity; auto; try (intros ? ? []); try (intros ? []).
    + apply pool_inv_wake. assumption.
    + destruct c; cbn [wake]; [destruct (engine st) | destruct (pc (frame st))];
        reflexivity.
    + destruct c; cbn [wake]; [destruct (engine st) | destruct (pc (frame st))];
        auto.
  - (* the destructor *)
    unfold destructor_step in Hexec.
    destruct (dtor st) eqn:Hd; try discriminate.
    + injection Hexec as <- <-.
      eapply Hquiet; [reflexivity|..]; try reflexivity; auto;
        try (intros ? ? Hev; cbn in Hev; intuition discriminate);
        try (intros ? Hev; cbn in Hev; intuition discriminate).
      apply pool_inv_with_dtor, pool_inv_flag_cleared. assumption.
    + cbv zeta in Hexec.
      remember (deliver [EvLock; EvNotifyAll samp_avail; EvNotifyAll buffer_emptied;
                         EvUnlock] (with_dtor DBroadcast st)) as st1 eqn:Hst1.
      injection Hexec as <- <-.
      assert (Hobj : obj st1 = obj st) by (rewrite Hst1, obj_deliver; reflexivity).
      eapply Hquiet; [reflexivity|..]; rewrite ?Hobj; try reflexivity; auto;
        try (intros ? ? Hev; cbn in Hev; intuition discriminate);
        try (intros ? Hev; cbn in Hev; intuition discriminate).
      rewrite Hst1. apply pool_inv_deliver, pool_inv_with_dtor. assumption.
    + destruct (engine st); try discriminate. injection Hexec as <- <-.
      eapply Hquiet; [reflexivity|..]; try reflexivity; auto;
        try (intros ? ? Hev; cbn in Hev; intuition discriminate);
        try (intros ? Hev; cbn in Hev; intuition discriminate).
      apply pool_inv_with_dtor. assumption.
    + injection Hexec as <- <-.
      eapply Hquiet; [reflexivity|..]; try reflexivity; auto;
        try (intros ? ? Hev; cbn in Hev; intuition discriminate);
        try (intros ? Hev; cbn in Hev; intuition discriminate).
      apply pool_inv_with_dtor. assumption.
Qed.

End Interleavings.

(** ** Executions from the constructed state *)

Section Reachability.
Import Config.

Lemma outcome_spec {A} (f : system * list event -> A) (sched : list action)
    (c : stream_config) (bufs : list Z) (v : A) :
  f <$> outcome sched c bufs = Some v ->
  exists st0 st tr,
    initial c bufs = Some st0 /\ run sched st0 = Some (st, tr) /\ f (st, tr) = v.
Proof.
  unfold outcome. intros H.
  destruct (initial c bufs) as [st0|]; [|discriminate].
  cbn [mbind option_bind] in H.
  destruct (run sched st0) as [[st tr]|] eqn:Hrun; [|discriminate].
  cbn in H. injection H as <-.
  exists st0, st, tr. split; [reflexivity|]. split; [exact Hrun | reflexivity].
Qed.

Lemma fill_and_drain_runs :
  (fun _ => tt) <$> outcome fill_and_drain two_buffers two_buffers_at = Some tt.
Proof. vm_compute. reflexivity. Qed.


Lemma choose_samples_per_buffer_ge (len : Z) : (1024 <= choose_samples_per_buffer len)%Z.
Proof.
  unfold choose_samples_per_buffer, NUM_SAMPLES_PER_BUFFER.
  destruct (0 =? len)%Z; [lia|]. cbv zeta.
  destruct (Z.ltb_spec (len / (2 * sizeof_int16_t)) 1024); cbn [orb]; [lia|].
  destruct (negb _); lia.
Qed.

Lemma initial_inv (lexical_cast : string -> option Z) (dict : dict_t)
    (c : stream_config) (bufs : list Z) (st0 : system) :
  configure lexical_cast dict = Ok c ->
  well_allocated (Z.to_nat (num_buffers c)) (Z.to_nat (samples_per_buffer c)) bufs ->
  initial c bufs = Some st0 ->
  pool_inv (Z.to_nat (num_buffers c)) (Z.to_nat (samples_per_buffer c)) bufs 0 0 0 st0 /\
  _filled (obj st0) = replicate (Z.to_nat (num_buffers c)) false.
Proof.
  intros Hc Hal Hinit.
  destruct (configure_inv lexical_cast dict c Hc) as (nb & len & t & _ & _ & _ & Hceq).
  assert (2 <= num_buffers c)%Z as Hnb by (rewrite Hceq; apply choose_num_buffers_ge).
  assert (1024 <= samples_per_buffer c)%Z as Hs
    by (rewrite Hceq; apply choose_samples_per_buffer_ge).
  assert (transfers c <= num_buffers c / 2)%Z as Ht.
  { rewrite Hceq. cbn [transfers num_buffers]. apply choose_transfers_le.
    pose proof (choose_num_buffers_ge nb). lia. }
  assert (num_buffers c / 2 <= num_buffers c)%Z
    by (apply Z.div_le_upper_bound; lia).
  unfold initial in Hinit.
  destruct (bufs !! 0) as [p0|] eqn:Hp0; [|discriminate].
  cbn [mbind option_bind] in Hinit. injection Hinit as <-.
  split; [|reflexivity].
  constructor; cbn; auto; try lia.
  all: try (rewrite length_replicate; reflexivity).
  all: try (unfold work_inv; cbn; lia).
  all: try (unfold buffer_at; rewrite Nat.Div0.mod_0_l, Hp0; cbn; lia).
  all: try (intros [|]; discriminate).
  all: try (symmetry; apply Nat.Div0.mod_0_l).
  intros i b Hb. apply lookup_replicate in Hb as [-> _].
  split; [discriminate|]. intros (j & Hj & _). lia.
Qed.

Lemma reachable_inv (n spb : nat) (bufs : list Z) (st0 st : system) (tr : list event) :
  pool_inv n spb bufs 0 0 0 st0 ->
  reachable st0 st tr ->
  (exists P C R, pool_inv n spb bufs P C R st) /\
  filled_follows tr (_filled (obj st0)) (_filled (obj st)) /\
  (_running (obj st0) = false -> _running (obj st) = false).
Proof.
  intros H0 Hreach. induction Hreach as [|st tr a st' evs Hreach IH Hexec].
  - split; [eauto|]. split; [apply filled_follows_same; reflexivity | auto].
  - destruct IH as ((P & C & R & Hinv) & Hfol & Hrun).
    destruct (exec_safe n spb bufs P C R st st' a evs Hinv Hexec)
      as (Hinv' & Hfol' & _ & _ & Hrun').
    split; [exact Hinv'|].
    split; [exact (filled_follows_trans _ _ _ _ _ Hfol Hfol') | auto].
Qed.

Lemma reachable_after (st0 st1 st : system) (a : action) (evs tr : list event) :
  exec a st0 = Some (st1, evs) ->
  reachable st1 st tr ->
  reachable st0 st (evs ++ tr).
Proof.
  intros Hexec Hreach. induction Hreach as [|st tr b st' evs' Hreach IH Hexec'].
  - rewrite app_nil_r. rewrite <- (app_nil_l evs).
    eapply reach_step; [apply reach_init | exact Hexec].
  - rewrite app_assoc. eapply reach_step; eassumption.
Qed.

Lemma run_reachable (sched : list action) :
  forall st0 st tr, run sched st0 = Some (st, tr) -> reachable st0 st tr.
Proof.
  induction sched as [|a sched IH]; intros st0 st tr Hrun; cbn [run] in Hrun.
  - injection Hrun as <- <-. apply reach_init.
  - destruct (exec a st0) as [[st1 evs1]|] eqn:Hexec; [|discriminate].
    cbn [mbind option_bind] in Hrun.
    destruct (run sched st1) as [[st2 evs2]|] eqn:Hrest; [|discriminate].
    cbn [mbind option_bind] in Hrun. injection Hrun as <- <-.
    eapply reachable_after; [exact Hexec | apply IH; exact Hrest].
Qed.

Lemma flips_alternates (l : list bool) :
  forall b b', flips b l = Some b' -> alternates (negb b) l.
Proof.
  induction l as [|x l IH]; intros b b' H; cbn [flips alternates] in *; [exact I|].
  case_bool_decide as Hx; [|discriminate].
  split; [assumption|]. rewrite <- Hx. eapply IH. exact H.
Qed.

Lemma two_buffers_allocated : well_allocated 2 1024 two_buffers_at.
Proof.
  split; [reflexivity|]. split.
  - intros [|[|i]] p H; cbn in H; try discriminate; injection H as <-; discriminate.
  - intros [|[|i]] [|[|j]] p q Hp Hq Hne; cbn in Hp, Hq; try discriminate;
      try contradiction; injection Hp as <-; injection Hq as <-; lia.
Qed.

End Reachability.

Section PoolClaims.
Import Config.

(** C3: from the state the constructor leaves, along every interleaving
    of the steps of [work], of the callback and of the destructor: the
    values assigned to [_filled[i]] alternate true, false, true, ... for
    every slot [i], and the flag holds the last of them; a buffer that
    [get_next_buffer] returns is the buffer of a slot whose flag is true;
    and every store of [work] falls into a slot whose flag is false. *)
Theorem filled_flags_alternate :
  forall (lexical_cast : string -> option Z) (dict : dict_t) (c : stream_config)
         (bufs : list Z) (st0 st : system) (tr : list event),
    configure lexical_cast dict = Ok c ->
    well_allocated (Z.to_nat (num_buffers c)) (Z.to_nat (samples_per_buffer c)) bufs ->
    initial c bufs = Some st0 ->
    reachable st0 st tr ->
    (forall i, i < Z.to_nat (num_buffers c) ->
       alternates true (assignments i tr) /\
       flips false (assignments i tr) = _filled (obj st) !! i) /\
    (forall a st' evs, exec a st = Some (st', evs) ->
       (forall p, In (EvSubmit p) evs -> p <> NULL ->
          exists i, _buffers (obj st') !! i = Some p /\
                    _filled (obj st') !! i = Some true) /\
       (forall addr v, In (EvStore addr v) evs ->
          (exists i, in_slot (obj st) i addr) /\
          (forall i, in_slot (obj st) i addr ->
                     _filled (obj st) !! i = Some false))).
Proof.
  intros lc dict c bufs st0 st tr Hc Hal Hinit Hreach.
  destruct (initial_inv lc dict c bufs st0 Hc Hal Hinit) as [H0 Hf0].
  destruct (reachable_inv _ _ _ _ _ _ H0 Hreach) as ((P & C & R & Hinv) & Hfol & _).
  split.
  - intros i Hi.
    assert (is_Some (_filled (obj st) !! i)) as [b Hb].
    { apply lookup_lt_is_Some. rewrite (inv_len _ _ _ _ _ _ _ Hinv). exact Hi. }
    destruct (Hfol i b Hb) as (b0 & Hb0 & Hflips).
    rewrite Hf0 in Hb0. apply lookup_replicate in Hb0 as [-> _].
    split; [exact (flips_alternates _ _ _ Hflips) | congruence].
  - intros a st' evs Hexec.
    destruct (exec_safe _ _ _ P C R st st' a evs Hinv Hexec)
      as ((P' & C' & R' & Hinv') & _ & Hst & Hsub & _).
    split; [|exact Hst].
    intros p Hev Hp. rewrite (inv_bufs _ _ _ _ _ _ _ Hinv'). exact (Hsub p Hev Hp).
Qed.

Lemma filled_flags_alternate_witness :
  exists st0 st tr,
    initial two_buffers two_buffers_at = Some st0 /\
    run fill_and_drain st0 = Some (st, tr) /\
    (forall i, i < 2 ->
       alternates true (assignments i tr) /\
       flips false (assignments i tr) = _filled (obj st) !! i) /\
    (forall a st' evs, exec a st = Some (st', evs) ->
       (forall p, In (EvSubmit p) evs -> p <> NULL ->
          exists i, _buffers (obj st') !! i = Some p /\
                    _filled (obj st') !! i = Some true) /\
       (forall addr v, In (EvStore addr v) evs ->
          (exists i, in_slot (obj st) i addr) /\
          (forall i, in_slot (obj st) i addr ->
                     _filled (obj st) !! i = Some false))).
Proof.
  destruct (outcome_spec _ _ _ _ _ fill_and_drain_runs) as (st0 & st & tr & H0 & Hrun & _).
  exists st0, st, tr. split; [exact H0|]. split; [exact Hrun|].
  apply (filled_flags_alternate decimal args_two_buffers two_buffers
           two_buffers_at st0 st tr).
  - vm_compute. reflexivity.
  - exact two_buffers_allocated.
  - exact H0.
  - apply (run_reachable fill_and_drain). exact Hrun.
Defined.

End PoolClaims.

Section CallbackClaims.

Lemma next_or_wait_leaves (s : sink) (o : callback_state) (evs : list event) :
  next_or_wait s = Some (o, evs) ->
  leaves_loop s o evs /\ _filled (sink_of o) = _filled s.
Proof.
  unfold next_or_wait, leaves_loop, same_pool, is_running. intros H.
  destruct (_running s) eqn:Hrun.
  - destruct (_filled s !! _next_to_tx s) as [full|] eqn:Hfull; [|discriminate].
    cbn [mbind option_bind] in H. destruct full; cbn [negb] in H.
    + destruct (_buffers s !! _next_to_tx s) as [ret|] eqn:Hret; [|discriminate].
      cbn [mbind option_bind] in H. injection H as <- <-. cbn.
      repeat split; auto; discriminate.
    + injection H as <- <-. cbn. repeat split; auto.
  - injection H as <- <-. cbn. repeat split; auto; discriminate.
Qed.

Lemma next_or_wait_defined (s : sink) :
  _next_to_tx s < length (_filled s) ->
  _next_to_tx s < length (_buffers s) ->
  is_Some (next_or_wait s).
Proof.
  intros H1 H2. unfold next_or_wait.
  apply lookup_lt_is_Some in H1 as [full Hfull].
  apply lookup_lt_is_Some in H2 as [ret Hret].
  rewrite Hfull, Hret. cbn. destruct (is_running s), full; cbn; eauto.
Qed.

Lemma buffer2index_none (bufs : list Z) (p : Z) (n : nat) :
  (forall k, k < n -> bufs !! k <> Some p) ->
  exists what, buffer2index bufs p n = Throw what.
Proof.
  intros Hnone. unfold buffer2index.
  destruct (buffer2index_from bufs p 0 n) as [k|what] eqn:Hidx; [|eauto].
  destruct (buffer2index_from_sound _ _ _ _ _ Hidx) as [Hk Hlt].
  destruct (Hnone k ltac:(lia) Hk).
Qed.

Lemma buffer2index_first (bufs : list Z) (p : Z) (n k : nat) :
  k < n -> bufs !! k = Some p ->
  (forall k', k' < k -> bufs !! k' <> Some p) ->
  buffer2index bufs p n = Ok k.
Proof.
  intros Hk Hp Hfirst. apply buffer2index_from_found; try lia; [exact Hp|].
  intros k' _ Hlt. apply Hfirst. exact Hlt.
Qed.

Lemma buffer2index_some (bufs : list Z) (p : Z) (n k : nat) :
  k < n -> bufs !! k = Some p -> exists idx, buffer2index bufs p n = Ok idx.
Proof.
  intros Hk Hp. unfold buffer2index.
  assert (Hgen : forall m i, i <= k -> k < i + m ->
            exists idx, buffer2index_from bufs p i m = Ok idx).
  { induction m as [|m IH]; intros i Hi Hlt; [lia|]. cbn [buffer2index_from].
    case_bool_decide as Hhere; [eauto|].
    apply IH; [|lia]. destruct (decide (i = k)) as [->|]; [contradiction | lia]. }
  apply Hgen; lia.
Qed.

(** C4: for every call of [get_next_buffer].  A non-null [samples] that
    is none of the buffers makes [buffer2index] throw.  A non-null
    [samples] that is a buffer is resolved to the first slot that holds it;
    with the lock held that slot is marked unfilled and [_buffer_emptied]
    is signalled, before any wait, and no other flag changes.  Then the
    call waits while the running flag is up and the slot at [_next_to_tx]
    is not filled; when it leaves the loop, at once or after a wake-up, it
    returns the buffer at [_next_to_tx] and moves [_next_to_tx] one
    further modulo the pool size if the running flag is up, and returns
    [NULL], leaving [_next_to_tx] where it was, if it is down.  No other
    member changes, and with [_next_to_tx] inside the arrays the call is
    defined. *)
Theorem get_next_buffer_contract :
  forall (samples : Z) (s : sink),
    (samples <> NULL ->
     (forall k, k < _num_buffers s -> _buffers s !! k <> Some samples) ->
     exists what, get_next_buffer samples s = Throw what) /\
    (forall k o evs,
        samples <> NULL ->
        k < _num_buffers s -> _buffers s !! k = Some samples ->
        (forall k', k' < k -> _buffers s !! k' <> Some samples) ->
        get_next_buffer samples s = Ok (Some (o, evs)) ->
        exists evs2,
          evs = EvLock :: EvSetFilled k false :: EvNotifyOne buffer_emptied :: evs2 /\
          (k < length (_filled s) -> _filled (sink_of o) !! k = Some false) /\
          (forall j, j <> k -> _filled (sink_of o) !! j = _filled s !! j) /\
          leaves_loop s o evs2) /\
    (forall o evs,
        get_next_buffer NULL s = Ok (Some (o, evs)) ->
        exists evs2,
          evs = EvLock :: evs2 /\ _filled (sink_of o) = _filled s /\
          leaves_loop s o evs2) /\
    (forall o evs,
        get_next_buffer_resume s = Some (o, evs) ->
        exists evs2,
          evs = EvLock :: evs2 /\ _filled (sink_of o) = _filled s /\
          leaves_loop s o evs2) /\
    (_next_to_tx s < length (_filled s) ->
     _next_to_tx s < length (_buffers s) ->
     is_Some (get_next_buffer_resume s) /\
     (exists r, get_next_buffer NULL s = Ok (Some r)) /\
     (forall k, k < _num_buffers s -> _buffers s !! k = Some samples ->
                exists r, get_next_buffer samples s = Ok (Some r))).
Proof.
  intros samples s. split; [|split; [|split; [|split]]].
  - intros Hnn Hnone. unfold get_next_buffer, mark_emptied.
    apply Z.eqb_neq in Hnn. rewrite Hnn.
    destruct (buffer2index_none _ _ _ Hnone) as [what ->]. exists what. reflexivity.
  - intros k o evs Hnn Hk Hp Hfirst H. unfold get_next_buffer, mark_emptied in H.
    apply Z.eqb_neq in Hnn. rewrite Hnn in H.
    rewrite (buffer2index_first _ _ _ _ Hk Hp Hfirst) in H.
    cbn [mbind result_bind] in H.
    destruct (next_or_wait _) as [[o' evs2]|] eqn:Hnext; [|discriminate].
    cbn [mbind option_bind] in H. injection H as <- <-.
    destruct (next_or_wait_leaves _ _ _ Hnext) as [Hleaves Hfl].
    cbn [_filled with_filled] in Hfl.
    exists evs2. split; [reflexivity|]. rewrite Hfl.
    split; [intros Hlen; apply list_lookup_insert_eq; exact Hlen|].
    split; [intros j Hj; apply list_lookup_insert_ne; congruence|].
    exact Hleaves.
  - intros o evs H. unfold get_next_buffer, mark_emptied in H.
    cbn [Z.eqb NULL mbind result_bind] in H.
    destruct (next_or_wait s) as [[o' evs2]|] eqn:Hnext; [|discriminate].
    cbn [mbind option_bind] in H. injection H as <- <-.
    destruct (next_or_wait_leaves _ _ _ Hnext) as [Hleaves Hfl].
    exists evs2. auto.
  - intros o evs H. unfold get_next_buffer_resume in H.
    destruct (next_or_wait s) as [[o' evs2]|] eqn:Hnext; [|discriminate].
    cbn [mbind option_bind] in H. injection H as <- <-.
    destruct (next_or_wait_leaves _ _ _ Hnext) as [Hleaves Hfl].
    exists evs2. auto.
  - intros H1 H2. unfold get_next_buffer_resume, get_next_buffer, mark_emptied.
    split; [|split].
    + destruct (next_or_wait_defined s H1 H2) as [[o evs] ->]. cbn. eauto.
    + cbn [Z.eqb NULL mbind result_bind].
      destruct (next_or_wait_defined s H1 H2) as [[o evs] ->]. cbn. eauto.
    + intros k Hk Hp. destruct (samples =? NULL)%Z; cbn [mbind result_bind].
      * destruct (next_or_wait_defined s H1 H2) as [[o evs] ->]. cbn. eauto.
      * destruct (buffer2index_some _ _ _ _ Hk Hp) as [idx ->].
        cbn [mbind result_bind].
        destruct (next_or_wait_defined
                    (with_filled (<[idx:=false]> (_filled s)) s)) as [[o evs] ->];
          cbn; rewrite ?length_insert; eauto.
Qed.

Lemma get_next_buffer_contract_witness :
  exists s' : sink,
    get_next_buffer 65536 draining_sink
    = Ok (Some (Returned 131072 s',
                [EvLock; EvSetFilled 0 false; EvNotifyOne buffer_emptied;
                 EvUnlock; EvSubmit 131072])) /\
    _filled s' !! 0 = Some false /\ _filled s' !! 1 = Some true /\
    _next_to_tx s' = 0 /\ _buf_index s' = 0 /\ _running s' = true.
Proof.
  destruct (get_next_buffer_contract 65536 draining_sink)
    as (_ & Hmark & _ & _ & Hdef).
  destruct Hdef as (_ & _ & Hsome); [cbn; lia | cbn; lia |].
  destruct (Hsome 0) as [[o evs] Hrun]; [cbn; lia | reflexivity |].
  destruct (Hmark 0 o evs) as (evs2 & -> & H0 & Hrest & Hpool & Hexit);
    [discriminate | cbn; lia | reflexivity | intros k' Hk'; lia | exact Hrun |].
  specialize (H0 ltac:(cbn; lia)). specialize (Hrest 1 ltac:(lia)).
  destruct Hpool as (_ & _ & _ & Hbi & _ & _ & Hflag & _).
  destruct o as [s' | ret s']; cbn [sink_of] in *.
  - destruct Hexit as (_ & Hfalse & _).
    change (_next_to_tx draining_sink) with 1 in Hfalse.
    rewrite Hrest in Hfalse. discriminate.
  - destruct Hexit as (-> & Hup & _).
    destruct (Hup eq_refl) as (_ & Hret & Hntx). injection Hret as <-.
    exists s'. rewrite Hrun. repeat split; assumption.
Defined.

End CallbackClaims.

Section WorkClaims.
Import Config.



End WorkClaims.

Section Shutdown.





















End Shutdown.

Section Traces.
















End Traces.

Section ShutdownClaims.
Import Config.




End ShutdownClaims.

Section ConfigMore.
Import Config.
Local Open Scope Z_scope.

(** X1: the samples per buffer in effect are a multiple of 1024, at least
    1024, and take no more bytes than the buflen asked for unless they are
    the default. *)
Theorem samples_per_buffer_multiple :
  forall (lexical_cast : string -> option Z) (dict : dict_t) (c : stream_config)
         (buflen : Z),
    configure lexical_cast dict = Ok c ->
    read_key lexical_cast "buflen" 0 dict = Ok buflen ->
    1024 <= samples_per_buffer c /\
    samples_per_buffer c mod 1024 = 0 /\
    (samples_per_buffer c = NUM_SAMPLES_PER_BUFFER \/
     2 * sizeof_int16_t * samples_per_buffer c <= buflen).
Proof.
  intros lc dict c buflen Hc Hlen.
  destruct (configure_inv lc dict c Hc) as (nb & len & t & _ & Hlen' & _ & ->).
  rewrite Hlen in Hlen'. injection Hlen' as <-.
  cbn [samples_per_buffer]. unfold choose_samples_per_buffer, NUM_SAMPLES_PER_BUFFER.
  change (2 * sizeof_int16_t) with 4. cbv zeta.
  destruct (Z.eqb_spec 0 buflen) as [<- | Hnz]; [repeat split; auto; lia|].
  destruct (Z.ltb_spec (buflen / 4) 1024); cbn [orb]; [repeat split; auto; lia|].
  destruct (Z.eqb_spec ((buflen / 4) mod 1024) 0); cbn [negb];
    [|repeat split; auto; lia].
  split; [lia|]. split; [assumption|]. right.
  pose proof (Z.mul_div_le buflen 4). lia.
Qed.

Lemma samples_per_buffer_multiple_witness :
  1024 <= 2048 /\ 2048 mod 1024 = 0 /\
  (2048 = NUM_SAMPLES_PER_BUFFER \/ 2 * sizeof_int16_t * 2048 <= 8192).
Proof.
  apply (samples_per_buffer_multiple decimal args_small
           {| num_buffers := 8; samples_per_buffer := 2048; transfers := 4 |} 8192);
    vm_compute; reflexivity.
Defined.

(** X2: with fewer than 2^33 buffers the transfer count in effect is at
    least 1 and twice it is at most the buffer count. *)
Theorem transfers_at_least_one :
  forall (lexical_cast : string -> option Z) (dict : dict_t) (c : stream_config),
    configure lexical_cast dict = Ok c ->
    num_buffers c < 2 ^ 33 ->
    1 <= transfers c /\ 2 * transfers c <= num_buffers c.
Proof.
  intros lc dict c Hc Hsmall.
  destruct (configure_inv lc dict c Hc) as (nb & len & t & _ & _ & _ & ->).
  cbn [transfers num_buffers] in *.
  pose proof (choose_num_buffers_ge nb) as Hge.
  pose proof (choose_transfers_le (to_uint t) (choose_num_buffers nb) ltac:(lia)) as Hle.
  pose proof (Z.mul_div_le (choose_num_buffers nb) 2 ltac:(lia)) as Hhalf.
  split; [|lia].
  unfold choose_transfers in *.
  assert (1 <= choose_num_buffers nb / 2) as H1
    by (apply Z.div_le_lower_bound; lia).
  assert (choose_num_buffers nb / 2 < 2 ^ 32) as H2
    by (apply Z.div_lt_upper_bound; lia).
  pose proof (to_uint_range t) as Ht.
  destruct (Z.eqb_spec (to_uint t) 0); cbn [orb].
  - unfold to_uint. rewrite Z.mod_small; lia.
  - destruct (to_uint t >? choose_num_buffers nb / 2).
    + unfold to_uint. rewrite Z.mod_small; lia.
    + lia.
Qed.

Lemma transfers_at_least_one_witness : 1 <= 4 /\ 2 * 4 <= 8.
Proof.
  apply (transfers_at_least_one decimal args_small
           {| num_buffers := 8; samples_per_buffer := 2048; transfers := 4 |}).
  - vm_compute. reflexivity.
  - reflexivity.
Defined.

Lemma read_key_throws (lc : string -> option Z) (key : string) (init : Z)
    (dict : dict_t) :
  (exists what, read_key lc key init dict = Throw what) <->
  (exists value, dict !! key = Some value /\ lc value = None).
Proof.
  unfold read_key. destruct (dict !! key) as [value|].
  - destruct (lc value) eqn:E.
    + split; [intros [w Hw]; discriminate|].
      intros (v & [= <-] & Hv). congruence.
    + split; [eauto|]. intros _. eauto.
  - split; [intros [w Hw]; discriminate | intros (v & Hv & _); discriminate].
Qed.

(** X3: the configuration is refused exactly when one of the keys buffers,
    buflen and transfers is present with a value that the cast rejects; a
    key that is absent is never an error, and with all three absent the
    values are 32 buffers, 4096 samples and 16 transfers. *)
Theorem configure_throws_iff :
  forall (lexical_cast : string -> option Z) (dict : dict_t),
    ((exists what, configure lexical_cast dict = Throw what) <->
     (exists key value,
         (key = "buffers" \/ key = "buflen" \/ key = "transfers")%string /\
         dict !! key = Some value /\ lexical_cast value = None)) /\
    (dict !! "buffers" = None -> dict !! "buflen" = None ->
     dict !! "transfers" = None ->
     configure lexical_cast dict
     = Ok {| num_buffers := 32; samples_per_buffer := 4096; transfers := 16 |}).
Proof.
  intros lc dict. split.
  - pose proof (read_key_throws lc "buffers" 0 dict) as Hb.
    pose proof (read_key_throws lc "buflen" 0 dict) as Hl.
    pose proof (read_key_throws lc "transfers" 0 dict) as Ht.
    unfold configure.
    destruct (read_key lc "buffers" 0 dict) as [nb|w1] eqn:E1.
    + destruct (read_key lc "buflen" 0 dict) as [len|w2] eqn:E2.
      * destruct (read_key lc "transfers" 0 dict) as [t|w3] eqn:E3.
        -- cbn. split; [intros [w Hw]; discriminate|].
           intros (key & value & [-> | [-> | ->] ] & Hk & Hv).
           ++ destruct (proj2 Hb) as [w Hw]; [eauto | discriminate].
           ++ destruct (proj2 Hl) as [w Hw]; [eauto | discriminate].
           ++ destruct (proj2 Ht) as [w Hw]; [eauto | discriminate].
        -- cbn. split; [|eauto]. intros _.
           destruct (proj1 Ht) as (v & Hk & Hv); [eauto|].
           exists "transfers"%string, v. auto.
      * cbn. split; [|eauto]. intros _.
        destruct (proj1 Hl) as (v & Hk & Hv); [eauto|].
        exists "buflen"%string, v. auto.
    + cbn. split; [|eauto]. intros _.
      destruct (proj1 Hb) as (v & Hk & Hv); [eauto|].
      exists "buffers"%string, v. auto.
  - intros H1 H2 H3. unfold configure, read_key. rewrite H1, H2, H3. reflexivity.
Qed.

End ConfigMore.

Section IndexMore.

(** X4: [buffer2index] returns the first index below [num_buffers] whose
    buffer is the pointer given, and throws exactly when there is none. *)
Theorem buffer2index_first_match :
  forall (buffers : list Z) (current : Z) (num_buffers : nat),
    (forall k, buffer2index buffers current num_buffers = Ok k <->
       (k < num_buffers /\ buffers !! k = Some current /\
        forall k', k' < k -> buffers !! k' <> Some current)) /\
    ((exists what, buffer2index buffers current num_buffers = Throw what) <->
     forall k, k < num_buffers -> buffers !! k <> Some current).
Proof.
  intros buffers current n. unfold buffer2index.
  assert (Hgen : forall m i,
    (forall k, buffer2index_from buffers current i m = Ok k <->
       (i <= k < i + m /\ buffers !! k = Some current /\
        forall k', i <= k' -> k' < k -> buffers !! k' <> Some current)) /\
    ((exists what, buffer2index_from buffers current i m = Throw what) <->
     forall k, i <= k -> k < i + m -> buffers !! k <> Some current)).
  { induction m as [|m IH]; intros i; cbn [buffer2index_from].
    - split.
      + intros k. split; [discriminate | intros [? _]; lia].
      + split; [intros _ k; lia | eauto].
    - destruct (IH (S i)) as [IHok IHthrow]. case_bool_decide as Hi.
      + split.
        * intros k. split.
          -- intros [= <-]. split; [lia|]. split; [assumption|]. intros; lia.
          -- intros (Hk & Hcur & Hfirst).
             destruct (decide (i = k)) as [->|Hne]; [reflexivity|].
             exfalso. apply (Hfirst i); [lia | lia | assumption].
        * split; [intros [w Hw]; discriminate|].
          intros Hnone. exfalso. apply (Hnone i); [lia | lia | assumption].
      + split.
        * intros k. rewrite IHok. split.
          -- intros (Hk & Hcur & Hfirst). split; [lia|]. split; [assumption|].
             intros k' H1 H2. destruct (decide (k' = i)) as [->|]; [assumption|].
             apply Hfirst; lia.
          -- intros (Hk & Hcur & Hfirst).
             assert (i <> k) by congruence.
             split; [lia|]. split; [assumption|]. intros k' H1 H2. apply Hfirst; lia.
        * rewrite IHthrow. split.
          -- intros Hnone k H1 H2. destruct (decide (k = i)) as [->|]; [assumption|].
             apply Hnone; lia.
          -- intros Hnone k H1 H2. apply Hnone; lia. }
  destruct (Hgen n 0) as [Hok Hthrow]. split.
  - intros k. rewrite Hok. split.
    + intros (Hk & Hcur & Hfirst). split; [lia|]. split; [assumption|].
      intros k' Hlt. apply Hfirst; lia.
    + intros (Hk & Hcur & Hfirst). split; [lia|]. split; [assumption|].
      intros k' _ Hlt. apply Hfirst; lia.
  - rewrite Hthrow. split; intros Hnone k; [intros Hk; apply Hnone; lia|].
    intros _ Hk. apply Hnone; lia.
Qed.

End IndexMore.

Section TunerMore.
Import Tuner.
Local Open Scope Z_scope.

(** X5: a request inside the valid range makes one write of the frequency
    cast to 32 bits and writes nothing to the error stream; the frequency is
    read back only when the write succeeded, and a failed write is a hard
    failure. *)
Theorem in_range_frequency_written :
  forall (dev : Type) (api : BladeRF dev) (range : range_t)
         (freq : spec_float) (chan : nat) (w : world dev),
    double_ltb freq (start range) || double_ltb (stop range) freq = false ->
    let set := bladerf_set_frequency (device w) (uint32_of_float freq) in
    let out := set_center_freq range freq chan w in
    device (snd out) = snd set /\
    cerr (snd out) = cerr w /\
    calls (snd out)
    = calls w ++ Call_set_frequency (uint32_of_float freq)
              :: (if fst set =? 0 then [Call_get_frequency] else []) /\
    fst out =
      (if fst set =? 0
       then if fst (bladerf_get_frequency (snd set)) =? 0
            then Ok (double_of_int (snd (bladerf_get_frequency (snd set))))
            else Throw "get_center_freq failed to get center frequency"
       else Throw "set_center_freq failed to set center frequency").
Proof.
  intros dev api range freq chan w Hin. cbv zeta.
  unfold set_center_freq, get_freq_range. rewrite Hin.
  unfold and_then, device_set, get_center_freq, and_then, device_get.
  destruct (bladerf_set_frequency (device w) (uint32_of_float freq)) as [st d].
  cbn [fst snd]. destruct (st =? 0); cbn.
  - rewrite <- app_assoc.
    destruct (fst (bladerf_get_frequency d) =? 0); cbn; auto.
  - auto.
Qed.

Lemma in_range_frequency_written_witness :
  let d := {| reg_frequency := 915000000; reg_txvga1 := -14; reg_txvga2 := 0;
              status := 0 |} in
  let out := set_center_freq bench_range (double_of_int 433920000) 0 (bench_world d) in
  device (snd out)
  = {| reg_frequency := 433920000; reg_txvga1 := -14; reg_txvga2 := 0; status := 0 |} /\
  cerr (snd out) = [] /\
  calls (snd out) = [Call_set_frequency 433920000; Call_get_frequency] /\
  fst out = Ok (double_of_int 433920000).
Proof.
  cbv zeta.
  apply (in_range_frequency_written bench bench_device bench_range
           (double_of_int 433920000) 0
           (bench_world {| reg_frequency := 915000000; reg_txvga1 := -14;
                           reg_txvga2 := 0; status := 0 |})).
  reflexivity.
Defined.

(** X6: on a device that takes the write and gives the written frequency
    back, an in-range [set_center_freq] returns the request cut to a whole
    number of Hz, and a [get_center_freq] after it returns the same value. *)
Theorem center_freq_round_trip :
  forall (dev : Type) (api : BladeRF dev) (range : range_t)
         (freq : spec_float) (chan chan' : nat) (w : world dev),
    double_ltb freq (start range) || double_ltb (stop range) freq = false ->
    let set := bladerf_set_frequency (device w) (uint32_of_float freq) in
    fst set = 0 ->
    bladerf_get_frequency (snd set) = (0, uint32_of_float freq) ->
    let out := set_center_freq range freq chan w in
    fst out = Ok (double_of_int (uint32_of_float freq)) /\
    fst (get_center_freq chan' (snd out)) = fst out.
Proof.
  intros dev api range freq chan chan' w Hin. cbv zeta. intros Hset Hget.
  unfold set_center_freq, get_freq_range. rewrite Hin.
  unfold and_then, device_set, get_center_freq, and_then, device_get.
  destruct (bladerf_set_frequency (device w) (uint32_of_float freq)) as [st d].
  cbn [fst snd] in *. subst st. cbn. rewrite Hget. cbn. rewrite Hget. cbn. auto.
Qed.

Lemma center_freq_round_trip_witness :
  let w := bench_world {| reg_frequency := 915000000; reg_txvga1 := -14;
                          reg_txvga2 := 0; status := 0 |} in
  let out := set_center_freq bench_range (double_of_int 2400000000) 1 w in
  fst out = Ok (double_of_int (uint32_of_float (double_of_int 2400000000))) /\
  fst (get_center_freq 0 (snd out)) = fst out.
Proof.
  cbv zeta.
  apply (center_freq_round_trip bench bench_device bench_range
           (double_of_int 2400000000) 1 0
           (bench_world {| reg_frequency := 915000000; reg_txvga1 := -14;
                           reg_txvga2 := 0; status := 0 |}));
    reflexivity.
Defined.

End TunerMore.

Section GainMore.
Import Tuner Gain.
Local Open Scope Z_scope.

(** X7: the names that [get_gain_names] lists are exactly the names that
    [get_gain_range], [get_gain] and [set_gain] do not refuse as unknown:
    for a listed name [get_gain_range] succeeds and the other two reach the
    device, for any other name all three throw before any call. *)
Theorem gain_names_are_the_accepted_ones :
  forall (dev : Type) (api : BladeRF dev) (gain : spec_float) (name : string)
         (chan : nat) (w : world dev),
    (In name (get_gain_names chan) <-> ~ throws (get_gain_range name chan) w) /\
    (In name (get_gain_names chan) <-> reaches_device (get_gain name chan) w) /\
    (In name (get_gain_names chan) <-> reaches_device (set_gain gain name chan) w).
Proof.
  intros dev api gain name chan w.
  assert (Hin : In name (get_gain_names chan) <-> (name = "VGA1" \/ name = "VGA2")%string).
  { unfold get_gain_names. cbn. split; intros; intuition congruence. }
  rewrite Hin. clear Hin.
  assert (Hdec : (name = "VGA1" \/ name = "VGA2")%string \/
                 (name <> "VGA1" /\ name <> "VGA2")%string).
  { destruct (name_cases name) as [[? _] | [(? & _) | (? & ? & _)]]; auto. }
  destruct Hdec as [Hk | [N1 N2]].
  - destruct (set_gain_calls gain name chan w Hk) as [rest Hs].
    pose proof (get_gain_calls name chan w Hk) as Hg.
    pose proof (get_gain_range_known name chan w Hk) as Hr.
    unfold reaches_device, throws. rewrite Hs, Hg, Hr. cbn [fst snd].
    split; [split; [intros _ [what Hw]; discriminate | auto]|].
    split; (split; [intros _; apply app_cons_neq | auto]).
  - destruct (unknown_gain_element gain name chan w N1 N2)
      as ([w1 H1] & [w2 H2] & [w3 H3]).
    unfold reaches_device, throws. rewrite H1, H2, H3. cbn [fst snd].
    split; [split; [tauto | intros Hno; exfalso; apply Hno; eauto]|].
    split; (split; [tauto | intros Hne; exfalso; apply Hne; reflexivity]).
Qed.

(** X8: the overloads without a name act on VGA2 alone: the range is 0 to 25
    in steps of 1 with no call, [get_gain] reads VGA2 once, and [set_gain]
    writes the gain cast to int to VGA2, then reads VGA2 if the write
    succeeded; no call touches VGA1. *)
Theorem unnamed_gain_is_vga2 :
  forall (dev : Type) (api : BladeRF dev) (gain : spec_float) (chan : nat)
         (w : world dev),
    get_gain_range_chan chan w
    = (Ok {| gain_start := 0; gain_stop := 25; gain_step := 1 |}, w) /\
    calls (snd (get_gain_chan chan w)) = calls w ++ [Call_get_txvga2] /\
    calls (snd (set_gain_chan gain chan w))
    = calls w ++ Call_set_txvga2 (int_of_float gain)
              :: (if fst (bladerf_set_txvga2 (device w) (int_of_float gain)) =? 0
                  then [Call_get_txvga2] else []).
Proof.
  intros dev api gain chan w. split; [reflexivity|]. split.
  - unfold get_gain_chan. rewrite get_gain_calls by auto. reflexivity.
  - unfold set_gain_chan, set_gain. unfold and_then at 1. unfold device_set.
    cbn [String.eqb Ascii.eqb Bool.eqb].
    destruct (bladerf_set_txvga2 (device w) (int_of_float gain)) as [st d].
    cbn [fst]. destruct (st =? 0); cbn [negb].
    + rewrite get_gain_calls by auto. cbn. rewrite <- app_assoc. reflexivity.
    + reflexivity.
Qed.

Lemma get_gain_vga1 {dev : Type} {api : BladeRF dev} (chan : nat) (w : world dev) :
  get_gain "VGA1" chan w
  = (if fst (bladerf_get_txvga1 (device w)) =? 0
     then Ok (double_of_int (snd (bladerf_get_txvga1 (device w))))
     else Throw "get_gain could not get VGA1 gain",
     {| device := device w; calls := calls w ++ [Call_get_txvga1]; cerr := cerr w |}).
Proof.
  unfold get_gain, and_then, device_get. cbn [String.eqb Ascii.eqb Bool.eqb].
  destruct (fst (bladerf_get_txvga1 (device w)) =? 0); reflexivity.
Qed.

Lemma set_gain_vga1 {dev : Type} {api : BladeRF dev} (gain : spec_float)
    (chan : nat) (w : world dev) :
  set_gain gain "VGA1" chan w
  = let w' := {| device := snd (bladerf_set_txvga1 (device w) (int_of_float gain));
                 calls := calls w ++ [Call_set_txvga1 (int_of_float gain)];
                 cerr := cerr w |} in
    if fst (bladerf_set_txvga1 (device w) (int_of_float gain)) =? 0
    then get_gain "VGA1" chan w'
    else (Throw "set_gain could not set VGA1 gain", w').
Proof.
  unfold set_gain, and_then, device_set. cbn [String.eqb Ascii.eqb Bool.eqb].
  destruct (bladerf_set_txvga1 (device w) (int_of_float gain)) as [st d].
  cbn [fst snd]. destruct (st =? 0); reflexivity.
Qed.

(** X9: [set_bb_gain] never throws on account of a name: it writes to VGA1
    the gain clipped to the range -35 to -4 and cast to int, reads VGA1 back
    if the write succeeded, and makes no call about VGA2. *)
Theorem bb_gain_is_clipped_vga1 :
  forall (dev : Type) (api : BladeRF dev)
         (clip : gain_range_t -> spec_float -> bool -> spec_float)
         (gain : spec_float) (chan : nat) (w : world dev),
    let written :=
      int_of_float (clip {| gain_start := -35; gain_stop := -4; gain_step := 1 |}
                      gain true) in
    let out := set_bb_gain clip gain chan w in
    calls (snd out)
    = calls w ++ Call_set_txvga1 written
              :: (if fst (bladerf_set_txvga1 (device w) written) =? 0
                  then [Call_get_txvga1] else []) /\
    (forall what, fst out = Throw what ->
       what = "set_gain could not set VGA1 gain"%string \/
       what = "get_gain could not get VGA1 gain"%string).
Proof.
  intros dev api clip gain chan w. cbv zeta.
  change (set_bb_gain clip gain chan w)
    with (set_gain (clip _vga1_range gain true) "VGA1" chan w).
  rewrite set_gain_vga1. cbv zeta. unfold _vga1_range.
  destruct (fst (bladerf_set_txvga1 _ _) =? 0).
  - rewrite get_gain_vga1. cbn [fst snd calls device].
    rewrite <- app_assoc. split; [reflexivity|].
    destruct (fst (bladerf_get_txvga1 _) =? 0); intros what Hw;
      [discriminate | injection Hw as <-; auto].
  - cbn [fst snd calls]. split; [reflexivity|]. intros what [= <-]. auto.
Qed.

End GainMore.

Section RatesMore.
Import Rates.
Local Open Scope Z_scope.

(** X10: [set_sample_rate] hands the device the rate cast to 32 bits whether
    or not the rate is a whole number, so a fraction is dropped; on success
    it returns the rate read back from the device, not the one the setting
    call reported, and after a failed setting it reads nothing. *)
Theorem sample_rate_fraction_dropped :
  forall (dev : Type) (api : BladeRF dev) (rate : spec_float) (w : world dev),
    let set := bladerf_set_sample_rate (device w) (uint32_of_float rate) in
    let out := set_sample_rate rate w in
    device (snd out) = snd set /\
    calls (snd out)
    = calls w ++ Call_set_sample_rate (uint32_of_float rate)
              :: (if fst (fst set) =? 0 then [Call_get_sample_rate] else []) /\
    (fst (fst set) = 0 -> fst out = fst (get_sample_rate (snd out))) /\
    (fst (fst set) <> 0 -> exists what, fst out = Throw what).
Proof.
  intros dev api rate w. cbv zeta.
  unfold set_sample_rate.
  assert (Hsame : forall text,
    let m := and_then
      (and_then (device_set (Call_set_sample_rate (uint32_of_float rate))
                   (fun d => bladerf_set_sample_rate d (uint32_of_float rate)))
         (fun r => if negb (fst r =? 0)
                   then throw (text ++ pretty (fst r)) else pure tt))
      (fun _ => get_sample_rate) in
    let set := bladerf_set_sample_rate (device w) (uint32_of_float rate) in
    device (snd (m w)) = snd set /\
    calls (snd (m w))
    = calls w ++ Call_set_sample_rate (uint32_of_float rate)
              :: (if fst (fst set) =? 0 then [Call_get_sample_rate] else []) /\
    (fst (fst set) = 0 -> fst (m w) = fst (get_sample_rate (snd (m w)))) /\
    (fst (fst set) <> 0 -> exists what, fst (m w) = Throw what)).
  { intros text. cbv zeta.
    unfold and_then, device_set, get_sample_rate, and_then, device_get.
    destruct (bladerf_set_sample_rate (device w) (uint32_of_float rate))
      as [[st actual] d].
    cbn [fst snd]. destruct (Z.eqb_spec st 0) as [-> | Hne]; cbn.
    - rewrite <- app_assoc.
      destruct (fst (bladerf_get_sample_rate d) =? 0) eqn:E; cbn; rewrite ?E; cbn;
        repeat split; auto; intros Hne; exfalso; apply Hne; reflexivity.
    - repeat split; auto; [intros; congruence | eauto]. }
  destruct (uint32_of_round rate =? uint32_of_float rate); apply Hsame.
Qed.

(** X11: [set_bandwidth] hands the device the bandwidth cast to 32 bits and,
    when that succeeded, returns the bandwidth read back from the device,
    whatever the setting call reported; after a failed setting it throws and
    reads nothing. *)
Theorem bandwidth_read_back :
  forall (dev : Type) (api : BladeRF dev) (bandwidth : spec_float) (chan : nat)
         (w : world dev),
    let set := bladerf_set_bandwidth (device w) (uint32_of_float bandwidth) in
    let out := set_bandwidth bandwidth chan w in
    device (snd out) = snd set /\
    calls (snd out)
    = calls w ++ Call_set_bandwidth (uint32_of_float bandwidth)
              :: (if fst (fst set) =? 0 then [Call_get_bandwidth] else []) /\
    (fst (fst set) = 0 -> fst out = fst (get_bandwidth chan (snd out))) /\
    (fst (fst set) <> 0 -> exists what, fst out = Throw what).
Proof.
  intros dev api bandwidth chan w. cbv zeta.
  unfold set_bandwidth, and_then, device_set, get_bandwidth, and_then, device_get.
  destruct (bladerf_set_bandwidth (device w) (uint32_of_float bandwidth))
    as [[st actual] d].
  cbn [fst snd]. destruct (Z.eqb_spec st 0) as [-> | Hne]; cbn.
  - rewrite <- app_assoc.
    destruct (fst (bladerf_get_bandwidth d) =? 0) eqn:E; cbn; rewrite ?E; cbn;
      repeat split; auto; intros Hne; exfalso; apply Hne; reflexivity.
  - repeat split; auto; [intros; congruence | eauto].
Qed.

End RatesMore.

Section SetupMore.
Import Config Setup.
Local Open Scope Z_scope.

Variable lexical_cast_uint : string -> option Z.
Variable lexical_cast : string -> option Z.
Variable lib : library.
Variable new_bool : Z -> allocation.

Lemma device_number_world (dict : dict_t) (w : world) :
  snd (device_number lexical_cast_uint dict w) = w.
Proof.
  unfold device_number. destruct (dict !! "bladerf") as [value|]; [|reflexivity].
  destruct (String.length value =? 0)%nat; [reflexivity|].
  destruct (lexical_cast_uint value); reflexivity.
Qed.

Lemma flash_firmware_calls (dict : dict_t) (w : world) :
  fst (flash_firmware lib dict w) = Ok tt /\
  calls (snd (flash_firmware lib dict w))
  = calls w ++ match dict !! "fw" with Some fw => [Call_flash_firmware fw] | None => [] end.
Proof.
  unfold flash_firmware. destruct (dict !! "fw") as [fw|].
  - unfold and_then, log, library_call. cbn.
    destruct (negb _); cbn; auto.
  - cbn. rewrite app_nil_r. auto.
Qed.

Lemma load_fpga_calls (dict : dict_t) (w : world) :
  fst (load_fpga lib dict w) = Ok tt /\
  calls (snd (load_fpga lib dict w))
  = calls w ++ match dict !! "fpga" with Some fpga => [Call_load_fpga fpga] | None => [] end.
Proof.
  unfold load_fpga. destruct (dict !! "fpga") as [fpga|].
  - unfold and_then, log, library_call. cbn.
    destruct (_ && _); cbn; auto.
  - cbn. rewrite app_nil_r. auto.
Qed.

Lemma report_device_calls (n : Z) (w : world) :
  fst (report_device lib n w) = Ok tt /\
  calls (snd (report_device lib n w))
  = calls w ++ [Call_get_serial; Call_get_fw_version; Call_get_fpga_version].
Proof.
  unfold report_device, and_then, log, library_call. cbn.
  rewrite <- !app_assoc. auto.
Qed.

(** [start_stream] by what the allocation gives: with the array it goes on
    to enable the module and succeeds; without it, it throws after
    [bladerf_init_stream] and before [bladerf_enable_module]. *)
Lemma start_stream_calls (c : stream_config) (w : world) :
  let init := Call_init_stream (num_buffers c) (samples_per_buffer c) (transfers c) in
  match new_bool (num_buffers c) with
  | Allocated =>
      fst (start_stream lib new_bool c w)
      = Ok (Pipeline.initial c
              (snd (bladerf_init_stream lib (num_buffers c) (samples_per_buffer c)
                      (transfers c)))) /\
      calls (snd (start_stream lib new_bool c w))
      = calls w ++ [init; Call_enable_module true]
  | _ =>
      (exists what, fst (start_stream lib new_bool c w) = Throw what) /\
      calls (snd (start_stream lib new_bool c w)) = calls w ++ [init]
  end.
Proof.
  cbv zeta. unfold start_stream, allocate_filled, and_then, log, library_call, pure, throw.
  cbn. destruct (negb (fst _ =? 0)); destruct (new_bool (num_buffers c)); cbn;
    try (destruct (negb (bladerf_enable_module lib true =? 0)); cbn);
    rewrite <- ?app_assoc; eauto.
Qed.

(** The part of the constructor after a successful [bladerf_open]. *)
Lemma after_open (dict : dict_t) (n : Z) (w : world) :
  bladerf_open lib (device_name n) = 0 ->
  device_number lexical_cast_uint dict w = (Ok n, w) ->
  exists w2,
    calls w2 = calls w
      ++ [Call_open (device_name n)]
      ++ match dict !! "fw" with Some fw => [Call_flash_firmware fw] | None => [] end
      ++ match dict !! "fpga" with Some fpga => [Call_load_fpga fpga] | None => [] end
      ++ [Call_get_serial; Call_get_fw_version; Call_get_fpga_version;
          Call_is_fpga_configured] /\
    bladerf_sink_c lexical_cast_uint lexical_cast lib new_bool dict w
    = if negb (bladerf_is_fpga_configured lib =? 1)
      then (Throw "The FPGA is not configured! Provide device argument fpga=/path/to/the/bitstream.rbf to load it.", w2)
      else match configure lexical_cast dict with
           | Ok c => start_stream lib new_bool c w2
           | Throw what => (Throw what, w2)
           end.
Proof.
  intros Hopen Hn.
  unfold bladerf_sink_c. unfold and_then at 1. rewrite Hn.
  unfold and_then at 1. unfold library_call at 1. rewrite Hopen.
  cbn [negb Z.eqb].
  set (w1 := {| calls := calls w ++ [Call_open (device_name n)]; cerr := cerr w |}).
  unfold and_then at 1.
  destruct (flash_firmware_calls dict w1) as [Hf1 Hf2].
  destruct (flash_firmware lib dict w1) as [r1 wf]. cbn [fst snd] in *. subst r1.
  unfold and_then at 1.
  destruct (load_fpga_calls dict wf) as [Hl1 Hl2].
  destruct (load_fpga lib dict wf) as [r2 wl]. cbn [fst snd] in *. subst r2.
  unfold and_then at 1.
  destruct (report_device_calls n wl) as [Hr1 Hr2].
  destruct (report_device lib n wl) as [r3 wr]. cbn [fst snd] in *. subst r3.
  unfold and_then at 1. unfold library_call at 1.
  exists {| calls := calls wr ++ [Call_is_fpga_configured]; cerr := cerr wr |}.
  split.
  - cbn [calls]. rewrite Hr2, Hl2, Hf2. subst w1. cbn [calls].
    rewrite <- !app_assoc. reflexivity.
  - destruct (negb (bladerf_is_fpga_configured lib =? 1)); [reflexivity|].
    unfold and_then, lift. destruct (configure lexical_cast dict); reflexivity.
Qed.

Lemma device_number_cases (dict : dict_t) (w : world) :
  (exists n, 0 <= n < 2 ^ 32 /\ device_number lexical_cast_uint dict w = (Ok n, w)) \/
  (exists value what,
      dict !! "bladerf" = Some value /\ value <> ""%string /\
      lexical_cast_uint value = None /\
      device_number lexical_cast_uint dict w = (Throw what, w)).
Proof.
  unfold device_number. destruct (dict !! "bladerf") as [value|].
  - destruct value as [|a value].
    + left. exists 0. split; [lia | reflexivity].
    + cbn [String.length Nat.eqb]. destruct (lexical_cast_uint _) as [n|] eqn:E.
      * left. exists (to_uint n). split; [apply to_uint_range | reflexivity].
      * right. eexists _, _. repeat split; [discriminate | eassumption].
  - left. exists 0. split; [lia | reflexivity].
Qed.


(** X13: when the constructor succeeds, the calls it made to the library
    are, in order: open of [libusb:instance=N], the flash when [fw] is
    given, the load when [fpga] is given, the three queries of the report,
    the FPGA check, [bladerf_init_stream] with the buffer count, samples
    per buffer and transfer count in effect, and the enabling of the
    module; the object starts from the buffers that [bladerf_init_stream]
    gave. *)
Theorem constructor_calls_in_order :
  forall (dict : dict_t) (w : world) (st : option Pipeline.system),
    fst (bladerf_sink_c lexical_cast_uint lexical_cast lib new_bool dict w) = Ok st ->
    exists n c,
      fst (device_number lexical_cast_uint dict w) = Ok n /\
      configure lexical_cast dict = Ok c /\
      calls (snd (bladerf_sink_c lexical_cast_uint lexical_cast lib new_bool dict w))
      = calls w ++ expected_calls dict n c /\
      st = Pipeline.initial c
             (snd (bladerf_init_stream lib (num_buffers c) (samples_per_buffer c)
                     (transfers c))).
Proof.
  intros dict w st Hok.
  destruct (device_number_cases dict w) as [(n & _ & Hn) | (v & what & _ & _ & _ & Hn)].
  - destruct (Z.eq_dec (bladerf_open lib (device_name n)) 0) as [Hopen | Hopen].
    + destruct (after_open dict n w Hopen Hn) as (w2 & Hcalls & Hrun).
      rewrite Hrun in Hok |- *.
      destruct (negb (bladerf_is_fpga_configured lib =? 1)); [discriminate|].
      destruct (configure lexical_cast dict) as [c | what] eqn:Econf; [|discriminate].
      pose proof (start_stream_calls c w2) as Hstart. cbv zeta in Hstart.
      destruct (new_bool (num_buffers c));
        try (destruct Hstart as [[what Hw] _]; rewrite Hw in Hok; discriminate).
      destruct Hstart as [Hst Hsc].
      rewrite Hst in Hok. injection Hok as <-.
      exists n, c. rewrite Hn. repeat split.
      rewrite Hsc, Hcalls. unfold expected_calls. rewrite <- !app_assoc. reflexivity.
    + exfalso. revert Hok.
      unfold bladerf_sink_c. unfold and_then at 1. rewrite Hn.
      unfold and_then, library_call.
      apply Z.eqb_neq in Hopen. rewrite Hopen. discriminate.
  - exfalso. revert Hok.
    unfold bladerf_sink_c. unfold and_then at 1. rewrite Hn. discriminate.
Qed.


End SetupMore.

Section SetupExamples.
Import Config Setup.
Local Open Scope Z_scope.

Lemma constructor_calls_in_order_witness :
  exists n c,
    fst (device_number decimal args_flash empty_world) = Ok n /\
    configure decimal args_flash = Ok c /\
    calls (snd (bladerf_sink_c decimal decimal flaky_library plenty args_flash
                  empty_world))
    = calls empty_world ++ expected_calls args_flash n c /\
    Pipeline.initial two_buffers Pipeline.two_buffers_at
    = Pipeline.initial c
        (snd (bladerf_init_stream flaky_library (num_buffers c) (samples_per_buffer c)
                (transfers c))).
Proof.
  apply (constructor_calls_in_order decimal decimal flaky_library plenty args_flash
           empty_world (Pipeline.initial two_buffers Pipeline.two_buffers_at)).
  vm_compute. reflexivity.
Defined.


End SetupExamples.

Section CopyLoop.
Import Streaming.
Local Open Scope Z_scope.

(** X15: the copy loop of [work], given [k] samples with room for them in
    the current buffer: after [k] steps it has taken exactly these samples,
    has written sample [i] as I at 4 i bytes and Q at 4 i + 2 bytes past the
    cursor it started from, has moved the cursor by 4 k bytes and counted
    the room and the request down by [k]; memory outside these 4 k bytes,
    the flags and the buffer index are as before. *)
Theorem copy_loop_layout :
  forall (xs rest : list gr_complex) (s : sink) (f : work_frame),
    pc f = PInner -> input f = xs ++ rest ->
    (length xs <= _samples_left s)%nat ->
    Z.of_nat (length xs) <= num_samples f ->
    exists s' f',
      work_steps (length xs) s f = Some (s', f') /\
      pc f' = PInner /\ input f' = rest /\
      num_samples f' = num_samples f - Z.of_nat (length xs) /\
      noutput_items f' = noutput_items f /\
      _samples_left s' = (_samples_left s - length xs)%nat /\
      _next_value s' = _next_value s + 4 * Z.of_nat (length xs) /\
      (forall i x, xs !! i = Some x ->
         mem s' !! (_next_value s + 4 * Z.of_nat i) = Some (scale (real x)) /\
         mem s' !! (_next_value s + 4 * Z.of_nat i + 2) = Some (scale (imag x))) /\
      (forall a, a < _next_value s \/ _next_value s + 4 * Z.of_nat (length xs) <= a ->
         mem s' !! a = mem s !! a) /\
      _filled s' = _filled s /\ _buf_index s' = _buf_index s.
Proof.
  induction xs as [|x xs IH]; intros rest s f Hpc Hin Hleft Hnum.
  - exists s, f. cbn [length work_steps]. rewrite Nat.sub_0_r.
    repeat split; auto; try lia; intros; discriminate.
  - cbn [length] in *. cbn [work_steps]. unfold work_step. rewrite Hpc, Hin.
    assert ((_samples_left s =? 0)%nat = false) as -> by (apply Nat.eqb_neq; lia).
    assert ((num_samples f =? 0) = false) as -> by (apply Z.eqb_neq; lia).
    cbn [negb andb app].
    destruct (copy_sample_mem x s) as (HI & HQ & Hother & Hnv & Hsl).
    unfold sizeof_int16_t in *.
    destruct (IH rest (copy_sample x s) (next_sample (xs ++ rest) f))
      as (s' & f' & Hrun & Hpc' & Hin' & Hns & Hno & Hsl' & Hnv' & Hmem & Hout & Hfl & Hbi);
      [exact Hpc | reflexivity | rewrite Hsl; lia | cbn [num_samples next_sample]; lia |].
    exists s', f'. rewrite Hrun.
    cbn [num_samples noutput_items next_sample] in Hns, Hno.
    split; [reflexivity|]. split; [exact Hpc'|]. split; [exact Hin'|].
    split; [lia|]. split; [exact Hno|]. split; [lia|]. split; [lia|].
    split; [|split; [|split]].
    + intros [|i] y Hy.
      * injection Hy as <-. rewrite !Hout by lia.
        replace (_next_value s + 4 * Z.of_nat 0) with (_next_value s) by lia. auto.
      * cbn [lookup list_lookup] in Hy. destruct (Hmem i y Hy) as [H1 H2].
        replace (_next_value s + 4 * Z.of_nat (S i))
          with (_next_value (copy_sample x s) + 4 * Z.of_nat i) by lia. auto.
    + intros a Ha. rewrite Hout by lia. apply Hother; lia.
    + rewrite Hfl. reflexivity.
    + rewrite Hbi. reflexivity.
Qed.

Lemma copy_loop_layout_witness :
  let xs := block 2 in
  let rest := block 1 in
  let s := bench_sink in
  let f := at_pc PInner (work_enter 3 (block 3) bench_sink) in
  exists s' f',
    work_steps (length xs) s f = Some (s', f') /\
    pc f' = PInner /\ input f' = rest /\
    num_samples f' = num_samples f - Z.of_nat (length xs) /\
    noutput_items f' = noutput_items f /\
    _samples_left s' = (_samples_left s - length xs)%nat /\
    _next_value s' = _next_value s + 4 * Z.of_nat (length xs) /\
    (forall i x, xs !! i = Some x ->
       mem s' !! (_next_value s + 4 * Z.of_nat i) = Some (scale (real x)) /\
       mem s' !! (_next_value s + 4 * Z.of_nat i + 2) = Some (scale (imag x))) /\
    (forall a, a < _next_value s \/ _next_value s + 4 * Z.of_nat (length xs) <= a ->
       mem s' !! a = mem s !! a) /\
    _filled s' = _filled s /\ _buf_index s' = _buf_index s.
Proof.
  cbv zeta.
  apply (copy_loop_layout (block 2) (block 1) bench_sink
           (at_pc PInner (work_enter 3 (block 3) bench_sink))).
  - reflexivity.
  - reflexivity.
  - cbn. lia.
  - cbn. lia.
Defined.

End CopyLoop.

Section Orders.
Import Streaming.

Lemma submitted_app (tr1 tr2 : list event) :
  submitted (tr1 ++ tr2) = submitted tr1 ++ submitted tr2.
Proof.
  induction tr1 as [|e tr1 IH]; [reflexivity|].
  destruct e; cbn [submitted app]; auto.
  destruct (p =? NULL)%Z; cbn [app]; congruence.
Qed.

Lemma filled_order_app (tr1 tr2 : list event) :
  filled_order (tr1 ++ tr2) = filled_order tr1 ++ filled_order tr2.
Proof.
  induction tr1 as [|e tr1 IH]; [reflexivity|].
  destruct e as [| | | | | i [] | | | | | |]; cbn [filled_order app]; congruence.
Qed.

Lemma submitted_none (evs : list event) :
  (forall p, In (EvSubmit p) evs -> p = NULL) -> submitted evs = [].
Proof.
  induction evs as [|e evs IH]; intros H; [reflexivity|].
  destruct e; cbn [submitted]; try (apply IH; intros q Hq; apply H; right; exact Hq).
  rewrite (H p (or_introl eq_refl)). cbn. apply IH. intros q Hq. apply H. right. exact Hq.
Qed.

Lemma submitted_null (evs : list event) (p : Z) :
  submitted evs = [] -> In (EvSubmit p) evs -> p = NULL.
Proof.
  induction evs as [|e evs IH]; intros H; [intros []|].
  destruct e; cbn [submitted] in H; intros [Heq | Hin]; try discriminate; auto.
  - injection Heq as ->. destruct (Z.eqb_spec p NULL); [assumption | discriminate].
  - destruct (p0 =? NULL)%Z; [auto | discriminate].
Qed.

Lemma moves_still (s s' : sink) (evs : list event) :
  _buffers s' = _buffers s -> _num_buffers s' = _num_buffers s ->
  _buf_index s' = _buf_index s -> _next_to_tx s' = _next_to_tx s ->
  (_running s = false -> _running s' = false) ->
  filled_order evs = [] -> (forall p, ~ In (EvSubmit p) evs) ->
  moves s s' evs.
Proof.
  intros H1 H2 H3 H4 H5 H6 H7. repeat split; auto.
  left. split; [|exact H4]. intros p Hp. destruct (H7 p Hp).
Qed.

Ltac no_events :=
  try reflexivity; try (intros; assumption);
  try (intros ? Hev; cbn in Hev; intuition discriminate).

Lemma wait_or_go_events (s : sink) (f f' : work_frame) (evs : list event) :
  wait_or_go s f = Some (f', evs) ->
  filled_order evs = [] /\ (forall p, ~ In (EvSubmit p) evs).
Proof.
  unfold wait_or_go. destruct (_filled s !! _buf_index s) as [full|]; [|discriminate].
  cbn [mbind option_bind]. destruct (full && running f); intros [= <- <-];
    split; no_events.
Qed.

Lemma work_step_moves (s s' : sink) (f f' : work_frame) (evs : list event) :
  work_step s f = Some (s', f', evs) -> moves s s' evs.
Proof.
  unfold work_step. intros H. destruct (pc f); try discriminate.
  - destruct (running f && _); injection H as <- <- <-; apply moves_still; no_events.
  - destruct (negb _ && negb _).
    + destruct (input f) as [|x rest]; [discriminate|]. injection H as <- <- <-.
      apply moves_still; no_events.
    + injection H as <- <- <-. apply moves_still; no_events.
  - destruct (_samples_left s =? 0)%nat.
    + unfold rotate in H.
      destruct (_filled s !! _buf_index s) as [b|]; [|discriminate].
      cbn [mbind option_bind] in H.
      destruct (_buffers s !! (S (_buf_index s) mod _num_buffers s)) as [p|];
        [|discriminate].
      cbn [mbind option_bind] in H.
      destruct (wait_or_go _ f) as [[f1 evs1]|] eqn:Hw; [|discriminate].
      cbn [mbind option_bind] in H. injection H as <- <- <-.
      destruct (wait_or_go_events _ _ _ _ Hw) as [Hfo Hsub].
      split; [reflexivity|]. split; [reflexivity|]. split; [|split].
      * right. cbn. rewrite Hfo. auto.
      * left. split; [|reflexivity]. intros q Hq.
        cbn in Hq. destruct Hq as [Hq | [Hq | [Hq | Hq]]]; try discriminate.
        destruct (Hsub q Hq).
      * auto.
    + injection H as <- <- <-. apply moves_still; no_events.
  - destruct (wait_or_go s _) as [[f1 evs1]|] eqn:Hw; [|discriminate].
    cbn [mbind option_bind] in H. injection H as <- <- <-.
    destruct (wait_or_go_events _ _ _ _ Hw) as [Hfo Hsub].
    apply moves_still; no_events.
    intros q [Hq | Hq]; [discriminate | exact (Hsub q Hq)].
Qed.

Lemma next_or_wait_moves (s : sink) (o : callback_state) (evs : list event) :
  next_or_wait s = Some (o, evs) -> moves s (sink_of o) evs.
Proof.
  unfold next_or_wait, is_running. intros H. destruct (_running s) eqn:Hrun.
  - destruct (_filled s !! _next_to_tx s) as [full|]; [|discriminate].
    cbn [mbind option_bind] in H. destruct full; cbn [negb] in H.
    + destruct (_buffers s !! _next_to_tx s) as [ret|] eqn:Hret; [|discriminate].
      cbn [mbind option_bind] in H. injection H as <- <-.
      split; [reflexivity|]. split; [reflexivity|]. split; [left; auto|].
      split; [|intros; congruence]. right. exists ret. cbn. auto.
    + injection H as <- <-. apply moves_still; no_events.
  - injection H as <- <-. split; [reflexivity|]. split; [reflexivity|].
    split; [left; auto|]. split; [|auto]. left. split; [|reflexivity].
    intros p [Hp | [Hp | []]]; [discriminate | congruence].
Qed.

Lemma moves_after_emptied (s0 s s' : sink) (evs1 evs : list event) :
  moves s0 s' evs ->
  _buffers s0 = _buffers s -> _num_buffers s0 = _num_buffers s ->
  _buf_index s0 = _buf_index s -> _next_to_tx s0 = _next_to_tx s ->
  _running s0 = _running s ->
  filled_order evs1 = [] -> (forall p, ~ In (EvSubmit p) evs1) ->
  moves s s' (EvLock :: evs1 ++ evs).
Proof.
  intros (H1 & H2 & H3 & H4 & H5) E1 E2 E3 E4 E5 Hfo Hsub.
  rewrite E1, E2, E3, E4, E5 in *.
  split; [exact H1|]. split; [exact H2|].
  assert (Hfo' : filled_order (EvLock :: evs1 ++ evs) = filled_order evs)
    by (cbn [filled_order]; rewrite filled_order_app, Hfo; reflexivity).
  assert (Hsb' : submitted (EvLock :: evs1 ++ evs) = submitted evs).
  { cbn [submitted]. rewrite submitted_app, (submitted_none evs1); [reflexivity|].
    intros p Hp. destruct (Hsub p Hp). }
  rewrite Hfo'. split; [exact H3|]. split; [|exact H5].
  destruct H4 as [[Hnull Hntx] | (p & Hp)].
  - left. split; [|exact Hntx]. intros p [Hp | Hp]; [discriminate|].
    apply in_app_or in Hp as [Hp | Hp]; [destruct (Hsub p Hp) | auto].
  - right. exists p. rewrite Hsb'. exact Hp.
Qed.

Lemma get_next_buffer_moves (samples : Z) (s : sink) (o : callback_state)
    (evs : list event) :
  get_next_buffer samples s = Ok (Some (o, evs)) -> moves s (sink_of o) evs.
Proof.
  unfold get_next_buffer, mark_emptied. intros H.
  destruct (samples =? NULL)%Z.
  - cbn [mbind result_bind] in H.
    destruct (next_or_wait s) as [[o' evs2]|] eqn:Hnext; [|discriminate].
    cbn [mbind option_bind] in H. injection H as <- <-.
    apply next_or_wait_moves in Hnext.
    apply (moves_after_emptied _ _ _ [] evs2 Hnext); no_events.
  - destruct (buffer2index _ _ _) as [idx|what]; [|discriminate].
    cbn [mbind result_bind] in H.
    destruct (next_or_wait _) as [[o' evs2]|] eqn:Hnext; [|discriminate].
    cbn [mbind option_bind] in H. injection H as <- <-.
    apply next_or_wait_moves in Hnext.
    apply (moves_after_emptied _ _ _ [EvSetFilled idx false; EvNotifyOne buffer_emptied]
             evs2 Hnext); no_events.
Qed.

Lemma exec_moves (a : action) (st st' : system) (evs : list event) :
  exec a st = Some (st', evs) -> moves (obj st) (obj st') evs.
Proof.
  intros Hexec. destruct a; cbn [exec] in Hexec.
  - destruct (pc (frame st)); try discriminate. injection Hexec as <- <-.
    apply moves_still; no_events.
  - destruct (work_step (obj st) (frame st)) as [[[s' f'] evs']|] eqn:Hstep;
      [|discriminate].
    cbn [mbind option_bind] in Hexec. injection Hexec as <- <-.
    rewrite obj_deliver. exact (work_step_moves _ _ _ _ _ Hstep).
  - destruct (engine st); try discriminate.
    destruct (_ <? _)%nat; [|discriminate].
    unfold callback in Hexec.
    destruct (get_next_buffer NULL (obj st)) as [[[o evs']|]|what] eqn:Hg;
      try discriminate; cbn [mbind option_bind] in Hexec; injection Hexec as <- <-.
    rewrite obj_deliver, obj_after_callback. exact (get_next_buffer_moves _ _ _ _ Hg).
  - destruct (engine st); try discriminate.
    destruct (in_flight st) as [|samples rest]; [discriminate|].
    unfold callback in Hexec.
    destruct (get_next_buffer samples (obj st)) as [[[o evs']|]|what] eqn:Hg;
      try discriminate; cbn [mbind option_bind] in Hexec; injection Hexec as <- <-.
    + rewrite obj_deliver, obj_after_callback. exact (get_next_buffer_moves _ _ _ _ Hg).
    + apply moves_still; no_events.
  - destruct (engine st); try discriminate.
    unfold get_next_buffer_resume in Hexec.
    destruct (next_or_wait (obj st)) as [[o evs']|] eqn:Hnext; [|discriminate].
    cbn [mbind option_bind] in Hexec. injection Hexec as <- <-.
    rewrite obj_deliver, obj_after_callback.
    apply next_or_wait_moves in Hnext.
    apply (moves_after_emptied _ _ _ [] evs' Hnext); no_events.
  - destruct (engine st); try discriminate. injection Hexec as <- <-.
    apply moves_still; no_events.
  - destruct (engine st); try discriminate. injection Hexec as <- <-.
    apply moves_still; no_events.
  - injection Hexec as <- <-.
    replace (obj (wake c st)) with (obj st)
      by (destruct c; cbn [wake]; [destruct (engine st) | destruct (pc (frame st))];
          reflexivity).
    apply moves_still; no_events.
  - unfold destructor_step in Hexec. destruct (dtor st); try discriminate.
    + injection Hexec as <- <-. apply moves_still; no_events.
    + cbv zeta in Hexec.
      remember (deliver _ (with_dtor DBroadcast st)) as st1 eqn:Hst1.
      injection Hexec as <- <-.
      assert (Hobj : obj st1 = obj st) by (rewrite Hst1, obj_deliver; reflexivity).
      rewrite Hobj. apply moves_still; no_events.
    + destruct (engine st); try discriminate. injection Hexec as <- <-.
      apply moves_still; no_events.
    + injection Hexec as <- <-. apply moves_still; no_events.
Qed.


Lemma seq_snoc (k : nat) : seq 0 (S k) = seq 0 k ++ [k].
Proof. rewrite seq_S. reflexivity. Qed.

(** X16: from the state the constructor leaves, along every interleaving:
    the slots are marked filled in the order 0, 1, ..., n - 1, 0, ..., and
    the buffers that [get_next_buffer] hands to the device are the buffers
    of the slots in that same order, none skipped and none twice in a round:
    samples reach the device in the order [work] took them. *)
Theorem buffers_submitted_in_fill_order :
  forall (lexical_cast : string -> option Z) (dict : Config.dict_t)
         (c : Config.stream_config) (bufs : list Z) (st0 st : system)
         (tr : list event),
    Config.configure lexical_cast dict = Ok c ->
    well_allocated (Z.to_nat (Config.num_buffers c))
      (Z.to_nat (Config.samples_per_buffer c)) bufs ->
    initial c bufs = Some st0 ->
    reachable st0 st tr ->
    let n := Z.to_nat (Config.num_buffers c) in
    filled_order tr = map (fun j => j mod n) (seq 0 (length (filled_order tr))) /\
    submitted tr = map (buffer_at bufs n) (seq 0 (length (submitted tr))) /\
    _buf_index (obj st) = length (filled_order tr) mod n /\
    _next_to_tx (obj st) = length (submitted tr) mod n.
Proof.
  intros lc dict c bufs st0 st tr _ (_ & Hnn & _) Hinit Hreach. cbv zeta.
  set (n := Z.to_nat (Config.num_buffers c)).
  assert (Hgoal : (_buffers (obj st) = bufs /\ _num_buffers (obj st) = n) /\
    filled_order tr = map (fun j => j mod n) (seq 0 (length (filled_order tr))) /\
    submitted tr = map (buffer_at bufs n) (seq 0 (length (submitted tr))) /\
    _buf_index (obj st) = length (filled_order tr) mod n /\
    _next_to_tx (obj st) = length (submitted tr) mod n); [|tauto].
  induction Hreach as [|st tr a st' evs Hreach IH Hexec].
  - unfold initial in Hinit. destruct (bufs !! 0) as [p0|]; [|discriminate].
    injection Hinit as <-. cbn. rewrite Nat.Div0.mod_0_l. auto.
  - destruct IH as ((Hb & Hn) & Hfo & Hsub & Hbi & Hntx).
    destruct (exec_moves a st st' evs Hexec) as (M1 & M2 & M3 & M4 & _).
    rewrite Hb, Hn in *.
    rewrite filled_order_app, submitted_app, !length_app.
    split; [auto|].
    assert (Hfill :
      filled_order tr ++ filled_order evs
      = map (fun j => j mod n) (seq 0 (length (filled_order tr) + length (filled_order evs)))
      /\ _buf_index (obj st') = (length (filled_order tr) + length (filled_order evs)) mod n).
    { destruct M3 as [[-> ->] | [-> ->]]; cbn [length].
      - rewrite Nat.add_0_r, app_nil_r. auto.
      - rewrite Nat.add_1_r, seq_snoc, map_app, <- Hfo. cbn [map].
        rewrite Hbi, succ_mod. auto. }
    assert (Hsubm :
      submitted tr ++ submitted evs
      = map (buffer_at bufs n) (seq 0 (length (submitted tr) + length (submitted evs)))
      /\ _next_to_tx (obj st') = (length (submitted tr) + length (submitted evs)) mod n).
    { destruct M4 as [[Hnull ->] | (p & _ & Hp & -> & ->)].
      - rewrite (submitted_none evs Hnull). cbn [length].
        rewrite Nat.add_0_r, app_nil_r. auto.
      - destruct (Z.eqb_spec p NULL) as [Hnull | _]; [destruct (Hnn _ _ Hp Hnull)|].
        cbn [length]. rewrite Nat.add_1_r, seq_snoc, map_app, <- Hsub. cbn [map].
        unfold buffer_at. rewrite <- Hntx, Hp. cbn [default].
        rewrite Hntx, succ_mod. auto. }
    tauto.
Qed.

Lemma buffers_submitted_in_fill_order_witness :
  exists st0 st tr,
    initial Config.two_buffers two_buffers_at = Some st0 /\
    run fill_and_drain st0 = Some (st, tr) /\
    let n := Z.to_nat (Config.num_buffers Config.two_buffers) in
    filled_order tr = map (fun j => j mod n) (seq 0 (length (filled_order tr))) /\
    submitted tr = map (buffer_at two_buffers_at n) (seq 0 (length (submitted tr))) /\
    _buf_index (obj st) = length (filled_order tr) mod n /\
    _next_to_tx (obj st) = length (submitted tr) mod n.
Proof.
  destruct (outcome_spec _ _ _ _ _ fill_and_drain_runs) as (st0 & st & tr & H0 & Hrun & _).
  exists st0, st, tr. split; [exact H0|]. split; [exact Hrun|].
  apply (buffers_submitted_in_fill_order Config.decimal Config.args_two_buffers
           Config.two_buffers two_buffers_at st0 st tr).
  - vm_compute. reflexivity.
  - exact two_buffers_allocated.
  - exact H0.
  - apply (run_reachable fill_and_drain). exact Hrun.
Defined.

(** X17: once the running flag is down it stays down, whatever runs, and
    every call of [get_next_buffer] from then on returns [NULL]. *)
Theorem flag_down_is_final :
  forall (st st' : system) (tr : list event),
    _running (obj st) = false ->
    reachable st st' tr ->
    _running (obj st') = false /\
    (forall p, In (EvSubmit p) tr -> p = NULL).
Proof.
  intros st st' tr Hdown Hreach.
  induction Hreach as [|st1 tr a st2 evs Hreach IH Hexec].
  - split; [exact Hdown | intros p []].
  - destruct IH as [Hdown1 Hnull].
    destruct (exec_moves a st1 st2 evs Hexec) as (_ & _ & _ & M4 & M5).
    split; [auto|]. intros p Hp. apply in_app_or in Hp as [Hp | Hp]; [auto|].
    destruct M4 as [[Hn _] | (q & Hrun & _)]; [auto | congruence].
Qed.

Lemma flag_down_is_final_witness :
  exists st tr0 st' tr,
    outcome [ADestructor] Config.two_buffers two_buffers_at = Some (st, tr0) /\
    run [ACallbackFirst; ADestructor] st = Some (st', tr) /\
    In (EvSubmit NULL) tr /\
    _running (obj st') = false /\
    (forall p, In (EvSubmit p) tr -> p = NULL).
Proof.
  let v := eval vm_compute in (outcome [ADestructor] Config.two_buffers two_buffers_at) in
  match v with
  | Some (?st, ?tr0) =>
      let w := eval vm_compute in (run [ACallbackFirst; ADestructor] st) in
      match w with
      | Some (?st', ?tr) =>
          exists st, tr0, st', tr;
          split; [vm_compute; reflexivity|];
          split; [vm_compute; reflexivity|];
          split; [cbn; auto|];
          apply (flag_down_is_final st st' tr);
            [reflexivity
            |apply (run_reachable [ACallbackFirst; ADestructor]); vm_compute; reflexivity]
      end
  end.
Defined.

End Orders.

Section Blocked.
Import Streaming.

Lemma frame_wake_other (st : system) : frame (wake samp_avail st) = frame st.
Proof. cbn [wake]. destruct (engine st); reflexivity. Qed.

(** X18: once the streaming thread is past [bladerf_stream], a [work] that
    is inside its wait stays there: nothing the streaming thread, the
    scheduler or the destructor before its broadcast does lets it out; only
    the destructor's broadcast or a spurious wake-up of [_buffer_emptied]
    can. *)
Theorem work_stays_blocked_after_stream_end :
  forall (st st' : system) (a : action) (evs : list event),
    stream_ended st ->
    pc (frame st) = PWait ->
    a <> ASpuriousWake buffer_emptied ->
    (a = ADestructor -> dtor st <> DFlagCleared) ->
    exec a st = Some (st', evs) ->
    stream_ended st' /\ frame st' = frame st /\
    (forall v, ~ In (EvWorkReturn v) evs).
Proof.
  intros st st' a evs Hend Hpc Hspur Hdtor Hexec.
  unfold stream_ended in *.
  destruct a; cbn [exec] in Hexec.
  - rewrite Hpc in Hexec. discriminate.
  - unfold work_step in Hexec. rewrite Hpc in Hexec. discriminate.
  - destruct Hend as [H | [H | H]]; rewrite H in Hexec; discriminate.
  - destruct Hend as [H | [H | H]]; rewrite H in Hexec; discriminate.
  - destruct Hend as [H | [H | H]]; rewrite H in Hexec; discriminate.
  - destruct Hend as [H | [H | H]]; rewrite H in Hexec; discriminate.
  - destruct (engine st); try discriminate. injection Hexec as <- <-.
    split; [right; left; reflexivity|]. split; [reflexivity|].
    intros v [Hv | []]. discriminate.
  - injection Hexec as <- <-. destruct c; [|destruct (Hspur eq_refl)].
    split; [|split; [apply frame_wake_other | intros v []]].
    cbn [wake]. destruct (engine st) eqn:He; rewrite ?He; try exact Hend.
    destruct Hend as [H | [H | H]]; discriminate.
  - unfold destructor_step in Hexec. destruct (dtor st) eqn:Hd; try discriminate.
    + injection Hexec as <- <-. cbn. split; [auto|]. split; [reflexivity|].
      intros v [Hv | []]. discriminate.
    + destruct (Hdtor eq_refl eq_refl).
    + destruct (engine st) eqn:He; try discriminate. injection Hexec as <- <-.
      cbn. rewrite He. split; [auto|]. split; [reflexivity|].
      intros v [Hv | []]. discriminate.
    + injection Hexec as <- <-. cbn. split; [auto|]. split; [reflexivity|].
      intros v [Hv | []]. discriminate.
Qed.

Lemma error_then_block_runs :
  (fun r => (pc (frame r.1), engine r.1, _running (obj r.1), running (frame r.1),
             dtor r.1))
    <$> outcome error_then_block Config.two_buffers two_buffers_at
  = Some (PWait, CExited, false, true, DNotStarted).
Proof. vm_compute. reflexivity. Qed.

Lemma work_stays_blocked_after_stream_end_witness :
  exists st0 st tr,
    initial Config.two_buffers two_buffers_at = Some st0 /\
    run error_then_block st0 = Some (st, tr) /\
    pc (frame st) = PWait /\ _running (obj st) = false /\
    let st' := with_dtor DFlagCleared (with_obj (set_running false (obj st)) st) in
    stream_ended st' /\ frame st' = frame st /\
    (forall v, ~ In (EvWorkReturn v) [EvSetRunning false]).
Proof.
  destruct (outcome_spec _ _ _ _ _ error_then_block_runs)
    as (st0 & st & tr & H0 & Hrun & Hst).
  cbn [fst] in Hst. injection Hst as Hpc Heng Hflag Hloc Hd.
  exists st0, st, tr. split; [exact H0|]. split; [exact Hrun|].
  split; [exact Hpc|]. split; [exact Hflag|]. cbv zeta.
  apply (work_stays_blocked_after_stream_end st _ ADestructor).
  - right. left. exact Heng.
  - exact Hpc.
  - discriminate.
  - intros _. rewrite Hd. discriminate.
  - cbn [exec]. unfold destructor_step. rewrite Hd. reflexivity.
Defined.

End Blocked.

Section Reports.
Import Streaming.
Local Open Scope Z_scope.

Lemma frame_ok_wake (c : cond) (st : system) :
  frame_ok (frame st) -> frame_ok (frame (wake c st)).
Proof.
  destruct c; cbn [wake]; [destruct (engine st) | destruct (pc (frame st))]; auto.
Qed.

Lemma frame_ok_deliver (evs : list event) (st : system) :
  frame_ok (frame st) -> frame_ok (frame (deliver evs st)).
Proof.
  revert st. induction evs as [|e evs IH]; intros st H; [exact H|].
  destruct e; cbn [deliver]; auto using frame_ok_wake.
Qed.

Lemma wait_or_go_frame (s : sink) (f f' : work_frame) (evs : list event) :
  wait_or_go s f = Some (f', evs) ->
  noutput_items f' = noutput_items f /\ num_samples f' = num_samples f /\
  (forall v, ~ In (EvWorkReturn v) evs).
Proof.
  unfold wait_or_go. destruct (_filled s !! _buf_index s) as [full|]; [|discriminate].
  cbn [mbind option_bind]. destruct (full && running f); intros [= <- <-];
    repeat split; intros v [Hv | []]; discriminate.
Qed.

Lemma work_step_frame_ok (s s' : sink) (f f' : work_frame) (evs : list event) :
  frame_ok f -> work_step s f = Some (s', f', evs) -> frame_ok f'.
Proof.
  unfold frame_ok, work_step. intros Hok H. destruct (pc f); try discriminate.
  - destruct (running f && _); injection H as <- <- <-; exact Hok.
  - destruct (negb _ && negb (num_samples f =? 0)) eqn:Hgo.
    + destruct (input f) as [|x rest]; [discriminate|]. injection H as <- <- <-.
      cbn [noutput_items num_samples next_sample].
      apply andb_prop in Hgo as [_ Hgo]. apply negb_true_iff, Z.eqb_neq in Hgo. lia.
    + injection H as <- <- <-. exact Hok.
  - destruct (_samples_left s =? 0)%nat.
    + destruct (rotate s) as [s1|]; [|discriminate]. cbn [mbind option_bind] in H.
      destruct (wait_or_go s1 f) as [[f1 evs1]|] eqn:Hw; [|discriminate].
      cbn [mbind option_bind] in H. injection H as <- <- <-.
      destruct (wait_or_go_frame _ _ _ _ Hw) as (-> & -> & _). exact Hok.
    + injection H as <- <- <-. exact Hok.
  - destruct (wait_or_go s _) as [[f1 evs1]|] eqn:Hw; [|discriminate].
    cbn [mbind option_bind] in H. injection H as <- <- <-.
    destruct (wait_or_go_frame _ _ _ _ Hw) as (-> & -> & _). exact Hok.
Qed.

Lemma frame_after_callback (o : callback_state) (rest : list Z) (st : system) :
  frame (after_callback o rest st) = frame st.
Proof. destruct o as [s | ret s]; cbn; [|destruct (ret =? NULL)]; reflexivity. Qed.

Lemma exec_frame_ok (a : action) (st st' : system) (evs : list event) :
  frame_ok (frame st) -> exec a st = Some (st', evs) -> frame_ok (frame st').
Proof.
  intros Hok Hexec. destruct a; cbn [exec] in Hexec.
  - destruct (pc (frame st)); try discriminate. injection Hexec as <- <-.
    unfold frame_ok. cbn. lia.
  - destruct (work_step (obj st) (frame st)) as [[[s' f'] evs']|] eqn:Hstep;
      [|discriminate].
    cbn [mbind option_bind] in Hexec. injection Hexec as <- <-.
    apply frame_ok_deliver. cbn. exact (work_step_frame_ok _ _ _ _ _ Hok Hstep).
  - destruct (engine st); try discriminate.
    destruct (_ <? _)%nat; [|discriminate].
    unfold callback in Hexec.
    destruct (get_next_buffer NULL (obj st)) as [[[o evs']|]|what];
      try discriminate; cbn [mbind option_bind] in Hexec; injection Hexec as <- <-.
    + apply frame_ok_deliver. rewrite frame_after_callback. exact Hok.
    + exact Hok.
  - destruct (engine st); try discriminate.
    destruct (in_flight st) as [|samples rest]; [discriminate|].
    unfold callback in Hexec.
    destruct (get_next_buffer samples (obj st)) as [[[o evs']|]|what];
      try discriminate; cbn [mbind option_bind] in Hexec; injection Hexec as <- <-.
    + apply frame_ok_deliver. rewrite frame_after_callback. exact Hok.
    + exact Hok.
  - destruct (engine st); try discriminate.
    destruct (get_next_buffer_resume (obj st)) as [[o evs']|]; [|discriminate].
    cbn [mbind option_bind] in Hexec. injection Hexec as <- <-.
    apply frame_ok_deliver. rewrite frame_after_callback. exact Hok.
  - destruct (engine st); try discriminate. injection Hexec as <- <-. exact Hok.
  - destruct (engine st); try discriminate. injection Hexec as <- <-. exact Hok.
  - injection Hexec as <- <-. apply frame_ok_wake. exact Hok.
  - unfold destructor_step in Hexec. destruct (dtor st); try discriminate.
    + injection Hexec as <- <-. exact Hok.
    + cbv zeta in Hexec.
      remember (deliver _ (with_dtor DBroadcast st)) as st1 eqn:Hst1.
      injection Hexec as <- <-. rewrite Hst1. apply frame_ok_deliver. exact Hok.
    + destruct (engine st); try discriminate. injection Hexec as <- <-. exact Hok.
    + injection Hexec as <- <-. exact Hok.
Qed.

Lemma work_step_returns (s s' : sink) (f f' : work_frame) (evs : list event) (v : Z) :
  work_step s f = Some (s', f', evs) -> In (EvWorkReturn v) evs ->
  pc f = PLoop /\ v = (if running f then noutput_items f else 0) /\
  (running f = true -> num_samples f <= 0).
Proof.
  unfold work_step. intros H Hv. destruct (pc f); try discriminate.
  - destruct (running f && (0 <? num_samples f)) eqn:Hgo; injection H as <- <- <-.
    + destruct Hv.
    + destruct Hv as [[= <-] | []]. split; [reflexivity|]. split; [reflexivity|].
      intros Hr. rewrite Hr in Hgo. cbn in Hgo. apply Z.ltb_ge in Hgo. exact Hgo.
  - destruct (negb _ && negb _).
    + destruct (input f) as [|x rest]; [discriminate|]. injection H as <- <- <-.
      destruct Hv as [Hv | [Hv | []]]; discriminate.
    + injection H as <- <- <-. destruct Hv.
  - destruct (_samples_left s =? 0)%nat.
    + destruct (rotate s) as [s1|]; [|discriminate]. cbn [mbind option_bind] in H.
      destruct (wait_or_go s1 f) as [[f1 evs1]|] eqn:Hw; [|discriminate].
      cbn [mbind option_bind] in H. injection H as <- <- <-.
      destruct (wait_or_go_frame _ _ _ _ Hw) as (_ & _ & Hno).
      destruct Hv as [Hv | [Hv | [Hv | Hv]]]; try discriminate. destruct (Hno v Hv).
    + injection H as <- <- <-. destruct Hv.
  - destruct (wait_or_go s _) as [[f1 evs1]|] eqn:Hw; [|discriminate].
    cbn [mbind option_bind] in H. injection H as <- <- <-.
    destruct (wait_or_go_frame _ _ _ _ Hw) as (_ & _ & Hno).
    destruct Hv as [Hv | Hv]; [discriminate | destruct (Hno v Hv)].
Qed.

(** X19: along every interleaving from the state the constructor leaves, a
    call of [work] with a count that is not negative has consumed no more
    than the count; when it returns with its flag up it has consumed exactly
    the count it returns, and with its flag down it returns 0. *)
Theorem work_reports_what_it_consumed :
  forall (c : Config.stream_config) (bufs : list Z) (st0 st st' : system)
         (tr evs : list event) (v : Z),
    initial c bufs = Some st0 ->
    reachable st0 st tr ->
    0 <= noutput_items (frame st) ->
    exec AWork st = Some (st', evs) ->
    In (EvWorkReturn v) evs ->
    0 <= consumed (frame st) <= noutput_items (frame st) /\
    (running (frame st) = true ->
       v = noutput_items (frame st) /\ consumed (frame st) = v) /\
    (running (frame st) = false -> v = 0).
Proof.
  intros c bufs st0 st st' tr evs v Hinit Hreach Hpos Hexec Hv.
  assert (Hok : frame_ok (frame st)).
  { clear Hexec Hv Hpos. induction Hreach as [|st tr a st1 evs1 Hreach IH Hexec].
    - unfold initial in Hinit. destruct (bufs !! 0%nat); [|discriminate].
      injection Hinit as <-. unfold frame_ok. cbn. lia.
    - exact (exec_frame_ok _ _ _ _ IH Hexec). }
  cbn [exec] in Hexec.
  destruct (work_step (obj st) (frame st)) as [[[s' f'] evs']|] eqn:Hstep;
    [|discriminate].
  cbn [mbind option_bind] in Hexec. injection Hexec as <- <-.
  destruct (work_step_returns _ _ _ _ _ _ Hstep Hv) as (_ & -> & Hdone).
  unfold frame_ok in Hok. unfold consumed.
  split; [lia|]. split.
  - intros Hr. rewrite Hr. specialize (Hdone Hr). lia.
  - intros ->. reflexivity.
Qed.

Lemma work_reports_what_it_consumed_witness :
  exists st0 st tr st' evs,
    initial Config.two_buffers two_buffers_at = Some st0 /\
    run one_sample st0 = Some (st, tr) /\
    exec AWork st = Some (st', evs) /\
    evs = [EvWorkReturn 1] /\
    0 <= consumed (frame st) <= noutput_items (frame st) /\
    (running (frame st) = true ->
       1 = noutput_items (frame st) /\ consumed (frame st) = 1) /\
    (running (frame st) = false -> 1 = 0).
Proof.
  let v := eval vm_compute in (initial Config.two_buffers two_buffers_at) in
  match v with
  | Some ?st0 =>
      let w := eval vm_compute in (run one_sample st0) in
      match w with
      | Some (?st, ?tr) =>
          let u := eval vm_compute in (exec AWork st) in
          match u with
          | Some (?st', ?evs) =>
              exists st0, st, tr, st', evs;
              split; [vm_compute; reflexivity|];
              split; [vm_compute; reflexivity|];
              split; [vm_compute; reflexivity|];
              split; [reflexivity|];
              apply (work_reports_what_it_consumed Config.two_buffers two_buffers_at
                       st0 st st' tr evs 1);
                [vm_compute; reflexivity
                |apply (run_reachable one_sample); vm_compute; reflexivity
                |vm_compute; discriminate
                |vm_compute; reflexivity
                |left; reflexivity]
          end
      end
  end.
Defined.

End Reports.

Section InFlight.
Import Config.

Lemma in_flight_window (n spb : nat) (bufs : list Z) (P C R : nat) (st : system) (p : Z) :
  pool_inv n spb bufs P C R st ->
  In p (in_flight st) ->
  exists j, R <= j < C /\ bufs !! (j mod n) = Some p /\
            _filled (obj st) !! (j mod n) = Some true.
Proof.
  intros Hinv Hp. fields Hinv. rewrite Hfl in Hp.
  apply in_map_iff in Hp as (j & <- & Hj). apply in_seq in Hj.
  exists j. split; [lia|].
  destruct (buffer_at_lookup n spb bufs j Halloc Hn) as [Hb _].
  split; [exact Hb|].
  assert (is_Some (_filled (obj st) !! (j mod n))) as [b Hfb].
  { apply lookup_lt_is_Some. rewrite Hlen. apply Nat.mod_upper_bound. lia. }
  rewrite Hfb. f_equal. apply (Hfilled _ _ Hfb). exists j. split; [lia | reflexivity].
Qed.

(** X20: from the state the constructor leaves, along every interleaving:
    the device holds at most [transfers] buffers, all different, each the
    buffer of a slot whose flag is true, and no store of [work] falls into a
    buffer that the device holds. *)
Theorem device_buffers_are_not_written :
  forall (lexical_cast : string -> option Z) (dict : dict_t) (c : stream_config)
         (bufs : list Z) (st0 st : system) (tr : list event),
    configure lexical_cast dict = Ok c ->
    well_allocated (Z.to_nat (num_buffers c)) (Z.to_nat (samples_per_buffer c)) bufs ->
    initial c bufs = Some st0 ->
    reachable st0 st tr ->
    length (in_flight st) <= num_transfers st /\
    NoDup (in_flight st) /\
    (forall p, In p (in_flight st) ->
       exists i, _buffers (obj st) !! i = Some p /\ _filled (obj st) !! i = Some true) /\
    (forall a st' evs addr v p,
        exec a st = Some (st', evs) -> In (EvStore addr v) evs ->
        In p (in_flight st) ->
        ~ (p <= addr < p + 4 * Z.of_nat (_samples_per_buffer (obj st)))%Z).
Proof.
  intros lc dict c bufs st0 st tr Hc Hal Hinit Hreach.
  destruct (initial_inv lc dict c bufs st0 Hc Hal Hinit) as [H0 _].
  destruct (reachable_inv _ _ _ _ _ _ H0 Hreach) as ((P & C & R & Hinv) & _ & _).
  set (n := Z.to_nat (num_buffers c)) in *.
  set (spb := Z.to_nat (samples_per_buffer c)) in *.
  assert (Hslot : forall p, In p (in_flight st) ->
            exists i, _buffers (obj st) !! i = Some p /\
                      _filled (obj st) !! i = Some true).
  { intros p Hp. destruct (in_flight_window _ _ _ _ _ _ _ _ Hinv Hp) as (j & _ & Hb & Hf).
    exists (j mod n). rewrite (inv_bufs _ _ _ _ _ _ _ Hinv). auto. }
  split; [|split; [|split; [exact Hslot|]]].
  - rewrite (inv_in_flight _ _ _ _ _ _ _ Hinv), length_map, length_seq.
    exact (inv_window _ _ _ _ _ _ _ Hinv).
  - pose proof Hinv as Hinv'. fields Hinv'. rewrite Hfl.
    apply NoDup_fmap_2_strong; [|apply NoDup_seq].
    intros j1 j2 H1 H2 Heq.
    apply elem_of_seq in H1. apply elem_of_seq in H2.
    destruct (buffer_at_lookup n spb bufs j1 Halloc Hn) as [Hb1 _].
    destruct (buffer_at_lookup n spb bufs j2 Halloc Hn) as [Hb2 _].
    rewrite Heq in Hb1.
    pose proof (well_allocated_inj n spb bufs _ _ _ Halloc Hspbpos Hb1 Hb2) as Hmod.
    destruct (Nat.le_ge_cases j1 j2).
    + apply (mod_window_inj n); lia.
    + symmetry. apply (mod_window_inj n); lia.
  - intros a st' evs addr v p Hexec Hev Hp Hrange.
    destruct (exec_safe _ _ _ P C R st st' a evs Hinv Hexec) as (_ & _ & Hst & _).
    destruct (Hst addr v Hev) as [_ Hfalse].
    destruct (Hslot p Hp) as (i & Hb & Hf).
    assert (in_slot (obj st) i addr) as Hin by (exists p; auto).
    rewrite (Hfalse i Hin) in Hf. discriminate.
Qed.

Lemma device_buffers_are_not_written_witness :
  exists st0 st tr,
    initial two_buffers two_buffers_at = Some st0 /\
    run fill_and_drain st0 = Some (st, tr) /\
    length (in_flight st) <= num_transfers st /\
    NoDup (in_flight st) /\
    (forall p, In p (in_flight st) ->
       exists i, _buffers (obj st) !! i = Some p /\ _filled (obj st) !! i = Some true) /\
    (forall a st' evs addr v p,
        exec a st = Some (st', evs) -> In (EvStore addr v) evs ->
        In p (in_flight st) ->
        ~ (p <= addr < p + 4 * Z.of_nat (_samples_per_buffer (obj st)))%Z).
Proof.
  destruct (outcome_spec _ _ _ _ _ fill_and_drain_runs) as (st0 & st & tr & H0 & Hrun & _).
  exists st0, st, tr. split; [exact H0|]. split; [exact Hrun|].
  apply (device_buffers_are_not_written decimal args_two_buffers two_buffers
           two_buffers_at st0 st tr).
  - vm_compute. reflexivity.
  - exact two_buffers_allocated.
  - exact H0.
  - apply (run_reachable fill_and_drain). exact Hrun.
Defined.

End InFlight.

Section NoFailure.
Import Config.

Lemma engine_wake_not_thrown (c : cond) (st : system) :
  engine st <> CThrown -> engine (wake c st) <> CThrown.
Proof.
  intros H. destruct c; cbn [wake]; [|destruct (pc (frame st)); exact H].
  destruct (engine st) eqn:He; cbn; rewrite ?He; try exact H; discriminate.
Qed.

Lemma engine_deliver_not_thrown (evs : list event) (st : system) :
  engine st <> CThrown -> engine (deliver evs st) <> CThrown.
Proof.
  revert st. induction evs as [|e evs IH]; intros st H; [exact H|].
  destruct e; cbn [deliver]; auto using engine_wake_not_thrown.
Qed.

Lemma engine_after_callback (o : callback_state) (rest : list Z) (st : system) :
  engine (after_callback o rest st) <> CThrown.
Proof.
  destruct o as [s | ret s]; cbn; [|destruct (ret =? NULL)%Z]; discriminate.
Qed.

Lemma pool_next_defined (n spb : nat) (bufs : list Z) (P C R : nat) (st : system) :
  pool_inv n spb bufs P C R st -> is_Some (next_or_wait (obj st)).
Proof.
  intros Hinv. fields Hinv. destruct Halloc as (Hbl & _).
  assert (C mod n < n) by (apply Nat.mod_upper_bound; lia).
  apply next_or_wait_defined; rewrite Hntx, ?Hlen, ?Hbufs, ?Hbl; assumption.
Qed.

Lemma callback_defined (n spb : nat) (bufs : list Z) (P C R : nat) (st : system)
    (samples : Z) (rest : list Z) :
  pool_inv n spb bufs P C R st ->
  engine st = CIdle ->
  (samples = NULL /\ rest = in_flight st /\ length (in_flight st) < num_transfers st) \/
  in_flight st = samples :: rest ->
  exists st' evs, callback samples rest st = Some (st', evs) /\ engine st' <> CThrown.
Proof.
  intros Hinv Hidle Hcase.
  destruct (mark_emptied_safe n spb bufs P C R st samples rest Hinv Hidle Hcase)
    as (s1 & evs1 & R1 & Hmark & Hinv1 & _).
  destruct (pool_next_defined _ _ _ _ _ _ _ Hinv1) as [[o evs2] Hnext].
  cbn [obj with_in_flight with_engine with_obj] in Hnext.
  unfold callback, get_next_buffer. rewrite Hmark. cbn [mbind result_bind].
  rewrite Hnext. cbn [mbind option_bind].
  eexists _, _. split; [reflexivity|].
  apply engine_deliver_not_thrown, engine_after_callback.
Qed.

Lemma exec_not_thrown (n spb : nat) (bufs : list Z) (P C R : nat) (st st' : system)
    (a : action) (evs : list event) :
  pool_inv n spb bufs P C R st ->
  engine st <> CThrown ->
  exec a st = Some (st', evs) ->
  engine st' <> CThrown.
Proof.
  intros Hinv Hne Hexec. destruct a; cbn [exec] in Hexec.
  - destruct (pc (frame st)); try discriminate. injection Hexec as <- <-. exact Hne.
  - destruct (work_step (obj st) (frame st)) as [[[s' f'] evs']|]; [|discriminate].
    cbn [mbind option_bind] in Hexec. injection Hexec as <- <-.
    apply engine_deliver_not_thrown. exact Hne.
  - destruct (engine st) eqn:Hidle; try discriminate.
    destruct (length (in_flight st) <? num_transfers st) eqn:Hroom; [|discriminate].
    apply Nat.ltb_lt in Hroom.
    destruct (callback_defined n spb bufs P C R st NULL (in_flight st) Hinv Hidle
                ltac:(left; auto)) as (st1 & evs1 & Hcb & Hok).
    rewrite Hcb in Hexec. injection Hexec as <- <-. exact Hok.
  - destruct (engine st) eqn:Hidle; try discriminate.
    destruct (in_flight st) as [|samples rest] eqn:Hq; [discriminate|].
    destruct (callback_defined n spb bufs P C R st samples rest Hinv Hidle
                ltac:(right; auto)) as (st1 & evs1 & Hcb & Hok).
    rewrite Hcb in Hexec. injection Hexec as <- <-. exact Hok.
  - destruct (engine st); try discriminate.
    destruct (get_next_buffer_resume (obj st)) as [[o evs']|]; [|discriminate].
    cbn [mbind option_bind] in Hexec. injection Hexec as <- <-.
    apply engine_deliver_not_thrown, engine_after_callback.
  - destruct (engine st); try discriminate. injection Hexec as <- <-. discriminate.
  - destruct (engine st); try discriminate. injection Hexec as <- <-. discriminate.
  - injection Hexec as <- <-. apply engine_wake_not_thrown. exact Hne.
  - unfold destructor_step in Hexec. destruct (dtor st); try discriminate.
    + injection Hexec as <- <-. exact Hne.
    + cbv zeta in Hexec.
      remember (deliver _ (with_dtor DBroadcast st)) as st1 eqn:Hst1.
      injection Hexec as <- <-. rewrite Hst1.
      apply engine_deliver_not_thrown. exact Hne.
    + destruct (engine st) eqn:He; try discriminate. injection Hexec as <- <-.
      cbn. rewrite He. discriminate.
    + injection Hexec as <- <-. exact Hne.
Qed.

Lemma pool_work_defined (n spb : nat) (bufs : list Z) (P C R : nat) (st : system) :
  pool_inv n spb bufs P C R st ->
  pc (frame st) = PLoop \/ pc (frame st) = PCheck \/ pc (frame st) = PWoken ->
  is_Some (work_step (obj st) (frame st)).
Proof.
  intros Hinv Hpc. fields Hinv. destruct Halloc as (Hbl & _).
  assert (Hslot : forall j b, is_Some (<[P mod n := b]> (_filled (obj st)) !! (j mod n))).
  { intros j b. apply lookup_lt_is_Some. rewrite length_insert, Hlen.
    apply Nat.mod_upper_bound. lia. }
  assert (Hidx : is_Some (_filled (obj st) !! _buf_index (obj st))).
  { apply lookup_lt_is_Some. rewrite Hbi, Hlen. apply Nat.mod_upper_bound. lia. }
  unfold work_step. destruct Hpc as [-> | [-> | ->]].
  - destruct (running _ && _); eauto.
  - destruct (_samples_left (obj st) =? 0); [|eauto].
    unfold rotate. destruct Hidx as [b ->]. cbn [mbind option_bind].
    assert (is_Some (_buffers (obj st) !! (S (_buf_index (obj st)) mod _num_buffers (obj st))))
      as [p ->].
    { apply lookup_lt_is_Some. rewrite Hbufs, Hbl, Hnum. apply Nat.mod_upper_bound. lia. }
    cbn [mbind option_bind]. unfold wait_or_go.
    cbn [_filled _buf_index with_samples_left with_next_value with_buf_index with_filled].
    rewrite Hbi, Hnum. destruct (Hslot (S (P mod n)) true) as [full ->].
    cbn [mbind option_bind]. destruct (full && _); cbn; eauto.
  - unfold wait_or_go. destruct Hidx as [full ->]. cbn [mbind option_bind].
    destruct (full && _); cbn; eauto.
Qed.

(** X21: from the state the constructor leaves, along every interleaving:
    [buffer2index] finds every buffer that the device can give back, so the
    callback never throws; and every index that [work] and [get_next_buffer]
    use lies inside [_filled] and [_buffers], so each of their steps is
    defined. *)
Theorem buffer_lookup_never_fails :
  forall (lexical_cast : string -> option Z) (dict : dict_t) (c : stream_config)
         (bufs : list Z) (st0 st : system) (tr : list event),
    configure lexical_cast dict = Ok c ->
    well_allocated (Z.to_nat (num_buffers c)) (Z.to_nat (samples_per_buffer c)) bufs ->
    initial c bufs = Some st0 ->
    reachable st0 st tr ->
    engine st <> CThrown /\
    (forall p, In p (in_flight st) ->
       exists idx, buffer2index (_buffers (obj st)) p (_num_buffers (obj st)) = Ok idx /\
                   _buffers (obj st) !! idx = Some p) /\
    (engine st = CIdle -> in_flight st <> [] -> is_Some (exec ACallbackNext st)) /\
    (engine st = CIdle -> length (in_flight st) < num_transfers st ->
     is_Some (exec ACallbackFirst st)) /\
    (engine st = CWoken -> is_Some (exec ACallbackResume st)) /\
    (pc (frame st) = PLoop \/ pc (frame st) = PCheck \/ pc (frame st) = PWoken ->
     is_Some (exec AWork st)).
Proof.
  intros lc dict c bufs st0 st tr Hc Hal Hinit Hreach.
  destruct (initial_inv lc dict c bufs st0 Hc Hal Hinit) as [H0 _].
  destruct (reachable_inv _ _ _ _ _ _ H0 Hreach) as ((P & C & R & Hinv) & _ & _).
  set (n := Z.to_nat (num_buffers c)) in *.
  set (spb := Z.to_nat (samples_per_buffer c)) in *.
  split; [|split; [|split; [|split; [|split]]]].
  - clear P C R Hinv. induction Hreach as [|st tr a st' evs Hreach IH Hexec].
    + unfold initial in Hinit. destruct (bufs !! 0); [|discriminate].
      injection Hinit as <-. discriminate.
    + destruct (reachable_inv _ _ _ _ _ _ H0 Hreach) as ((P & C & R & Hinv) & _ & _).
      exact (exec_not_thrown _ _ _ _ _ _ _ _ _ _ Hinv IH Hexec).
  - intros p Hp.
    destruct (in_flight_window _ _ _ _ _ _ _ _ Hinv Hp) as (j & _ & Hb & _).
    exists (j mod n). fields Hinv. rewrite Hbufs, Hnum.
    split; [|exact Hb]. exact (buffer2index_slot n spb bufs _ _ Halloc Hspbpos Hb).
  - intros Hidle Hne. cbn [exec]. rewrite Hidle.
    destruct (in_flight st) as [|samples rest] eqn:Hq; [contradiction|].
    destruct (callback_defined n spb bufs P C R st samples rest Hinv Hidle
                ltac:(right; auto)) as (st1 & evs1 & -> & _). eauto.
  - intros Hidle Hroom. cbn [exec]. rewrite Hidle.
    apply Nat.ltb_lt in Hroom as Hroom'. rewrite Hroom'.
    destruct (callback_defined n spb bufs P C R st NULL (in_flight st) Hinv Hidle
                ltac:(left; auto)) as (st1 & evs1 & -> & _). eauto.
  - intros Hwoken. cbn [exec]. rewrite Hwoken. unfold get_next_buffer_resume.
    destruct (pool_next_defined _ _ _ _ _ _ _ Hinv) as [[o evs] ->]. cbn. eauto.
  - intros Hpc. cbn [exec].
    destruct (pool_work_defined _ _ _ _ _ _ _ Hinv Hpc) as [[[s' f'] evs] ->].
    cbn. eauto.
Qed.

Lemma buffer_lookup_never_fails_witness :
  exists st0 st tr,
    initial two_buffers two_buffers_at = Some st0 /\
    run fill_and_drain st0 = Some (st, tr) /\
    engine st <> CThrown /\
    (forall p, In p (in_flight st) ->
       exists idx, buffer2index (_buffers (obj st)) p (_num_buffers (obj st)) = Ok idx /\
                   _buffers (obj st) !! idx = Some p) /\
    (engine st = CIdle -> in_flight st <> [] -> is_Some (exec ACallbackNext st)) /\
    (engine st = CIdle -> length (in_flight st) < num_transfers st ->
     is_Some (exec ACallbackFirst st)) /\
    (engine st = CWoken -> is_Some (exec ACallbackResume st)) /\
    (pc (frame st) = PLoop \/ pc (frame st) = PCheck \/ pc (frame st) = PWoken ->
     is_Some (exec AWork st)).
Proof.
  destruct (outcome_spec _ _ _ _ _ fill_and_drain_runs) as (st0 & st & tr & H0 & Hrun & _).
  exists st0, st, tr. split; [exact H0|]. split; [exact Hrun|].
  apply (buffer_lookup_never_fails decimal args_two_buffers two_buffers
           two_buffers_at st0 st tr).
  - vm_compute. reflexivity.
  - exact two_buffers_allocated.
  - exact H0.
  - apply (run_reachable fill_and_drain). exact Hrun.
Defined.

End NoFailure.
